(** * Gondi fees dashboard: the transaction ingestion pipeline

    A shallow embedding of [src/lib/blockchain.ts]: the cache helpers,
    [parseTransactionValue], [fetchWithRetry] and
    [fetchEthereumTransactions], together with the JavaScript primitives
    they rely on ([parseInt], [BigInt], [toLowerCase], [Array.filter],
    [Array.findIndex], [Promise.allSettled]), and of the handler of
    [src/app/api/fees/route.ts], which calls them.

    Effects are explicit.  The process-wide [API_CACHE], the clock read by
    [Date.now()], the requests sent with [fetch] and the delays awaited
    with [setTimeout] live in a [World]; a computation is a function from
    a world to an outcome (a value or a thrown error) and a new world.
    Console output is not modelled. *)

From Stdlib Require Import ZArith QArith Qround Qabs Qpower List Bool Ascii String Lia Lqa.
From Stdlib Require Import Sorting.Sorted Sorting.Permutation.
From stdpp Require Import base option list strings gmap.

Local Open Scope string_scope.
Local Open Scope Z_scope.

(** ** JavaScript primitives *)

Module Js.

(** A Number that is an integer, or NaN.  The numbers of this file come
    from [parseInt] on ledger fields and stay far below 2^53 in practice;
    integers are kept exact.  Up to 2^53 this is the Number that the code
    computes; above, the code rounds to binary64 and ends at Infinity,
    so that what is stated of the value of such a number carries the
    bound, while its comparison with a smaller integer is the same either
    way. *)
Inductive number :=
| NaN
| Num (z : Z).

(** [a < b]: false as soon as one side is NaN. *)
Definition lt (a b : number) : bool :=
  match a, b with
  | Num x, Num y => x <? y
  | _, _ => false
  end.

(** [a >= b]: false as soon as one side is NaN. *)
Definition ge (a b : number) : bool :=
  match a, b with
  | Num x, Num y => y <=? x
  | _, _ => false
  end.

(** [a * b] *)
Definition mul (a b : number) : number :=
  match a, b with
  | Num x, Num y => Num (x * y)
  | _, _ => NaN
  end.

(** A [string] stands for a JavaScript string whose code units are below
    256, one [ascii] per code unit; strings with other characters are
    outside the model. *)
Definition code (c : ascii) : Z := Z.of_N (N_of_ascii c).

(** The members of StrWhiteSpaceChar below 256: TAB, LF, VT, FF, CR, SP
    and NBSP. *)
Definition isWhiteSpace (c : ascii) : bool :=
  let n := code c in ((9 <=? n) && (n <=? 13)) || (n =? 32) || (n =? 160).

Fixpoint trimStart (s : string) : string :=
  match s with
  | String c s' => if isWhiteSpace c then trimStart s' else s
  | EmptyString => EmptyString
  end.

Fixpoint trimEnd (s : string) : string :=
  match s with
  | String c s' =>
      match trimEnd s' with
      | EmptyString => if isWhiteSpace c then EmptyString else String c EmptyString
      | t => String c t
      end
  | EmptyString => EmptyString
  end.

Definition trim (s : string) : string := trimEnd (trimStart s).

(** The lower-case form of a character below 256: the capital letters
    are A to Z, and U+00C0 to U+00DE without the sign U+00D7. *)
Definition lowerChar (c : ascii) : ascii :=
  let n := code c in
  if ((65 <=? n) && (n <=? 90))
     || ((192 <=? n) && (n <=? 222) && negb (n =? 215))
  then ascii_of_N (Z.to_N (n + 32)) else c.

(** [s.toLowerCase()] *)
Fixpoint toLowerCase (s : string) : string :=
  match s with
  | String c s' => String (lowerChar c) (toLowerCase s')
  | EmptyString => EmptyString
  end.

(** The value of a digit in bases up to 36. *)
Definition digitValue (c : ascii) : option Z :=
  let n := code c in
  if (48 <=? n) && (n <=? 57) then Some (n - 48)
  else if (97 <=? n) && (n <=? 122) then Some (n - 87)
  else if (65 <=? n) && (n <=? 90) then Some (n - 55)
  else None.

Definition radixDigit (radix : Z) (c : ascii) : option Z :=
  match digitValue c with
  | Some d => if d <? radix then Some d else None
  | None => None
  end.

(** The longest prefix of [s] made of digits of the radix, as digit
    values, and what follows it. *)
Fixpoint spanDigits (radix : Z) (s : string) : list Z * string :=
  match s with
  | String c s' =>
      match radixDigit radix c with
      | Some d => let '(ds, rest) := spanDigits radix s' in (d :: ds, rest)
      | None => ([], s)
      end
  | EmptyString => ([], EmptyString)
  end.

Definition digitsValue (radix : Z) (ds : list Z) : Z :=
  fold_left (fun acc d => acc * radix + d) ds 0.

(** [parseInt(s)] with no radix: leading white space is skipped, a sign is
    read, [0x] or [0X] selects base 16, then the longest run of digits is
    taken; no digit at all gives NaN. *)
Definition parseInt (s : string) : number :=
  let s1 := trimStart s in
  let '(negative, s2) :=
    match s1 with
    | String "-" r => (true, r)
    | String "+" r => (false, r)
    | _ => (false, s1)
    end in
  let '(radix, s3) :=
    match s2 with
    | String "0" (String "x" r) => (16, r)
    | String "0" (String "X" r) => (16, r)
    | _ => (10, s2)
    end in
  match spanDigits radix s3 with
  | ([], _) => NaN
  | (ds, _) => Num (if negative then - digitsValue radix ds else digitsValue radix ds)
  end.

(** [parseInt(v)] on a field that may be absent: [undefined] is first
    turned into the string "undefined". *)
Definition parseIntField (v : option string) : number :=
  match v with
  | Some s => parseInt s
  | None => parseInt "undefined"
  end.

(** All of [s] as digits of the radix; [None] when [s] is empty or holds
    another character. *)
Definition allDigits (radix : Z) (s : string) : option Z :=
  match spanDigits radix s with
  | (d :: ds, EmptyString) => Some (digitsValue radix (d :: ds))
  | _ => None
  end.

(** [BigInt(s)] on a string (StringToBigInt): white space is trimmed on
    both sides; the empty string is 0n; otherwise a decimal literal with
    an optional sign, or an unsigned [0x], [0o] or [0b] literal.  [None]
    stands for the SyntaxError thrown on anything else. *)
Definition BigInt (s : string) : option Z :=
  match trim s with
  | EmptyString => Some 0
  | String "0" (String "x" r) | String "0" (String "X" r) => allDigits 16 r
  | String "0" (String "o" r) | String "0" (String "O" r) => allDigits 8 r
  | String "0" (String "b" r) | String "0" (String "B" r) => allDigits 2 r
  | String "-" r => Z.opp <$> allDigits 10 r
  | String "+" r => allDigits 10 r
  | t => allDigits 10 t
  end.

(** Truthiness of a value that is a string or [undefined]. *)
Definition truthy (v : option string) : bool :=
  match v with
  | Some EmptyString | None => false
  | Some _ => true
  end.

(** [===] on values that are strings or [undefined]. *)
Definition strictEq (a b : option string) : bool := bool_decide (a = b).

(** [v?.toLowerCase()] *)
Definition optLower (v : option string) : option string := toLowerCase <$> v.

(** [array.findIndex(p)], with [None] for -1. *)
Fixpoint findIndex {A} (p : A -> bool) (l : list A) : option nat :=
  match l with
  | [] => None
  | x :: l' => if p x then Some O else S <$> findIndex p l'
  end.

(** [array.filter((x, index, array) => p x index array)]: the callback
    sees the index and the whole array. *)
Fixpoint filterFrom {A} (p : A -> nat -> bool) (i : nat) (l : list A) : list A :=
  match l with
  | [] => []
  | x :: l' => if p x i then x :: filterFrom p (S i) l' else filterFrom p (S i) l'
  end.

Definition filterIndexed {A} (p : A -> nat -> list A -> bool) (l : list A) : list A :=
  filterFrom (fun x i => p x i l) O l.

(** [a - b] *)
Definition sub (a b : number) : number :=
  match a, b with
  | Num x, Num y => Num (x - y)
  | _, _ => NaN
  end.

(** [n || d] on Numbers: 0 and NaN are falsy. *)
Definition orNumber (n d : number) : number :=
  match n with
  | NaN | Num 0 => d
  | _ => n
  end.

(** Whether the result of a comparator is above 0; NaN counts as 0. *)
Definition positive (n : number) : bool := lt (Num 0) n.

(** [array.sort(compare)].  The sort is stable: with a consistent
    comparator its result is the one of inserting the elements one by
    one, from the last to the first, each before the first element that
    it does not have to come after.  (With a comparator that is not
    consistent the order is left to the implementation, and is not
    modelled.) *)
Fixpoint insertSorted {A} (compare : A -> A -> number) (x : A) (l : list A) : list A :=
  match l with
  | [] => [x]
  | y :: l' => if positive (compare x y) then y :: insertSorted compare x l' else x :: l
  end.

Fixpoint sort {A} (compare : A -> A -> number) (l : list A) : list A :=
  match l with
  | [] => []
  | x :: l' => insertSorted compare x (sort compare l')
  end.

(** [array.slice(0, n)] *)
Definition slice0 {A} (n : nat) (l : list A) : list A := firstn n l.

(** [set.add(x)] on a Set kept as the list of its elements in insertion
    order, which is the order of [Array.from(set)]. *)
Definition setAdd (set : list string) (x : string) : list string :=
  if existsb (String.eqb x) set then set else (set ++ [x])%list.

End Js.

(** ** Numbers that are not integers: binary64 arithmetic

    [parseTransactionValue] divides and adds Numbers.  A finite Number is
    represented by the rational it denotes, and every operation rounds
    its exact result to the nearest binary64 value, ties to even
    (53 significant bits, least exponent -1074, overflow to Infinity).
    The two zeros are not told apart. *)

Module Float.

Local Open Scope Q_scope.

Inductive double :=
| Finite (x : Q)
| Infinity (negative : bool)
| NaN.

(** The largest [k] with [2^k <= x], for [0 < x]. *)
Definition ilog2 (x : Q) : Z :=
  let k := (Z.log2 (Qnum x) - Z.log2 (Zpos (Qden x)))%Z in
  if Qle_bool (2 ^ k) x then k else (k - 1)%Z.

(** The integer nearest to [x], the even one of two that are equally
    near. *)
Definition nearestEven (x : Q) : Z :=
  let f := Qfloor x in
  match Qcompare (x - inject_Z f) (1 # 2) with
  | Lt => f
  | Gt => (f + 1)%Z
  | Eq => if Z.even f then f else (f + 1)%Z
  end.

Definition roundPositive (x : Q) : double :=
  let e := Z.max (ilog2 x - 52) (-1074) in
  let m := nearestEven (x / 2 ^ e) in
  if ((971 <? e)%Z || ((e =? 971)%Z && (2 ^ 53 <=? m)%Z))%bool then Infinity false
  else Finite (inject_Z m * 2 ^ e).

Definition neg (a : double) : double :=
  match a with
  | Finite x => Finite (- x)
  | Infinity s => Infinity (negb s)
  | NaN => NaN
  end.

(** The binary64 value nearest to the rational [x]. *)
Definition round (x : Q) : double :=
  match Qcompare x 0 with
  | Eq => Finite 0
  | Gt => roundPositive x
  | Lt => neg (roundPositive (- x))
  end.

(** [Number(n)] on a BigInt. *)
Definition ofBigInt (n : Z) : double := round (inject_Z n).

(** [BigInt(x)] on a Number: the integer, or [None] for the RangeError
    thrown when [x] is not an integer. *)
Definition toBigInt (a : double) : option Z :=
  match a with
  | Finite x => if Qeq_bool (inject_Z (Qfloor x)) x then Some (Qfloor x) else None
  | _ => None
  end.

Definition isNegative (x : Q) : bool :=
  match Qcompare x 0 with Lt => true | _ => false end.

(** [a / b] *)
Definition div (a b : double) : double :=
  match a, b with
  | Finite x, Finite y =>
      if Qeq_bool y 0 then
        if Qeq_bool x 0 then NaN else Infinity (isNegative x)
      else round (x / y)
  | Finite _, Infinity _ => Finite 0
  | Infinity s, Finite y => Infinity (xorb s (isNegative y))
  | _, _ => NaN
  end.

(** [a + b] *)
Definition add (a b : double) : double :=
  match a, b with
  | Finite x, Finite y => round (x + y)
  | Finite _, Infinity s | Infinity s, Finite _ => Infinity s
  | Infinity s, Infinity s' => if Bool.eqb s s' then Infinity s else NaN
  | _, _ => NaN
  end.

(** [10 ** n] for an integer [n].  The power is exact whenever it is a
    binary64 value, which is so for [0 <= n <= 22]; elsewhere the model
    takes the nearest binary64 value, which [**], approximated by the
    implementation, need not return: what is proved of the value of a
    result either keeps [n] within 0 and 22 or holds for every
    divisor. *)
Definition pow10 (n : Z) : double := round (10 ^ n).

(** [Number.EPSILON]: the gap between 1 and the next Number. *)
Definition EPSILON : Q := 2 ^ (-52).

(** [a * b] *)
Definition mul (a b : double) : double :=
  match a, b with
  | Finite x, Finite y => round (x * y)
  | Finite x, Infinity s | Infinity s, Finite x =>
      if Qeq_bool x 0 then NaN else Infinity (xorb s (isNegative x))
  | Infinity s, Infinity s' => Infinity (xorb s s')
  | _, _ => NaN
  end.

(** [v || 0] on a value that is a Number or [undefined]. *)
Definition orZero (v : option double) : double :=
  match v with
  | Some (Finite x) => if Qeq_bool x 0 then Finite 0 else Finite x
  | Some (Infinity s) => Infinity s
  | Some NaN | None => Finite 0
  end.

End Float.

(** ** src/lib/blockchain.ts: data *)

Module Raw.

(** A record of the [result] array of the ledger API, as the code reads
    it: every field is a string or absent ([undefined]). *)
Record t := mk {
  hash : option string;
  timeStamp : option string;
  value : option string;
  from : option string;
  to : option string;
  contractAddress : option string;
  tokenSymbol : option string;
  tokenDecimal : option string;
  blockNumber : option string
}.

End Raw.

Module Transaction.

(** The object built by the [.map] callbacks (type [Transaction]). *)
Record t := mk {
  hash : option string;
  timestamp : Js.number;
  value : option string;
  tokenSymbol : option string;
  tokenDecimal : Js.number;
  from : option string;
  to : option string;
  network : string;
  blockNumber : Js.number
}.

End Transaction.

(** What a [throw] carries. *)
Inductive Error :=
| FetchFailed (reason : string)
    (* fetch() rejected: no HTTP response *)
| HttpError (status : Z) (statusText : string)
    (* new Error(`HTTP ${response.status}: ${response.statusText}`) *)
| JsonError
    (* response.json() rejected, or the body is the JSON value null *)
| EtherscanApiError (message result : option string)
    (* new Error(`Etherscan API error: ${data.message || data.result}`) *)
| MissingApiKey
    (* new Error('ETHERSCAN_API_KEY is required but not set') *)
| BigIntSyntaxError (s : string)
    (* BigInt(s) on a string that is no integer literal *)
| BigIntRangeError.
    (* BigInt(x) on a Number that is no integer, or division by 0n *)

Inductive Outcome (A : Type) :=
| Return (a : A)
| Throw (e : Error).
Arguments Return {A} a.
Arguments Throw {A} e.

(** The [result] field of the response envelope: an array of records, or
    anything else (a string such as a rate-limit notice, or absent). *)
Inductive ResultField :=
| ResultArray (records : list Raw.t)
| ResultOther (s : option string).

Inductive Body :=
| NotJson
| JsonNull
| Envelope (status message : option string) (result : ResultField).

(** How one [fetch(url)] ends. *)
Inductive FetchOutcome :=
| NetworkFailure (reason : string)
| HttpResponse (status : Z) (statusText : string) (body : Body).

Record Exchange := mkExchange {
  latency : N;              (* milliseconds until the response is read *)
  outcome : FetchOutcome
}.

(** The value stored in [API_CACHE]: [{ data, timestamp }]. *)
Record CacheEntry := mkEntry {
  data : list Raw.t;
  timestamp : Z
}.

Record World := mkWorld {
  API_CACHE : gmap string CacheEntry;
  now : Z;                  (* Date.now(), milliseconds *)
  requests : list string;   (* URLs handed to fetch, oldest first *)
  delays : list Z           (* setTimeout delays awaited, oldest first *)
}.

(** A computation that may read and change the world and may throw. *)
Definition M (A : Type) : Type := World -> Outcome A * World.

Definition ret {A} (a : A) : M A := fun w => (Return a, w).

Definition throw {A} (e : Error) : M A := fun w => (Throw e, w).

Definition bind {A B} (m : M A) (k : A -> M B) : M B :=
  fun w =>
    match m w with
    | (Return a, w') => k a w'
    | (Throw e, w') => (Throw e, w')
    end.

(** [try { m } catch (error) { handler error }] *)
Definition tryCatch {A} (m : M A) (handler : Error -> M A) : M A :=
  fun w =>
    match m w with
    | (Return a, w') => (Return a, w')
    | (Throw e, w') => handler e w'
    end.

(** An exception raised by pure code inside a computation. *)
Definition lift {A} (o : Outcome A) : M A := fun w => (o, w).

Notation "x <- m ;; k" := (bind m (fun x => k))
  (at level 100, m at next level, right associativity).
Notation "m ;;; k" := (bind m (fun _ => k))
  (at level 100, right associativity).

(** [Promise.allSettled([p]).then(r => r[0])] *)
Inductive Settled (A : Type) :=
| Fulfilled (value : A)
| Rejected (reason : Error).
Arguments Fulfilled {A} value.
Arguments Rejected {A} reason.

Definition allSettled {A} (m : M A) : M (Settled A) :=
  fun w =>
    match m w with
    | (Return a, w') => (Return (Fulfilled a), w')
    | (Throw e, w') => (Return (Rejected e), w')
    end.

(** [await new Promise(resolve => setTimeout(resolve, ms))] *)
Definition sleep (ms : Z) : M unit :=
  fun w => (Return tt, mkWorld (API_CACHE w) (now w + ms) (requests w) (delays w ++ [ms])).

(** [array.filter(p)] with a callback that may throw: the elements are
    visited in order and the first exception ends the call. *)
Fixpoint filterThrowing {A} (p : A -> Outcome bool) (l : list A) : Outcome (list A) :=
  match l with
  | [] => Return []
  | x :: l' =>
      match p x with
      | Throw e => Throw e
      | Return b =>
          match filterThrowing p l' with
          | Throw e => Throw e
          | Return kept => Return (if b then x :: kept else kept)
          end
      end
  end.

(** ** src/lib/blockchain.ts: operations *)

Module Blockchain.

Definition CACHE_DURATION : Z := 30 * 60 * 1000.

(** [getCachedData(url)]; [None] is the [null] returned on a miss. *)
Definition getCachedData (url : string) (w : World) : option (list Raw.t) :=
  match API_CACHE w !! url with
  | Some cached =>
      if now w - timestamp cached <? CACHE_DURATION then Some (data cached) else None
  | None => None
  end.

(** [setCachedData(url, data)] *)
Definition setCachedData (url : string) (results : list Raw.t) : M unit :=
  fun w =>
    (Return tt,
     mkWorld (<[url := mkEntry results (now w)]> (API_CACHE w))
             (now w) (requests w) (delays w)).

Definition GONDI_CONTRACT : string := "0x4169447a424ec645f8a24dccfd8328f714dd5562".
Definition USDC_CONTRACT : string := "0xA0b86991c6218b36c1d19D4a2e9Eb0cE3606eB48".
Definition WETH_CONTRACT : string := "0xc02aaa39b223fe8d0a0e5c4f27ead9083c756cc2".

(** Days from 1970-01-01 to a date of the proleptic Gregorian calendar. *)
Definition daysFromCivil (year month day : Z) : Z :=
  let y := if month <=? 2 then year - 1 else year in
  let era := y / 400 in
  let yoe := y - era * 400 in
  let mp := if 2 <? month then month - 3 else month + 9 in
  let doy := (153 * mp + 2) / 5 + day - 1 in
  let doe := yoe * 365 + yoe / 4 - yoe / 100 + doy in
  era * 146097 + doe - 719468.

(** [new Date('2025-10-22T00:00:00Z').getTime()] *)
Definition START_DATE : Z := daysFromCivil 2025 10 22 * 86400000.

(** [Math.floor(START_DATE.getTime() / 1000)] *)
Definition START_TIMESTAMP : Z := START_DATE / 1000.

(** The [try] block of [parseTransactionValue(value, decimals)], for an
    integer [decimals].  BigInt division truncates towards zero and the
    remainder has the sign of the dividend. *)
Definition parseTransactionValue_body (value : string) (decimals : Z) : Outcome Float.double :=
  match Js.BigInt value with
  | None => Throw (BigIntSyntaxError value)
  | Some bigIntValue =>
      match Float.toBigInt (Float.pow10 decimals) with
      | None => Throw BigIntRangeError
      | Some divisor =>
          if divisor =? 0 then Throw BigIntRangeError
          else
            let quotient := Z.quot bigIntValue divisor in
            let remainder := Z.rem bigIntValue divisor in
            Return (Float.add (Float.ofBigInt quotient)
                      (Float.div (Float.ofBigInt remainder) (Float.ofBigInt divisor)))
      end
  end.

(** [parseTransactionValue(value, decimals)]: the [catch] returns 0.
    When [decimals] is left out it is 18. *)
Definition parseTransactionValue (value : string) (decimals : Z) : Float.double :=
  match parseTransactionValue_body value decimals with
  | Return x => x
  | Throw _ => Float.Finite 0
  end.

Section Ingestion.

(** The ledger API: what the [n]-th request of the process receives when
    it asks for [url]. *)
Variable upstream : nat -> string -> Exchange.

(** [process.env.ETHERSCAN_API_KEY], read once when the module is loaded. *)
Variable ETHERSCAN_API_KEY : option string.

(** [await fetch(url, ...)], up to the point where the response or the
    rejection is in hand. *)
Definition fetch (url : string) : M FetchOutcome :=
  fun w =>
    let exchange := upstream (length (requests w)) url in
    (Return (outcome exchange),
     mkWorld (API_CACHE w) (now w + Z.of_N (latency exchange))
             (requests w ++ [url]) (delays w)).

(** [response.ok] *)
Definition ok (status : Z) : bool := (200 <=? status) && (status <=? 299).

(** The body of the [try] block of one iteration of [fetchWithRetry]. *)
Definition attempt (url : string) : M (list Raw.t) :=
  response <- fetch url ;;
  match response with
  | NetworkFailure reason => throw (FetchFailed reason)
  | HttpResponse status statusText body =>
      if negb (ok status) then throw (HttpError status statusText)
      else
        match body with
        | NotJson | JsonNull => throw JsonError
        | Envelope flag message result =>       (* data.status, .message, .result *)
            if Js.strictEq flag (Some "0") then
              if Js.strictEq message (Some "No transactions found") then ret []
              else
                throw (EtherscanApiError message
                         match result with
                         | ResultOther s => s
                         | ResultArray _ => None
                         end)
            else
              let results :=
                match result with
                | ResultArray records => records
                | ResultOther _ => []
                end in
              setCachedData url results ;;;
              ret results
        end
  end.

(** [Math.min(5000, 1000 * Math.pow(2, i))] *)
Definition backoff (i : nat) : Z := Z.min 5000 (1000 * 2 ^ Z.of_nat i).

(** The [for (let i = 0; i < retries; i++)] loop of [fetchWithRetry], from
    iteration [i] on; [remaining] is [retries - i], so that [i < retries]
    reads [remaining <> 0]. *)
Fixpoint retryLoop (url : string) (retries i remaining : nat) : M (list Raw.t) :=
  match remaining with
  | O => ret []
  | S remaining' =>
      tryCatch (attempt url)
        (fun error =>
           if Nat.eqb i (retries - 1) then throw error
           else
             sleep (backoff i) ;;;
             retryLoop url retries (S i) remaining')
  end.

(** [fetchWithRetry(url, retries)].  Every call in the file leaves
    [retries] out, which then is 3. *)
Definition fetchWithRetry (url : string) (retries : nat) : M (list Raw.t) :=
  fun w =>
    match getCachedData url w with
    | Some cachedData => (Return cachedData, w)
    | None => retryLoop url retries O retries w
    end.

(** The [.filter] callback of the token-transfer category. *)
Definition tokenFilter (tx : Raw.t) : Outcome bool :=
  let txTimestamp := Js.parseIntField (Raw.timeStamp tx) in
  if Js.lt txTimestamp (Js.Num START_TIMESTAMP) then Return false
  else if negb (Js.strictEq (Js.optLower (Raw.to tx))
                            (Some (Js.toLowerCase GONDI_CONTRACT))) then Return false
  else
    match Raw.value tx with
    | None | Some EmptyString => Return false
    | Some v =>
        match Js.BigInt v with
        | None => Throw (BigIntSyntaxError v)
        | Some n =>
            if n <=? 0 then Return false
            else
              let contractAddress := Js.optLower (Raw.contractAddress tx) in
              Return (Js.strictEq contractAddress (Some (Js.toLowerCase USDC_CONTRACT))
                      || Js.strictEq contractAddress (Some (Js.toLowerCase WETH_CONTRACT)))
        end
    end.

(** The [.map] callback of the token-transfer category. *)
Definition tokenMap (tx : Raw.t) : Transaction.t :=
  {| Transaction.hash := Raw.hash tx;
     Transaction.timestamp := Js.mul (Js.parseIntField (Raw.timeStamp tx)) (Js.Num 1000);
     Transaction.value := Raw.value tx;
     Transaction.tokenSymbol :=
       if Js.strictEq (Raw.tokenSymbol tx) (Some "WETHEREUM") then Some "WETH"
       else Raw.tokenSymbol tx;
     Transaction.tokenDecimal :=
       Js.parseIntField (if Js.truthy (Raw.tokenDecimal tx) then Raw.tokenDecimal tx
                         else Some "18");
     Transaction.from := Raw.from tx;
     Transaction.to := Raw.to tx;
     Transaction.network := "ethereum";
     Transaction.blockNumber := Js.parseIntField (Raw.blockNumber tx) |}.

(** The [.filter] callback of the internal-transfer category. *)
Definition internalFilter (tx : Raw.t) : Outcome bool :=
  let txTimestamp := Js.parseIntField (Raw.timeStamp tx) in
  if Js.lt txTimestamp (Js.Num START_TIMESTAMP) then Return false
  else if negb (Js.strictEq (Js.optLower (Raw.to tx))
                            (Some (Js.toLowerCase GONDI_CONTRACT))) then Return false
  else
    match Raw.value tx with
    | None | Some EmptyString => Return false
    | Some v =>
        match Js.BigInt v with
        | None => Throw (BigIntSyntaxError v)
        | Some n => Return (0 <? n)
        end
    end.

(** The [.map] callback of the internal-transfer category. *)
Definition internalMap (tx : Raw.t) : Transaction.t :=
  {| Transaction.hash := Raw.hash tx;
     Transaction.timestamp := Js.mul (Js.parseIntField (Raw.timeStamp tx)) (Js.Num 1000);
     Transaction.value := Raw.value tx;
     Transaction.tokenSymbol := Some "ETH";
     Transaction.tokenDecimal := Js.Num 18;
     Transaction.from := Raw.from tx;
     Transaction.to := Raw.to tx;
     Transaction.network := "ethereum";
     Transaction.blockNumber :=
       Js.parseIntField (if Js.truthy (Raw.blockNumber tx) then Raw.blockNumber tx
                         else Some "0") |}.

(** [records.filter(tokenFilter).map(tokenMap)] *)
Definition processTokens (records : list Raw.t) : Outcome (list Transaction.t) :=
  match filterThrowing tokenFilter records with
  | Return kept => Return (map tokenMap kept)
  | Throw e => Throw e
  end.

(** [records.filter(internalFilter).map(internalMap)] *)
Definition processInternal (records : list Raw.t) : Outcome (list Transaction.t) :=
  match filterThrowing internalFilter records with
  | Return kept => Return (map internalMap kept)
  | Throw e => Throw e
  end.

(** [t.hash === tx.hash && t.value === tx.value] *)
Definition sameEvent (tx t : Transaction.t) : bool :=
  Js.strictEq (Transaction.hash t) (Transaction.hash tx)
  && Js.strictEq (Transaction.value t) (Transaction.value tx).

(** [transactions.filter((tx, index, array) =>
      array.findIndex(t => t.hash === tx.hash && t.value === tx.value) === index)] *)
Definition dedup (transactions : list Transaction.t) : list Transaction.t :=
  Js.filterIndexed
    (fun tx index array =>
       bool_decide (Js.findIndex (sameEvent tx) array = Some index))
    transactions.

Definition apiBase : string := "https://api.etherscan.io/v2/api?chainid=1&module=account&action=".

Definition baseParams (key : string) : string :=
  "startblock=0&endblock=99999999&sort=asc&apikey=" ++ key.

Definition tokenUrl (key : string) : string :=
  apiBase ++ "tokentx&address=" ++ GONDI_CONTRACT ++ "&" ++ baseParams key.

Definition internalUrl (key : string) : string :=
  apiBase ++ "txlistinternal&address=" ++ GONDI_CONTRACT ++ "&" ++ baseParams key.

(** What stands inside the [try] of [fetchEthereumTransactions]. *)
Definition fetchEthereumTransactions_body : M (list Transaction.t) :=
  match ETHERSCAN_API_KEY with
  | None | Some EmptyString => throw MissingApiKey
  | Some key =>
      tokenResults <- allSettled (fetchWithRetry (tokenUrl key) 3) ;;
      sleep 1000 ;;;
      internalResults <- allSettled (fetchWithRetry (internalUrl key) 3) ;;
      tokens <-
        match tokenResults with
        | Fulfilled records => lift (processTokens records)
        | Rejected _ =>
            tryCatch
              (retryTokens <- fetchWithRetry (tokenUrl key) 3 ;;
               lift (processTokens retryTokens))
              (fun retryError => ret [])
        end ;;
      ethInternal <-
        match internalResults with
        | Fulfilled records => lift (processInternal records)
        | Rejected _ => ret []
        end ;;
      ret (dedup (tokens ++ ethInternal))
  end.

(** [fetchEthereumTransactions()] *)
Definition fetchEthereumTransactions : M (list Transaction.t) :=
  tryCatch fetchEthereumTransactions_body (fun error => ret []).

End Ingestion.

End Blockchain.

(** ** src/app/api/fees/route.ts *)

Module FeesRoute.

Import Blockchain.

(** An entry of [recentTransactions]. *)
Module Recent.
Record t := mk {
  hash : option string;
  timestamp : Js.number;
  tokenSymbol : option string;
  value : option string;
  tokenDecimal : Js.number;
  from : option string;
  to : option string;
  network : string;
  usdValue : Float.double
}.
End Recent.

(** The JSON body of the response. *)
Inductive Payload (FeeData : Type) :=
| Fees (data : FeeData) (recentTransactions : list Recent.t)
    (* { success: true, data, recentTransactions } *)
| Failed (error : string).
    (* { success: false, error } *)
Arguments Fees {FeeData} data recentTransactions.
Arguments Failed {FeeData} error.

(** [NextResponse.json(body, { status, headers })]; the status is 200
    when none is given. *)
Record Response (FeeData : Type) := mkResponse {
  status : Z;
  headers : list (string * string);
  body : Payload FeeData
}.
Arguments mkResponse {FeeData} status headers body.
Arguments status {FeeData} r.
Arguments headers {FeeData} r.
Arguments body {FeeData} r.

Section Handler.

Variable upstream : nat -> string -> Exchange.
Variable ETHERSCAN_API_KEY : option string.

(** The modules [@/lib/aggregate] and [@/lib/prices] are not part of the
    sources: [aggregateFees] and [getMultipleTokenPrices] are taken as
    they come, computations that may do anything to the world and may
    throw, but leave the array they are given as it is; the prices are
    an object from symbols to numbers, as the handler reads them.
    [String.prototype.toUpperCase] is taken as it comes too: its results
    may hold characters outside the strings of this model. *)
Variable FeeData : Type.
Variable aggregateFees : list Transaction.t -> M FeeData.

(** The total that is logged after the aggregation,
    [Object.values(aggregated.currencyBreakdown)
       .reduce((sum, breakdown) => sum + breakdown.totalUSD, 0)]
    and then [grandTotalUSD.toFixed(2)]: it reads the aggregate only, and
    throws when the aggregate has not the fields that it reads.  What it
    prints is console output and is not kept. *)
Variable logTotal : FeeData -> Outcome unit.

Variable getMultipleTokenPrices : list string -> M (gmap string Float.double).
Variable toUpperCase : string -> string.

(** [transactions.forEach(tx => { if (tx.tokenSymbol)
      currencies.add(tx.tokenSymbol.toUpperCase()) })], then
    [Array.from(currencies)]. *)
Definition currencies (transactions : list Transaction.t) : list string :=
  fold_left
    (fun set tx =>
       match Transaction.tokenSymbol tx with
       | Some (String c s) => Js.setAdd set (toUpperCase (String c s))
       | _ => set
       end)
    transactions [].

(** [(a, b) => b.timestamp - a.timestamp] *)
Definition newestFirst (a b : Transaction.t) : Js.number :=
  Js.sub (Transaction.timestamp b) (Transaction.timestamp a).

(** The callback of [.map] that builds an entry.  [tx.value] is a string
    in every transaction that [fetchEthereumTransactions] returns; were
    it [undefined], [BigInt] would throw inside [parseTransactionValue],
    whose [catch] returns 0. *)
Definition entry (prices : gmap string Float.double) (tx : Transaction.t) : Recent.t :=
  let currency :=
    toUpperCase match Transaction.tokenSymbol tx with Some s => s | None => "" end in
  let decimals := Js.orNumber (Transaction.tokenDecimal tx) (Js.Num 18) in
  let value :=
    match Transaction.value tx, decimals with
    | Some v, Js.Num d => parseTransactionValue v d
    | _, _ => Float.Finite 0
    end in
  let price := Float.orZero (prices !! currency) in
  let usdValue := Float.mul value price in
  {| Recent.hash := Transaction.hash tx;
     Recent.timestamp := Transaction.timestamp tx;
     Recent.tokenSymbol := Transaction.tokenSymbol tx;
     Recent.value := Transaction.value tx;
     Recent.tokenDecimal := decimals;
     Recent.from := Transaction.from tx;
     Recent.to := Transaction.to tx;
     Recent.network := Transaction.network tx;
     Recent.usdValue := usdValue |}.

(** [[...transactions].sort(newestFirst).slice(0, 20).map(entry)] *)
Definition recentTransactions (prices : gmap string Float.double)
    (transactions : list Transaction.t) : list Recent.t :=
  map (entry prices) (Js.slice0 20 (Js.sort newestFirst transactions)).

Definition noCache : list (string * string) :=
  [("Cache-Control", "no-store, no-cache, must-revalidate, max-age=0");
   ("Pragma", "no-cache");
   ("Expires", "0")].

(** [GET(request)]; the request is not looked at, and the two dynamic
    imports resolve to the modules of the application. *)
Definition GET : M (Response FeeData) :=
  tryCatch
    (transactions <- fetchEthereumTransactions upstream ETHERSCAN_API_KEY ;;
     aggregated <- aggregateFees transactions ;;
     lift (logTotal aggregated) ;;;
     prices <- getMultipleTokenPrices (currencies transactions) ;;
     ret (mkResponse 200 noCache (Fees aggregated (recentTransactions prices transactions))))
    (fun error => ret (mkResponse 500 [] (Failed "Failed to fetch fee data"))).

End Handler.

End FeesRoute.

(** ** Vocabulary of the statements *)

Module Spec.

Import Blockchain.

Section Phases.

Variable upstream : nat -> string -> Exchange.
Variable k : string.      (* the API key *)
Variable w : World.       (* the world in which fetchEthereumTransactions starts *)

(** The world in which the internal-transfer query starts: after the
    token-transfer query and the pause of one second. *)
Definition beforeInternal : World :=
  snd (sleep 1000 (snd (fetchWithRetry upstream (tokenUrl k) 3 w))).

(** The world in which the fallback retry of the token-transfer query
    starts, when there is one: after the internal-transfer query. *)
Definition beforeRetry : World :=
  snd (fetchWithRetry upstream (internalUrl k) 3 beforeInternal).

End Phases.

(** The error with which an attempt of [fetchWithRetry] that received this
    answer fails; [None] when the attempt returns. *)
Definition failure (o : FetchOutcome) : option Error :=
  match o with
  | NetworkFailure reason => Some (FetchFailed reason)
  | HttpResponse status statusText body =>
      if ok status then
        match body with
        | NotJson | JsonNull => Some JsonError
        | Envelope flag message result =>
            if Js.strictEq flag (Some "0")
               && negb (Js.strictEq message (Some "No transactions found"))
            then Some (EtherscanApiError message
                         match result with
                         | ResultOther s => s
                         | ResultArray _ => None
                         end)
            else None
        end
      else Some (HttpError status statusText)
  end.

(** The world once [fetch(url)] has been answered: one more request, and
    the clock moved by the time the answer took. *)
Definition answered (upstream : nat -> string -> Exchange) (url : string) (w : World)
  : World :=
  mkWorld (API_CACHE w)
          (now w + Z.of_N (latency (upstream (length (requests w)) url)))
          (requests w ++ [url]) (delays w).

(** The sum of a list of delays. *)
Fixpoint sumZ (l : list Z) : Z :=
  match l with
  | [] => 0
  | x :: l' => x + sumZ l'
  end.

(** What a [catch] that returns the empty list makes of an outcome. *)
Definition caught (o : Outcome (list Transaction.t)) : list Transaction.t :=
  match o with
  | Return l => l
  | Throw _ => []
  end.

(** What [fetchEthereumTransactions] returns when one category alone
    contributes: its transactions without duplicates, or nothing when its
    filter threw. *)
Definition deduplicated (o : Outcome (list Transaction.t)) : list Transaction.t :=
  match o with
  | Return l => dedup l
  | Throw _ => []
  end.

(** The outcome of the [try] block of [fetchEthereumTransactions] as a
    function of the outcomes of its three calls of [fetchWithRetry]: the
    token-transfer query, the internal-transfer query, and the fallback
    retry of the token-transfer query (looked at only when the first
    failed). *)
Definition assemble (first second fallback : Outcome (list Raw.t))
  : Outcome (list Transaction.t) :=
  match
    match first with
    | Return records => processTokens records
    | Throw _ =>
        match fallback with
        | Return records => Return (caught (processTokens records))
        | Throw _ => Return []
        end
    end
  with
  | Throw e => Throw e
  | Return tokens =>
      match
        match second with
        | Return records => processInternal records
        | Throw _ => Return []
        end
      with
      | Throw e => Throw e
      | Return ethInternal => Return (dedup (tokens ++ ethInternal))
      end
  end.




(** What holds of every transaction that is returned: its timestamp is NaN
    or at or after the cutoff, it was sent to the tracked contract, and
    its value is a positive integer. *)
Definition retainedInvariant (t : Transaction.t) : Prop :=
  (Transaction.timestamp t = Js.NaN
   \/ exists ms, Transaction.timestamp t = Js.Num ms /\ START_DATE <= ms)
  /\ Js.optLower (Transaction.to t) = Some (Js.toLowerCase GONDI_CONTRACT)
  /\ exists v n, Transaction.value t = Some v /\ Js.BigInt v = Some n /\ 0 < n.

(** The asset contract of the record is, up to case, one of the two
    tracked ones. *)
Definition allowListed (tx : Raw.t) : Prop :=
  exists c a, Raw.contractAddress tx = Some c
              /\ In a [USDC_CONTRACT; WETH_CONTRACT]
              /\ Js.toLowerCase c = Js.toLowerCase a.

(** The record passes the date check and the recipient check, and its
    value is a non-empty string that [BigInt] rejects. *)
Definition reachesMalformedValue (tx : Raw.t) : Prop :=
  Js.lt (Js.parseIntField (Raw.timeStamp tx)) (Js.Num START_TIMESTAMP) = false
  /\ Js.optLower (Raw.to tx) = Some (Js.toLowerCase GONDI_CONTRACT)
  /\ exists v, Raw.value tx = Some v /\ v <> "" /\ Js.BigInt v = None.

(** One of the characters 0 to 9. *)
Definition isDigit (c : ascii) : bool := (48 <=? Js.code c) && (Js.code c <=? 57).

Fixpoint allDigitChars (s : string) : bool :=
  match s with
  | EmptyString => true
  | String c s' => isDigit c && allDigitChars s'
  end.

(** A non-empty string of decimal digits. *)
Definition isDecimal (s : string) : bool :=
  match s with
  | EmptyString => false
  | String _ _ => allDigitChars s
  end.

Fixpoint decimalValueFrom (acc : Z) (s : string) : Z :=
  match s with
  | EmptyString => acc
  | String c s' => decimalValueFrom (10 * acc + (Js.code c - 48)) s'
  end.

(** The integer that a string of decimal digits denotes. *)
Definition decimalValue (s : string) : Z := decimalValueFrom 0 s.

(** [Array.isArray(data.result) ? data.result : []] *)
Definition arrayOrEmpty (result : ResultField) : list Raw.t :=
  match result with
  | ResultArray records => records
  | ResultOther _ => []
  end.

(** The world once an attempt has been answered and has stored [records]
    under [url], stamped with the time of the answer. *)
Definition stored (upstream : nat -> string -> Exchange) (url : string)
    (records : list Raw.t) (w : World) : World :=
  let w1 := answered upstream url w in
  mkWorld (<[url := mkEntry records (now w1)]> (API_CACHE w1))
          (now w1) (requests w1) (delays w1).

(** The answer makes an attempt return [records] and store them: a 2xx
    response with an envelope whose status flag is not "0". *)
Definition delivers (o : FetchOutcome) (records : list Raw.t) : Prop :=
  exists status statusText flag message result,
    o = HttpResponse status statusText (Envelope flag message result)
    /\ ok status = true
    /\ flag <> Some "0"
    /\ records = arrayOrEmpty result.

(** The delays of a call of [fetchWithRetry] that made [n] attempts. *)
Definition waits (n : nat) : list Z := map backoff (seq 0 (n - 1)).

(** [a] is at least as recent as [b]. *)
Definition notOlder (a b : Transaction.t) : Prop :=
  Js.ge (Transaction.timestamp a) (Transaction.timestamp b) = true.

(** The timestamp is a number. *)
Definition dated (t : Transaction.t) : Prop := Transaction.timestamp t <> Js.NaN.

(** The timestamp is [ms]. *)
Definition stampedAt (ms : Z) (t : Transaction.t) : bool :=
  match Transaction.timestamp t with
  | Js.Num z => z =? ms
  | Js.NaN => false
  end.

(** The transaction with another number of decimals. *)
Definition withDecimals (d : Js.number) (tx : Transaction.t) : Transaction.t :=
  {| Transaction.hash := Transaction.hash tx;
     Transaction.timestamp := Transaction.timestamp tx;
     Transaction.value := Transaction.value tx;
     Transaction.tokenSymbol := Transaction.tokenSymbol tx;
     Transaction.tokenDecimal := d;
     Transaction.from := Transaction.from tx;
     Transaction.to := Transaction.to tx;
     Transaction.network := Transaction.network tx;
     Transaction.blockNumber := Transaction.blockNumber tx |}.

End Spec.

(** ** Sample inputs *)

Module Scenario.

Import Blockchain.

(** Two transfers to the tracked contract that carry no date: an empty
    [timeStamp], and none at all. *)
Definition undatedUsdc : Raw.t :=
  {| Raw.hash := Some "0xccc";
     Raw.timeStamp := Some "";
     Raw.value := Some "1000000";
     Raw.from := Some "0x00000000000000000000000000000000000000f1";
     Raw.to := Some GONDI_CONTRACT;
     Raw.contractAddress := Some USDC_CONTRACT;
     Raw.tokenSymbol := Some "USDC";
     Raw.tokenDecimal := Some "6";
     Raw.blockNumber := Some "100" |}.

Definition undatedEth : Raw.t :=
  {| Raw.hash := Some "0xddd";
     Raw.timeStamp := None;
     Raw.value := Some "500";
     Raw.from := Some "0x00000000000000000000000000000000000000f2";
     Raw.to := Some GONDI_CONTRACT;
     Raw.contractAddress := None;
     Raw.tokenSymbol := None;
     Raw.tokenDecimal := None;
     Raw.blockNumber := Some "200" |}.

(** A value that is no integer, on a token transfer to the tracked
    contract. *)
Definition garbledUsdc : Raw.t :=
  {| Raw.hash := Some "0x999";
     Raw.timeStamp := Some "1761100000";
     Raw.value := Some "12.5";
     Raw.from := Some "0x00000000000000000000000000000000000000f1";
     Raw.to := Some GONDI_CONTRACT;
     Raw.contractAddress := Some USDC_CONTRACT;
     Raw.tokenSymbol := Some "USDC";
     Raw.tokenDecimal := Some "6";
     Raw.blockNumber := Some "23630000" |}.

(** Two records of different categories with the same hash and value. *)
Definition abcToken : Raw.t :=
  {| Raw.hash := Some "0xabc";
     Raw.timeStamp := Some "1761300000";
     Raw.value := Some "500";
     Raw.from := Some "0x00000000000000000000000000000000000000f1";
     Raw.to := Some GONDI_CONTRACT;
     Raw.contractAddress := Some WETH_CONTRACT;
     Raw.tokenSymbol := Some "WETHEREUM";
     Raw.tokenDecimal := None;
     Raw.blockNumber := Some "23650000" |}.

Definition abcInternal : Raw.t :=
  {| Raw.hash := Some "0xabc";
     Raw.timeStamp := Some "1761300000";
     Raw.value := Some "500";
     Raw.from := Some "0x00000000000000000000000000000000000000f1";
     Raw.to := Some GONDI_CONTRACT;
     Raw.contractAddress := None;
     Raw.tokenSymbol := None;
     Raw.tokenDecimal := None;
     Raw.blockNumber := None |}.


(** A value that is no integer, on a transfer to another address. *)
Definition strayGarbled : Raw.t :=
  {| Raw.hash := Some "0xeee";
     Raw.timeStamp := Some "1761100000";
     Raw.value := Some "abc";
     Raw.from := Some GONDI_CONTRACT;
     Raw.to := Some "0x00000000000000000000000000000000000000f3";
     Raw.contractAddress := Some USDC_CONTRACT;
     Raw.tokenSymbol := Some "USDC";
     Raw.tokenDecimal := Some "6";
     Raw.blockNumber := Some "23630000" |}.

(** A value that is no integer, on a transfer to the tracked contract. *)
Definition garbledEth : Raw.t :=
  {| Raw.hash := Some "0xfff";
     Raw.timeStamp := Some "1761200000";
     Raw.value := Some "12.5";
     Raw.from := Some "0x00000000000000000000000000000000000000f2";
     Raw.to := Some GONDI_CONTRACT;
     Raw.contractAddress := None;
     Raw.tokenSymbol := None;
     Raw.tokenDecimal := None;
     Raw.blockNumber := Some "23640000" |}.

(** The world before anything happened. *)
Definition freshWorld : World := mkWorld ∅ 0 [] [].

(** The world after [ms] more milliseconds. *)
Definition elapse (ms : N) (w : World) : World :=
  mkWorld (API_CACHE w) (now w + Z.of_N ms) (requests w) (delays w).

Definition found (records : list Raw.t) : FetchOutcome :=
  HttpResponse 200 "OK" (Envelope (Some "1") (Some "OK") (ResultArray records)).

Definition nothingFound : FetchOutcome :=
  HttpResponse 200 "OK" (Envelope (Some "0") (Some "No transactions found") (ResultOther None)).

Definition tooManyRequests : FetchOutcome :=
  HttpResponse 429 "Too Many Requests" NotJson.

Definition sampleKey : string := "SAMPLEKEY".

(** An upstream that answers every request at once, one way for the
    token-transfer query and another way for any other query. *)
Definition serve (tokenAnswer otherAnswer : FetchOutcome) : nat -> string -> Exchange :=
  fun _ url =>
    mkExchange 0 (if String.eqb url (tokenUrl sampleKey) then tokenAnswer else otherAnswer).

(** An upstream that has nothing to report for any request. *)
Definition quietUpstream : nat -> string -> Exchange := serve nothingFound nothingFound.

(** An upstream that answers 429 to the first three requests of the
    process and serves the two queries from then on. *)
Definition recovering (tokenAnswer otherAnswer : FetchOutcome) : nat -> string -> Exchange :=
  fun n url =>
    if (n <? 3)%nat then mkExchange 0 tooManyRequests
    else serve tokenAnswer otherAnswer n url.

Definition usdcTransfer : Raw.t :=
  {| Raw.hash := Some "0xaaa";
     Raw.timeStamp := Some "1761100000";
     Raw.value := Some "1000000";
     Raw.from := Some "0x00000000000000000000000000000000000000f1";
     Raw.to := Some "0x4169447A424EC645F8A24DCCFD8328F714DD5562";
     Raw.contractAddress := Some "0xa0b86991c6218b36c1d19d4a2e9eb0ce3606eb48";
     Raw.tokenSymbol := Some "USDC";
     Raw.tokenDecimal := Some "6";
     Raw.blockNumber := Some "23630000" |}.

Definition ethTransfer : Raw.t :=
  {| Raw.hash := Some "0xbbb";
     Raw.timeStamp := Some "1761200000";
     Raw.value := Some "500";
     Raw.from := Some "0x00000000000000000000000000000000000000f2";
     Raw.to := Some GONDI_CONTRACT;
     Raw.contractAddress := None;
     Raw.tokenSymbol := None;
     Raw.tokenDecimal := None;
     Raw.blockNumber := Some "23640000" |}.

(** A transfer to the tracked contract dated one second before the cutoff,
    with a value that is no integer. *)
Definition staleGarbled : Raw.t :=
  {| Raw.hash := Some "0x777";
     Raw.timeStamp := Some "1761091199";
     Raw.value := Some "abc";
     Raw.from := Some "0x00000000000000000000000000000000000000f1";
     Raw.to := Some GONDI_CONTRACT;
     Raw.contractAddress := Some USDC_CONTRACT;
     Raw.tokenSymbol := Some "USDC";
     Raw.tokenDecimal := Some "6";
     Raw.blockNumber := Some "23629999" |}.

(** An upstream that takes 250 ms to answer, with 429 for the first two
    requests of the process and with one token transfer from then on. *)
Definition recoveringSlowly : nat -> string -> Exchange :=
  fun n url => mkExchange 250 (if (n <? 2)%nat then tooManyRequests else found [usdcTransfer]).

(** Collaborators of the fees endpoint that do nothing: the aggregate is
    the number of transactions, and no currency has a price. *)
Definition countingAggregate : list Transaction.t -> M nat :=
  fun transactions => ret (length transactions).

Definition noPrices : list string -> M (gmap string Float.double) :=
  fun _ => ret ∅.

End Scenario.

(** * Properties *)

Import Blockchain.
Import Spec.
Import Scenario.

(** ** The primitives on sample inputs *)

Example parseInt_decimal : Js.parseInt "1761091200" = Js.Num 1761091200.
Proof. reflexivity. Qed.

Example parseInt_stops_at_first_non_digit : Js.parseInt "  -12abc" = Js.Num (-12).
Proof. reflexivity. Qed.

Example parseInt_hexadecimal : Js.parseInt "0x1F" = Js.Num 31.
Proof. reflexivity. Qed.

Example parseInt_no_digit : Js.parseInt "abc" = Js.NaN.
Proof. reflexivity. Qed.

Example parseInt_undefined : Js.parseIntField None = Js.NaN.
Proof. reflexivity. Qed.

Example BigInt_decimal : Js.BigInt "500" = Some 500.
Proof. reflexivity. Qed.

Example BigInt_trims : Js.BigInt " -7 " = Some (-7).
Proof. reflexivity. Qed.

Example BigInt_hexadecimal : Js.BigInt "0x10" = Some 16.
Proof. reflexivity. Qed.

Example BigInt_trailing_garbage : Js.BigInt "12abc" = None.
Proof. reflexivity. Qed.

Example BigInt_fraction : Js.BigInt "1.5" = None.
Proof. reflexivity. Qed.

Example BigInt_blank : Js.BigInt "  " = Some 0.
Proof. reflexivity. Qed.

Example START_TIMESTAMP_value : START_TIMESTAMP = 1761091200.
Proof. reflexivity. Qed.

Example START_DATE_value : START_DATE = 1761091200000.
Proof. reflexivity. Qed.

Example lowered_addresses :
  Js.toLowerCase GONDI_CONTRACT = GONDI_CONTRACT
  /\ Js.toLowerCase USDC_CONTRACT = "0xa0b86991c6218b36c1d19d4a2e9eb0ce3606eb48"
  /\ Js.toLowerCase WETH_CONTRACT = WETH_CONTRACT.
Proof. repeat split; reflexivity. Qed.

(** ** Running computations *)

(** A [try] whose handler returns normally never throws. *)
Lemma tryCatch_total {A} (m : M A) (h : Error -> M A) w :
  (forall e w1, exists a w2, h e w1 = (Return a, w2)) ->
  exists a w', tryCatch m h w = (Return a, w').
Proof.
  intros Hh. unfold tryCatch.
  destruct (m w) as [[a|e] w1]; [eauto | apply Hh].
Qed.

(** ** The missing credential *)

(** C1, as stated, fails: with the credential unset the call returns the
    empty list; it does not raise. *)
Lemma missing_key_does_not_raise :
  fetchEthereumTransactions quietUpstream None freshWorld = (Return [], freshWorld)
  /\ ~ (exists e w', fetchEthereumTransactions quietUpstream None freshWorld = (Throw e, w')).
Proof.
  split; [reflexivity |].
  intros (e & w' & H). discriminate H.
Qed.

(** C1, amended: with the credential unset (absent, or the empty string)
    the body of [fetchEthereumTransactions] throws the error
    "ETHERSCAN_API_KEY is required but not set" before anything else
    happens; the error is caught at the boundary of
    [fetchEthereumTransactions], which returns the empty list; the world
    is unchanged, so no request was sent to the upstream API. *)
Theorem missing_key_fails_fast_inside_and_returns_empty
    (upstream : nat -> string -> Exchange) (w : World) :
  fetchEthereumTransactions_body upstream None w = (Throw MissingApiKey, w)
  /\ fetchEthereumTransactions_body upstream (Some "") w = (Throw MissingApiKey, w)
  /\ fetchEthereumTransactions upstream None w = (Return [], w)
  /\ fetchEthereumTransactions upstream (Some "") w = (Return [], w)
  /\ requests (snd (fetchEthereumTransactions upstream None w)) = requests w.
Proof. repeat split; reflexivity. Qed.

(** ** The outcome of [fetchEthereumTransactions] from those of its fetches *)

Lemma fetchEthereumTransactions_returns upstream key w :
  exists txs w', fetchEthereumTransactions upstream key w = (Return txs, w').
Proof.
  unfold fetchEthereumTransactions. apply tryCatch_total.
  intros e w1. unfold ret. eauto.
Qed.

Lemma body_outcome upstream k w :
  k <> "" ->
  fst (fetchEthereumTransactions_body upstream (Some k) w) =
  assemble (fst (fetchWithRetry upstream (tokenUrl k) 3 w))
           (fst (fetchWithRetry upstream (internalUrl k) 3 (beforeInternal upstream k w)))
           (fst (fetchWithRetry upstream (tokenUrl k) 3 (beforeRetry upstream k w))).
Proof.
  intros Hk. destruct k as [|c s]; [congruence | clear Hk].
  unfold beforeRetry, beforeInternal.
  unfold fetchEthereumTransactions_body, bind, allSettled, tryCatch, lift, ret, sleep.
  destruct (fetchWithRetry upstream (tokenUrl (String c s)) 3 w) as [[T|e1] w1];
    cbn [fst snd];
    destruct (fetchWithRetry upstream (internalUrl (String c s)) 3 _) as [[R|e2] w3];
    cbn [fst snd]; unfold assemble.
  - destruct (processTokens T); [destruct (processInternal R) |]; reflexivity.
  - destruct (processTokens T); reflexivity.
  - destruct (fetchWithRetry upstream (tokenUrl (String c s)) 3 w3) as [[T'|?] w4];
      cbn [fst snd caught]; [destruct (processTokens T') |];
      destruct (processInternal R); reflexivity.
  - destruct (fetchWithRetry upstream (tokenUrl (String c s)) 3 w3) as [[T'|?] w4];
      cbn [fst snd caught]; [destruct (processTokens T') |]; reflexivity.
Qed.

Lemma fetchEthereumTransactions_outcome upstream k w :
  k <> "" ->
  fst (fetchEthereumTransactions upstream (Some k) w) =
  Return (caught
    (assemble (fst (fetchWithRetry upstream (tokenUrl k) 3 w))
       (fst (fetchWithRetry upstream (internalUrl k) 3 (beforeInternal upstream k w)))
       (fst (fetchWithRetry upstream (tokenUrl k) 3 (beforeRetry upstream k w))))).
Proof.
  intros Hk. rewrite <- (body_outcome upstream k w Hk).
  unfold fetchEthereumTransactions, tryCatch, ret.
  destruct (fetchEthereumTransactions_body upstream (Some k) w) as [[l|e] w']; reflexivity.
Qed.

(** ** Failures stay inside *)

(** C5: [fetchEthereumTransactions] never throws: whatever the upstream
    answers, whatever the key and the world, it returns a list.  When the
    token-transfer query fails for good (first call and fallback retry)
    and the internal-transfer query succeeds, the result is made of the
    internal transfers, exactly as if the token-transfer category had
    been empty: those that pass the filter, without duplicates; when the
    internal-transfer query fails and the token-transfer query succeeds
    (at once, or in the fallback retry), the result is made in the same
    way of the token transfers; when every query fails, the result is the
    empty list. *)
Theorem fetchEthereumTransactions_never_throws
    (upstream : nat -> string -> Exchange) (key : option string) (w : World) :
  (exists txs w', fetchEthereumTransactions upstream key w = (Return txs, w'))
  /\ (forall k first second fallback,
        key = Some k -> k <> "" ->
        fst (fetchWithRetry upstream (tokenUrl k) 3 w) = first ->
        fst (fetchWithRetry upstream (internalUrl k) 3 (beforeInternal upstream k w)) = second ->
        fst (fetchWithRetry upstream (tokenUrl k) 3 (beforeRetry upstream k w)) = fallback ->
        let result := fst (fetchEthereumTransactions upstream key w) in
        (forall e e' R, first = Throw e -> fallback = Throw e' -> second = Return R ->
           result = Return (deduplicated (processInternal R)))
        /\ (forall T e, first = Return T -> second = Throw e ->
           result = Return (deduplicated (processTokens T)))
        /\ (forall e T e', first = Throw e -> fallback = Return T -> second = Throw e' ->
           result = Return (deduplicated (processTokens T)))
        /\ (forall e e' e'', first = Throw e -> fallback = Throw e' -> second = Throw e'' ->
           result = Return [])).
Proof.
  split; [apply fetchEthereumTransactions_returns |].
  intros k first second fallback -> Hk H1 H2 H3 result.
  subst result. rewrite (fetchEthereumTransactions_outcome upstream k w Hk), H1, H2, H3.
  clear H1 H2 H3.
  repeat split; intros; subst; unfold assemble, caught, deduplicated.
  - destruct (processInternal _); reflexivity.
  - destruct (processTokens _); [rewrite app_nil_r |]; reflexivity.
  - destruct (processTokens _); cbn; rewrite ?app_nil_r; reflexivity.
  - reflexivity.
Qed.

(** The token-transfer query is answered 429 every time, the
    internal-transfer query returns one transfer: that transfer is the
    result. *)
Lemma internal_survives_token_failure :
  fst (fetchEthereumTransactions (serve tooManyRequests (found [ethTransfer]))
         (Some sampleKey) freshWorld)
  = Return [internalMap ethTransfer].
Proof.
  pose proof (proj2 (fetchEthereumTransactions_never_throws
                (serve tooManyRequests (found [ethTransfer])) (Some sampleKey) freshWorld)
                sampleKey _ _ _ eq_refl ltac:(discriminate) eq_refl eq_refl eq_refl) as H.
  cbv zeta in H. destruct H as [H _].
  rewrite (H (HttpError 429 "Too Many Requests") (HttpError 429 "Too Many Requests")
             [ethTransfer]).
  - reflexivity.
  - vm_compute. reflexivity.
  - vm_compute. reflexivity.
  - vm_compute. reflexivity.
Defined.

(** ** The category filters *)

Arguments Js.toLowerCase : simpl never.

Lemma strictEq_true a b : Js.strictEq a b = true <-> a = b.
Proof. unfold Js.strictEq. apply bool_decide_eq_true. Qed.

Lemma timestamp_after_cutoff ts :
  Js.lt ts (Js.Num START_TIMESTAMP) = false ->
  Js.mul ts (Js.Num 1000) = Js.NaN
  \/ exists ms, Js.mul ts (Js.Num 1000) = Js.Num ms /\ START_DATE <= ms.
Proof.
  destruct ts as [|z]; cbn; [now left |].
  intros H. right. exists (z * 1000). split; [reflexivity |].
  apply Z.ltb_ge in H. change START_DATE with (START_TIMESTAMP * 1000). lia.
Qed.

Lemma internalFilter_true tx :
  internalFilter tx = Return true ->
  Js.lt (Js.parseIntField (Raw.timeStamp tx)) (Js.Num START_TIMESTAMP) = false
  /\ Js.optLower (Raw.to tx) = Some (Js.toLowerCase GONDI_CONTRACT)
  /\ exists v n, Raw.value tx = Some v /\ Js.BigInt v = Some n /\ 0 < n.
Proof.
  unfold internalFilter.
  destruct (Js.lt _ _) eqn:Hts; [discriminate |].
  destruct (Js.strictEq _ _) eqn:Hto; cbn [negb]; [| discriminate].
  apply strictEq_true in Hto.
  destruct (Raw.value tx) as [[|c v]|] eqn:Hv; try discriminate.
  destruct (Js.BigInt _) as [n|] eqn:Hn; [| discriminate].
  intros [= Hpos]. apply Z.ltb_lt in Hpos. eauto 10.
Qed.

Lemma allowListed_spec tx :
  Js.strictEq (Js.optLower (Raw.contractAddress tx)) (Some (Js.toLowerCase USDC_CONTRACT))
  || Js.strictEq (Js.optLower (Raw.contractAddress tx)) (Some (Js.toLowerCase WETH_CONTRACT))
  = true <-> allowListed tx.
Proof.
  unfold allowListed. rewrite orb_true_iff, !strictEq_true. split.
  - destruct (Raw.contractAddress tx) as [c|]; cbn [Js.optLower fmap option_fmap option_map].
    + intros [[= H]|[= H]]; exists c;
        [exists USDC_CONTRACT | exists WETH_CONTRACT]; cbn [In]; auto.
    + intros [H|H]; discriminate H.
  - intros (c & a & -> & Hin & Hc). cbn [Js.optLower fmap option_fmap option_map].
    rewrite Hc. destruct Hin as [<- | [<- | []]]; auto.
Qed.

Lemma tokenFilter_true tx :
  tokenFilter tx = Return true ->
  internalFilter tx = Return true /\ allowListed tx.
Proof.
  unfold tokenFilter, internalFilter.
  destruct (Js.lt _ _) eqn:Hts; [discriminate |].
  destruct (Js.strictEq (Js.optLower (Raw.to tx)) _) eqn:Hto; cbn [negb]; [| discriminate].
  destruct (Raw.value tx) as [[|c v]|] eqn:Hv; try discriminate.
  destruct (Js.BigInt _) as [n|] eqn:Hn; [| discriminate].
  destruct (n <=? 0) eqn:Hpos; [discriminate |].
  apply Z.leb_gt in Hpos. intros [= Hor]. split.
  - f_equal. now apply Z.ltb_lt.
  - now apply allowListed_spec.
Qed.

Lemma filterThrowing_kept {A} (p : A -> Outcome bool) l kept x :
  filterThrowing p l = Return kept -> In x kept -> In x l /\ p x = Return true.
Proof.
  revert kept. induction l as [|y l IH]; cbn; intros kept H Hin.
  - injection H as <-. destruct Hin.
  - destruct (p y) as [b|] eqn:Hy; [| discriminate].
    destruct (filterThrowing p l) as [kept'|]; [| discriminate].
    injection H as <-. destruct b.
    + destruct Hin as [<- | Hin]; [auto |]. destruct (IH _ eq_refl Hin). auto.
    + destruct (IH _ eq_refl Hin). auto.
Qed.

Lemma filterThrowing_throws {A} (p : A -> Outcome bool) l x e :
  In x l -> p x = Throw e -> exists e', filterThrowing p l = Throw e'.
Proof.
  induction l as [|y l IH]; cbn; intros Hin Hx; [destruct Hin |].
  destruct (p y) as [b|e1] eqn:Hy; [| eauto].
  destruct Hin as [-> | Hin]; [congruence |].
  destruct (IH Hin Hx) as [e' ->]. eauto.
Qed.

Lemma internalMap_invariant tx :
  internalFilter tx = Return true -> retainedInvariant (internalMap tx).
Proof.
  intros H. apply internalFilter_true in H as (Hts & Hto & Hv).
  unfold retainedInvariant. cbn. auto using timestamp_after_cutoff.
Qed.

Lemma tokenMap_invariant tx :
  tokenFilter tx = Return true -> retainedInvariant (tokenMap tx).
Proof.
  intros H. apply tokenFilter_true in H as [H _].
  apply internalFilter_true in H as (Hts & Hto & Hv).
  unfold retainedInvariant. cbn. auto using timestamp_after_cutoff.
Qed.

Lemma processTokens_invariant records l t :
  processTokens records = Return l -> In t l -> retainedInvariant t.
Proof.
  unfold processTokens. destruct (filterThrowing _ _) as [kept|] eqn:Hk; [| discriminate].
  intros [= <-] Hin. apply in_map_iff in Hin as (tx & <- & Hin).
  apply tokenMap_invariant. eapply filterThrowing_kept; eauto.
Qed.

Lemma processInternal_invariant records l t :
  processInternal records = Return l -> In t l -> retainedInvariant t.
Proof.
  unfold processInternal. destruct (filterThrowing _ _) as [kept|] eqn:Hk; [| discriminate].
  intros [= <-] Hin. apply in_map_iff in Hin as (tx & <- & Hin).
  apply internalMap_invariant. eapply filterThrowing_kept; eauto.
Qed.

Lemma filterFrom_In {A} (p : A -> nat -> bool) i l x :
  In x (Js.filterFrom p i l) -> In x l.
Proof.
  revert i. induction l as [|y l IH]; cbn; intros i H; [assumption |].
  destruct (p y i); [destruct H as [H|H] |]; eauto.
Qed.

Lemma dedup_In l x : In x (dedup l) -> In x l.
Proof. apply filterFrom_In. Qed.

Lemma assemble_invariant first second fallback l t :
  assemble first second fallback = Return l -> In t l -> retainedInvariant t.
Proof.
  unfold assemble.
  destruct (match first with Return _ => _ | Throw _ => _ end) as [tokens|] eqn:Htok;
    [| discriminate].
  destruct (match second with Return _ => _ | Throw _ => _ end) as [eth|] eqn:Heth;
    [| discriminate].
  intros [= <-] Hin. apply dedup_In in Hin. apply in_app_iff in Hin as [Hin|Hin].
  - destruct first as [T|]; [eauto using processTokens_invariant |].
    destruct fallback as [T|]; injection Htok as <-; [| destruct Hin].
    unfold caught in Hin. destruct (processTokens T) eqn:HT; [| destruct Hin].
    eauto using processTokens_invariant.
  - destruct second as [R|]; [eauto using processInternal_invariant |].
    injection Heth as <-. destruct Hin.
Qed.

(** Every transaction returned by [fetchEthereumTransactions] was sent to
    the tracked contract and carries a positive value; its timestamp is at
    or after the cutoff unless it is NaN. *)
Lemma retained_transactions_invariant upstream key w t :
  In t (caught (fst (fetchEthereumTransactions upstream key w))) -> retainedInvariant t.
Proof.
  destruct key as [[|c s]|]; try (cbn; tauto).
  rewrite fetchEthereumTransactions_outcome by discriminate.
  cbn [caught]. destruct (assemble _ _ _) eqn:H; cbn [caught In]; [| tauto].
  eauto using assemble_invariant.
Qed.

(** C2, at an input where it fails: a record whose [timeStamp] holds no
    number ([parseInt] gives NaN, and [NaN < START_TIMESTAMP] is false)
    passes the date check in both categories; the transaction that is
    returned has the timestamp NaN, which is not at or after the cutoff. *)
Theorem undated_records_survive_normalization :
  fst (fetchEthereumTransactions (serve (found [undatedUsdc]) (found [undatedEth]))
         (Some sampleKey) freshWorld)
  = Return [tokenMap undatedUsdc; internalMap undatedEth]
  /\ Transaction.timestamp (tokenMap undatedUsdc) = Js.NaN
  /\ Transaction.timestamp (internalMap undatedEth) = Js.NaN
  /\ Js.ge (Transaction.timestamp (tokenMap undatedUsdc)) (Js.Num START_DATE) = false
  /\ Js.ge (Transaction.timestamp (internalMap undatedEth)) (Js.Num START_DATE) = false.
Proof. repeat split; vm_compute; reflexivity. Qed.

(** C8: a token-transfer record that passes the three shared checks (the
    date check, the recipient check, a positive value), which are the
    checks of the internal-transfer filter, is kept by the token-transfer
    filter if and only if its [contractAddress] equals, up to case, one of
    the two tracked asset contracts, USDC or WETH; with any other asset
    contract, or none, it is rejected. *)
Theorem token_filter_allow_list (tx : Raw.t) (v : string) (n : Z) :
  Js.lt (Js.parseIntField (Raw.timeStamp tx)) (Js.Num START_TIMESTAMP) = false ->
  Js.optLower (Raw.to tx) = Some (Js.toLowerCase GONDI_CONTRACT) ->
  Raw.value tx = Some v -> Js.BigInt v = Some n -> 0 < n ->
  internalFilter tx = Return true
  /\ (tokenFilter tx = Return true <-> allowListed tx)
  /\ (tokenFilter tx = Return false <-> ~ allowListed tx)
  /\ USDC_CONTRACT <> WETH_CONTRACT.
Proof.
  intros Hts Hto Hv Hn Hpos.
  assert (Hne : v <> "") by (intros ->; vm_compute in Hn; injection Hn as <-; lia).
  assert (Hto' : Js.strictEq (Js.optLower (Raw.to tx))
                   (Some (Js.toLowerCase GONDI_CONTRACT)) = true)
    by now apply strictEq_true.
  split; [| split; [| split]].
  - unfold internalFilter. rewrite Hts, Hto', Hv, Hn. cbn [negb].
    destruct v; [congruence |]. f_equal. now apply Z.ltb_lt.
  - unfold tokenFilter. rewrite Hts, Hto', Hv, Hn. cbn [negb].
    destruct v; [congruence |].
    replace (n <=? 0) with false by (symmetry; apply Z.leb_gt; lia).
    rewrite <- allowListed_spec. split; [now intros [= ->] | now intros ->].
  - unfold tokenFilter. rewrite Hts, Hto', Hv, Hn. cbn [negb].
    destruct v; [congruence |].
    replace (n <=? 0) with false by (symmetry; apply Z.leb_gt; lia).
    rewrite <- allowListed_spec. split.
    + intros [= ->]. discriminate.
    + intros H. f_equal. now apply not_true_is_false.
  - discriminate.
Qed.

Lemma usdc_transfer_is_retained :
  tokenFilter usdcTransfer = Return true /\ allowListed usdcTransfer.
Proof.
  pose proof (token_filter_allow_list usdcTransfer "1000000" 1000000
                eq_refl eq_refl eq_refl eq_refl eq_refl) as (_ & H & _).
  assert (Ha : allowListed usdcTransfer).
  { exists "0xa0b86991c6218b36c1d19d4a2e9eb0ce3606eb48", USDC_CONTRACT.
    repeat split; [now left]. }
  split; [apply H, Ha | exact Ha].
Defined.

(** ** A value that [BigInt] rejects *)

Lemma reachesMalformedValue_throws tx :
  reachesMalformedValue tx ->
  (exists e, tokenFilter tx = Throw e) /\ (exists e, internalFilter tx = Throw e).
Proof.
  intros (Hts & Hto & v & Hv & Hne & Hn).
  apply strictEq_true in Hto.
  unfold tokenFilter, internalFilter. rewrite Hts, Hto, Hv, Hn. cbn [negb].
  destruct v; [congruence | eauto].
Qed.

(** The filters throw on no other record. *)
Lemma throwing_filter_reaches_malformed_value tx e :
  tokenFilter tx = Throw e \/ internalFilter tx = Throw e -> reachesMalformedValue tx.
Proof.
  unfold tokenFilter, internalFilter, reachesMalformedValue.
  destruct (Js.lt _ _); [intros [H|H]; discriminate H |].
  destruct (Js.strictEq _ _) eqn:Hto; cbn [negb]; [| intros [H|H]; discriminate H].
  apply strictEq_true in Hto.
  destruct (Raw.value tx) as [[|c v]|]; try (intros [H|H]; discriminate H).
  destruct (Js.BigInt _) eqn:Hn.
  - destruct (_ <=? _); intros [H|H]; discriminate H.
  - intros _. repeat split; auto. exists (String c v). repeat split; auto; discriminate.
Qed.

(** C9, as stated, fails, in two ways.  First: the token-transfer query
    succeeds and one of its records has the value "abc", which [BigInt]
    rejects; the record is a transfer to another address, so the filter
    drops it at the recipient check and never converts its value; nothing
    is thrown and the other transactions of both categories are returned.
    Second: the token-transfer query fails three times and succeeds in the
    fallback retry with a record whose value "12.5" makes [BigInt] throw
    inside the filter; the exception is caught by the inner [try] of the
    fallback, not by the outer one, and the internal transfers are
    returned. *)
Lemma malformed_value_can_go_unnoticed :
  (let upstream := serve (found [strayGarbled; usdcTransfer]) (found [ethTransfer]) in
   fst (fetchWithRetry upstream (tokenUrl sampleKey) 3 freshWorld)
     = Return [strayGarbled; usdcTransfer]
   /\ Raw.value strayGarbled = Some "abc"
   /\ Js.BigInt "abc" = None
   /\ fst (fetchEthereumTransactions upstream (Some sampleKey) freshWorld)
      = Return [tokenMap usdcTransfer; internalMap ethTransfer]
   /\ fst (fetchEthereumTransactions upstream (Some sampleKey) freshWorld) <> Return [])
  /\ (let upstream := recovering (found [garbledUsdc]) (found [ethTransfer]) in
      fst (fetchWithRetry upstream (tokenUrl sampleKey) 3
             (beforeRetry upstream sampleKey freshWorld))
        = Return [garbledUsdc]
      /\ tokenFilter garbledUsdc = Throw (BigIntSyntaxError "12.5")
      /\ fst (fetchEthereumTransactions upstream (Some sampleKey) freshWorld)
         = Return [internalMap ethTransfer]
      /\ fst (fetchEthereumTransactions upstream (Some sampleKey) freshWorld) <> Return []).
Proof.
  cbv zeta. repeat split; try (vm_compute; reflexivity); vm_compute; discriminate.
Qed.

(** C9, amended: if a record of a category whose query succeeded (for the
    token-transfer category: in its first call, not in the fallback retry)
    passes the date check and the recipient check and has a non-empty
    value that [BigInt] rejects, then [fetchEthereumTransactions] returns
    the empty list, whatever the other records and the other category
    hold. *)
Theorem malformed_value_empties_result
    (upstream : nat -> string -> Exchange) (k : string) (w : World) (tx : Raw.t) :
  k <> "" ->
  reachesMalformedValue tx ->
  (exists records,
      fst (fetchWithRetry upstream (tokenUrl k) 3 w) = Return records /\ In tx records)
  \/ (exists records,
      fst (fetchWithRetry upstream (internalUrl k) 3 (beforeInternal upstream k w))
        = Return records /\ In tx records) ->
  fst (fetchEthereumTransactions upstream (Some k) w) = Return [].
Proof.
  intros Hk Htx H. rewrite (fetchEthereumTransactions_outcome upstream k w Hk).
  apply reachesMalformedValue_throws in Htx as [[e1 Ht] [e2 Hi]].
  f_equal. unfold assemble.
  destruct H as [(T & -> & Hin) | (R & -> & Hin)].
  - unfold processTokens.
    destruct (filterThrowing_throws tokenFilter T tx e1 Hin Ht) as [e' ->]. reflexivity.
  - unfold processInternal at 1.
    destruct (filterThrowing_throws internalFilter R tx e2 Hin Hi) as [e' ->].
    destruct (match fst (fetchWithRetry upstream (tokenUrl k) 3 w) with
              | Return _ => _ | Throw _ => _ end); reflexivity.
Qed.

Lemma garbled_internal_record_empties_result :
  fst (fetchEthereumTransactions
         (serve (found [usdcTransfer]) (found [ethTransfer; garbledEth]))
         (Some sampleKey) freshWorld) = Return [].
Proof.
  apply (malformed_value_empties_result _ sampleKey freshWorld garbledEth).
  - discriminate.
  - repeat split. exists "12.5". repeat split. discriminate.
  - right. exists [ethTransfer; garbledEth]. split; [vm_compute; reflexivity |].
    right. left. reflexivity.
Defined.

(** In the fallback retry the exception stays inside the inner [try]: the
    token transfers are lost, the internal transfers are returned. *)
Lemma fallback_swallows_malformed_value upstream k w e T R tx :
  k <> "" ->
  fst (fetchWithRetry upstream (tokenUrl k) 3 w) = Throw e ->
  fst (fetchWithRetry upstream (tokenUrl k) 3 (beforeRetry upstream k w)) = Return T ->
  fst (fetchWithRetry upstream (internalUrl k) 3 (beforeInternal upstream k w)) = Return R ->
  In tx T -> reachesMalformedValue tx ->
  fst (fetchEthereumTransactions upstream (Some k) w)
  = Return (deduplicated (processInternal R)).
Proof.
  intros Hk H1 H3 H2 Hin Htx.
  rewrite (fetchEthereumTransactions_outcome upstream k w Hk), H1, H2, H3.
  apply reachesMalformedValue_throws in Htx as [[e1 Ht] _].
  unfold assemble, processTokens at 1.
  destruct (filterThrowing_throws tokenFilter T tx e1 Hin Ht) as [e' ->].
  cbn [caught app]. destruct (processInternal R); reflexivity.
Qed.

(** ** Deduplication *)






















(** ** [fetchWithRetry] *)

Lemma attempt_failure upstream url w e :
  failure (outcome (upstream (length (requests w)) url)) = Some e ->
  attempt upstream url w = (Throw e, answered upstream url w).
Proof.
  unfold failure, attempt, bind, fetch, answered, throw. cbn.
  destruct (outcome _) as [reason | status statusText body].
  - now intros [= <-].
  - destruct (ok status); cbn [negb].
    + destruct body as [| | flag message result]; try (now intros [= <-]).
      destruct (Js.strictEq flag _); cbn [andb negb]; [| discriminate].
      destruct (Js.strictEq message _); cbn [negb]; [discriminate |].
      now intros [= <-].
    + now intros [= <-].
Qed.

(** An attempt throws in no other case. *)
Lemma attempt_returns upstream url w :
  failure (outcome (upstream (length (requests w)) url)) = None ->
  exists records w', attempt upstream url w = (Return records, w').
Proof.
  unfold failure, attempt, bind, fetch, ret, throw, setCachedData. cbn.
  destruct (outcome _) as [reason | status statusText body]; [discriminate |].
  destruct (ok status); cbn [negb]; [| discriminate].
  destruct body as [| | flag message result]; try discriminate.
  destruct (Js.strictEq flag _); cbn [andb negb]; [| eauto].
  destruct (Js.strictEq message _); cbn [negb]; [eauto | discriminate].
Qed.

Lemma attempt_nothing_found upstream url w status statusText result :
  outcome (upstream (length (requests w)) url)
  = HttpResponse status statusText
      (Envelope (Some "0") (Some "No transactions found") result) ->
  ok status = true ->
  attempt upstream url w = (Return [], answered upstream url w).
Proof.
  intros Ho Hok. unfold attempt, bind, fetch, answered, ret. cbn. rewrite Ho, Hok.
  reflexivity.
Qed.

(** The cache after one attempt. *)
Lemma attempt_cache upstream url w :
  API_CACHE (snd (attempt upstream url w)) =
  match outcome (upstream (length (requests w)) url) with
  | HttpResponse status _ (Envelope flag _ result) =>
      if ok status && negb (Js.strictEq flag (Some "0")) then
        <[url := mkEntry
                   match result with
                   | ResultArray records => records
                   | ResultOther _ => []
                   end
                   (now (answered upstream url w))]> (API_CACHE w)
      else API_CACHE w
  | _ => API_CACHE w
  end.
Proof.
  unfold attempt, bind, fetch, answered, ret, throw, setCachedData. cbn.
  destruct (outcome _) as [reason | status statusText body]; [reflexivity |].
  destruct (ok status); cbn [negb andb]; [| destruct body; reflexivity].
  destruct body as [| | flag message result]; try reflexivity.
  destruct (Js.strictEq flag _); cbn [negb]; [| reflexivity].
  destruct (Js.strictEq message _); reflexivity.
Qed.

Lemma backoff_nonneg i : 0 <= backoff i.
Proof.
  unfold backoff. apply Z.min_glb; [lia |].
  apply Z.mul_nonneg_nonneg; [lia |]. apply Z.pow_nonneg. lia.
Qed.

(** When every attempt fails, the loop makes all its attempts, sleeps
    [backoff i] after the failed attempt [i] unless it was the last, and
    throws the error of the last attempt. *)
Lemma retryLoop_all_fail upstream url retries m :
  forall i w,
    (i + S m = retries)%nat ->
    (forall n, (n <= m)%nat ->
       failure (outcome (upstream (length (requests w) + n)%nat url)) <> None) ->
    exists e w',
      retryLoop upstream url retries i (S m) w = (Throw e, w')
      /\ failure (outcome (upstream (length (requests w) + m)%nat url)) = Some e
      /\ requests w' = (requests w ++ repeat url (S m))%list
      /\ delays w' = (delays w ++ map backoff (seq i m))%list
      /\ API_CACHE w' = API_CACHE w
      /\ now w + sumZ (map backoff (seq i m)) <= now w'.
Proof.
  induction m as [|m IH]; intros i w Hi Hfail.
  - destruct (failure (outcome (upstream (length (requests w)) url))) as [e|] eqn:He.
    2:{ exfalso. apply (Hfail 0%nat); [lia |]. now rewrite Nat.add_0_r. }
    exists e, (answered upstream url w).
    cbn [retryLoop]. unfold tryCatch. rewrite (attempt_failure _ _ _ _ He).
    replace (Nat.eqb i (retries - 1)) with true by (symmetry; apply Nat.eqb_eq; lia).
    rewrite Nat.add_0_r. cbn. rewrite app_nil_r. repeat split; auto. lia.
  - destruct (failure (outcome (upstream (length (requests w)) url))) as [e0|] eqn:He.
    2:{ exfalso. apply (Hfail 0%nat); [lia |]. now rewrite Nat.add_0_r. }
    set (w1 := snd (sleep (backoff i) (answered upstream url w))).
    destruct (IH (S i) w1) as (e & w' & Hrun & He' & Hreq & Hdel & Hcache & Hnow).
    + lia.
    + intros n Hn. specialize (Hfail (S n) ltac:(lia)).
      subst w1. cbn. rewrite length_app. cbn.
      now replace (length (requests w) + 1 + n)%nat with (length (requests w) + S n)%nat by lia.
    + exists e, w'. split.
      * change (retryLoop upstream url retries i (S (S m)) w)
          with (tryCatch (attempt upstream url)
                  (fun error => if Nat.eqb i (retries - 1) then throw error
                                else bind (sleep (backoff i))
                                       (fun _ => retryLoop upstream url retries (S i) (S m))) w).
        unfold tryCatch. rewrite (attempt_failure _ _ _ _ He).
        replace (Nat.eqb i (retries - 1)) with false by (symmetry; apply Nat.eqb_neq; lia).
        unfold bind. cbn [sleep]. exact Hrun.
      * subst w1. cbn in *. rewrite length_app in He'. cbn in He'.
        replace (length (requests w) + 1 + m)%nat with (length (requests w) + S m)%nat in He' by lia.
        repeat split; auto.
        -- rewrite Hreq, <- app_assoc. reflexivity.
        -- rewrite Hdel, <- app_assoc. reflexivity.
        -- pose proof (N2Z.is_nonneg (latency (upstream (length (requests w)) url))). lia.
Qed.

(** C6: for a URL that is not served from the cache and on which every
    attempt fails (a failed connection, a status outside 2xx such as 429,
    a body that is not JSON, an error envelope), [fetchWithRetry] with the
    default budget of 3 sends exactly 3 requests, sleeps
    [min(5000, 1000 * 2^i)] milliseconds after the failed attempt [i] for
    [i = 0, 1], that is 1000 and then 2000, so that at least 3000
    milliseconds pass before the final failure, and then throws the error
    of the third attempt instead of retrying further. *)
Theorem fetchWithRetry_gives_up_after_three_attempts
    (upstream : nat -> string -> Exchange) (url : string) (w : World) :
  getCachedData url w = None ->
  (forall n, (n < 3)%nat ->
     failure (outcome (upstream (length (requests w) + n)%nat url)) <> None) ->
  exists e w',
    fetchWithRetry upstream url 3 w = (Throw e, w')
    /\ failure (outcome (upstream (length (requests w) + 2)%nat url)) = Some e
    /\ requests w' = (requests w ++ [url; url; url])%list
    /\ delays w' = (delays w ++ [backoff 0; backoff 1])%list
    /\ backoff 0 = 1000 /\ backoff 1 = 2000
    /\ (forall i, backoff i = Z.min 5000 (1000 * 2 ^ Z.of_nat i))
    /\ now w + (1000 + 2000) <= now w'.
Proof.
  intros Hmiss Hfail.
  destruct (retryLoop_all_fail upstream url 3 2 0%nat w eq_refl)
    as (e & w' & Hrun & He & Hreq & Hdel & _ & Hnow).
  { intros n Hn. apply Hfail. lia. }
  exists e, w'. unfold fetchWithRetry. rewrite Hmiss.
  repeat split; auto.
Qed.

(** The upstream answers 429 every time. *)
Lemma three_429_answers_exhaust_the_budget :
  exists w',
    fetchWithRetry (serve tooManyRequests tooManyRequests) (tokenUrl sampleKey) 3 freshWorld
    = (Throw (HttpError 429 "Too Many Requests"), w')
    /\ length (requests w') = 3%nat
    /\ delays w' = [1000; 2000].
Proof.
  destruct (fetchWithRetry_gives_up_after_three_attempts
              (serve tooManyRequests tooManyRequests) (tokenUrl sampleKey) freshWorld)
    as (e & w' & Hrun & He & Hreq & Hdel & _).
  - reflexivity.
  - intros n _. vm_compute. discriminate.
  - exists w'. vm_compute in He. injection He as <-.
    rewrite Hreq, Hdel. repeat split. exact Hrun.
Defined.

(** The loop only adds requests, and it sends one as soon as it has an
    attempt to make. *)
Lemma retryLoop_requests upstream url retries remaining :
  forall i w, exists more,
    requests (snd (retryLoop upstream url retries i remaining w))
    = (requests w ++ match remaining with O => [] | S _ => url :: more end)%list.
Proof.
  induction remaining as [|m IH]; intros i w.
  - exists []. cbn. now rewrite app_nil_r.
  - change (retryLoop upstream url retries i (S m) w)
      with (tryCatch (attempt upstream url)
              (fun error => if Nat.eqb i (retries - 1) then throw error
                            else bind (sleep (backoff i))
                                   (fun _ => retryLoop upstream url retries (S i) m)) w).
    unfold tryCatch.
    assert (Hatt : requests (snd (attempt upstream url w)) = (requests w ++ [url])%list).
    { unfold attempt, bind, fetch, ret, throw, setCachedData. cbn.
      destruct (outcome _) as [|status ? body]; [reflexivity |].
      destruct (ok status); cbn [negb]; [| reflexivity].
      destruct body as [| | flag message ?]; try reflexivity.
      destruct (Js.strictEq flag _); [destruct (Js.strictEq message _) |]; reflexivity. }
    destruct (attempt upstream url w) as [[l|e] w1]; cbn [snd] in *.
    + exists []. exact Hatt.
    + destruct (Nat.eqb i (retries - 1)).
      * exists []. exact Hatt.
      * unfold bind. cbn [sleep].
        destruct (IH (S i) (mkWorld (API_CACHE w1) (now w1 + backoff i) (requests w1)
                              (delays w1 ++ [backoff i])%list)) as [more Hmore].
        rewrite Hmore. cbn [requests]. rewrite Hatt, <- app_assoc.
        eexists. reflexivity.
Qed.

Lemma retryLoop_nothing_found upstream url w status statusText result retries i remaining :
  outcome (upstream (length (requests w)) url)
  = HttpResponse status statusText
      (Envelope (Some "0") (Some "No transactions found") result) ->
  ok status = true ->
  retryLoop upstream url retries i (S remaining) w = (Return [], answered upstream url w).
Proof.
  intros Ho Hok. cbn [retryLoop]. unfold tryCatch.
  now rewrite (attempt_nothing_found _ _ _ _ _ _ Ho Hok).
Qed.

(** C7: when the answer to an attempt is a 2xx response whose envelope has
    the status flag "0" and the message "No transactions found", the
    attempt returns the empty list, at whichever iteration of the loop it
    is made, and so does [fetchWithRetry] when the URL is not served from
    the cache; nothing is thrown, and the only effect is the one request:
    no delay is awaited (no retry is made) and the cache is untouched. *)
Theorem no_transactions_found_is_not_an_error
    (upstream : nat -> string -> Exchange) (url : string) (w : World)
    (status : Z) (statusText : string) (result : ResultField) :
  outcome (upstream (length (requests w)) url)
  = HttpResponse status statusText
      (Envelope (Some "0") (Some "No transactions found") result) ->
  ok status = true ->
  (forall retries i remaining,
      retryLoop upstream url retries i (S remaining) w
      = (Return [], answered upstream url w))
  /\ (forall retries,
      getCachedData url w = None ->
      fetchWithRetry upstream url (S retries) w = (Return [], answered upstream url w))
  /\ requests (answered upstream url w) = (requests w ++ [url])%list
  /\ delays (answered upstream url w) = delays w
  /\ API_CACHE (answered upstream url w) = API_CACHE w.
Proof.
  intros Ho Hok.
  repeat split; eauto using retryLoop_nothing_found.
  intros retries Hmiss. unfold fetchWithRetry. rewrite Hmiss.
  eauto using retryLoop_nothing_found.
Qed.

Lemma nothing_found_returns_empty_list :
  fetchWithRetry quietUpstream (tokenUrl sampleKey) 3 freshWorld
  = (Return [], answered quietUpstream (tokenUrl sampleKey) freshWorld).
Proof.
  apply (no_transactions_found_is_not_an_error quietUpstream (tokenUrl sampleKey) freshWorld
           200 "OK" (ResultOther None)); reflexivity.
Defined.

(** A miss stays a miss as long as the cache is not written. *)
Lemma getCachedData_miss_later url w w' :
  getCachedData url w = None ->
  API_CACHE w' = API_CACHE w -> now w <= now w' ->
  getCachedData url w' = None.
Proof.
  unfold getCachedData. intros H -> Hnow.
  destruct (API_CACHE w !! url) as [cached|]; [| reflexivity].
  destruct (now w - timestamp cached <? CACHE_DURATION) eqn:Hfresh; [discriminate |].
  apply Z.ltb_ge in Hfresh.
  replace (now w' - timestamp cached <? CACHE_DURATION) with false; [reflexivity |].
  symmetry. apply Z.ltb_ge. lia.
Qed.

(** C10: on the "No transactions found" path [fetchWithRetry] returns the
    empty list and leaves [API_CACHE] as it was; a later call for the same
    URL, however soon (in particular within 30 minutes), misses the cache
    and sends a request again.  An attempt writes the cache exactly when
    it received a 2xx response with an envelope whose status flag is not
    "0". *)
Theorem no_transactions_found_is_not_cached
    (upstream : nat -> string -> Exchange) (url : string) (retries : nat) (w : World)
    (status : Z) (statusText : string) (result : ResultField) :
  getCachedData url w = None ->
  outcome (upstream (length (requests w)) url)
  = HttpResponse status statusText
      (Envelope (Some "0") (Some "No transactions found") result) ->
  ok status = true ->
  let w' := snd (fetchWithRetry upstream url (S retries) w) in
  fst (fetchWithRetry upstream url (S retries) w) = Return []
  /\ API_CACHE w' = API_CACHE w
  /\ (forall ms : N,
        getCachedData url (elapse ms w') = None
        /\ exists more,
             requests (snd (fetchWithRetry upstream url (S retries) (elapse ms w')))
             = (requests w' ++ url :: more)%list)
  /\ (forall w1,
        API_CACHE (snd (attempt upstream url w1)) =
        match outcome (upstream (length (requests w1)) url) with
        | HttpResponse status _ (Envelope flag _ result) =>
            if ok status && negb (Js.strictEq flag (Some "0")) then
              <[url := mkEntry
                         match result with
                         | ResultArray records => records
                         | ResultOther _ => []
                         end
                         (now (answered upstream url w1))]> (API_CACHE w1)
            else API_CACHE w1
        | _ => API_CACHE w1
        end).
Proof.
  intros Hmiss Ho Hok w'.
  assert (Hrun : fetchWithRetry upstream url (S retries) w
                 = (Return [], answered upstream url w)).
  { unfold fetchWithRetry. rewrite Hmiss. eauto using retryLoop_nothing_found. }
  subst w'. rewrite !Hrun. cbn [fst snd].
  repeat split; auto using attempt_cache.
  - apply (getCachedData_miss_later url w); [assumption | reflexivity |].
    cbn. lia.
  - unfold fetchWithRetry.
    rewrite (getCachedData_miss_later url w); [| assumption | reflexivity | cbn; lia].
    destruct (retryLoop_requests upstream url (S retries) (S retries) 0%nat
                (elapse ms (answered upstream url w))) as [more Hmore].
    exists more. exact Hmore.
Qed.

Lemma nothing_found_is_fetched_again :
  let w' := snd (fetchWithRetry quietUpstream (tokenUrl sampleKey) 3 freshWorld) in
  API_CACHE w' = API_CACHE freshWorld
  /\ getCachedData (tokenUrl sampleKey) (elapse 60000 w') = None
  /\ requests (snd (fetchWithRetry quietUpstream (tokenUrl sampleKey) 3 (elapse 60000 w')))
     = [tokenUrl sampleKey; tokenUrl sampleKey].
Proof.
  destruct (no_transactions_found_is_not_cached quietUpstream (tokenUrl sampleKey) 2
              freshWorld 200 "OK" (ResultOther None) eq_refl eq_refl eq_refl)
    as (_ & Hcache & Hagain & _).
  split; [exact Hcache |]. split; [apply (Hagain 60000%N) |].
  vm_compute. reflexivity.
Defined.

(** By contrast, an answer with records is cached, and a call for the same
    URL less than 30 minutes later returns it without a request. *)
Lemma found_is_cached_and_reused :
  let upstream := serve (found [usdcTransfer]) nothingFound in
  let w' := snd (fetchWithRetry upstream (tokenUrl sampleKey) 3 freshWorld) in
  getCachedData (tokenUrl sampleKey) (elapse 1799999 w') = Some [usdcTransfer]
  /\ fetchWithRetry upstream (tokenUrl sampleKey) 3 (elapse 1799999 w')
     = (Return [usdcTransfer], elapse 1799999 w')
  /\ getCachedData (tokenUrl sampleKey) (elapse 1800000 w') = None.
Proof. repeat split; vm_compute; reflexivity. Qed.

(** ** [BigInt] on strings of decimal digits *)

Lemma isDigit_radixDigit c :
  isDigit c = true -> Js.radixDigit 10 c = Some (Js.code c - 48) /\ 0 <= Js.code c - 48 < 10.
Proof.
  unfold isDigit, Js.radixDigit, Js.digitValue. intros H. rewrite H.
  apply andb_true_iff in H as [H1 H2]. apply Z.leb_le in H1, H2.
  replace (Js.code c - 48 <? 10) with true by (symmetry; apply Z.ltb_lt; lia).
  split; [reflexivity | lia].
Qed.

Lemma isDigit_not_space c : isDigit c = true -> Js.isWhiteSpace c = false.
Proof.
  unfold isDigit, Js.isWhiteSpace. intros H.
  apply andb_true_iff in H as [H1 H2]. apply Z.leb_le in H1, H2.
  replace (Js.code c <=? 13) with false by (symmetry; apply Z.leb_gt; lia).
  replace (Js.code c =? 32) with false by (symmetry; apply Z.eqb_neq; lia).
  replace (Js.code c =? 160) with false by (symmetry; apply Z.eqb_neq; lia).
  now rewrite andb_false_r.
Qed.

Lemma trimEnd_digits s : allDigitChars s = true -> Js.trimEnd s = s.
Proof.
  induction s as [|c s IH]; [reflexivity |]. cbn.
  intros H. apply andb_true_iff in H as [Hc Hs]. rewrite (IH Hs).
  destruct s; [now rewrite (isDigit_not_space c Hc) | reflexivity].
Qed.

Lemma trim_decimal s : allDigitChars s = true -> Js.trim s = s.
Proof.
  intros H. unfold Js.trim.
  replace (Js.trimStart s) with s; [now apply trimEnd_digits |].
  destruct s as [|c s]; [reflexivity |]. cbn in *.
  apply andb_true_iff in H as [Hc _]. now rewrite (isDigit_not_space c Hc).
Qed.

Lemma spanDigits_decimal s :
  allDigitChars s = true ->
  exists ds, Js.spanDigits 10 s = (ds, EmptyString)
             /\ (forall acc, fold_left (fun a d => a * 10 + d) ds acc = decimalValueFrom acc s)
             /\ (s <> EmptyString -> ds <> []).
Proof.
  induction s as [|c s IH]; cbn.
  - intros _. exists []. repeat split; congruence.
  - intros H. apply andb_true_iff in H as [Hc Hs].
    destruct (IH Hs) as (ds & Hspan & Hval & _).
    destruct (isDigit_radixDigit c Hc) as [-> _]. rewrite Hspan.
    exists ((Js.code c - 48) :: ds). repeat split; [| discriminate].
    intros acc. cbn. rewrite Hval. f_equal. lia.
Qed.

Lemma allDigits_decimal s :
  isDecimal s = true -> Js.allDigits 10 s = Some (decimalValue s).
Proof.
  intros H. assert (Hs : allDigitChars s = true) by (destruct s; [discriminate | exact H]).
  destruct (spanDigits_decimal s Hs) as (ds & Hspan & Hval & Hne).
  unfold Js.allDigits. rewrite Hspan.
  destruct ds as [|d ds]; [destruct Hne; [destruct s; [discriminate | discriminate] | reflexivity] |].
  unfold Js.digitsValue, decimalValue. now rewrite Hval.
Qed.

Lemma decimalValueFrom_nonneg s acc :
  allDigitChars s = true -> 0 <= acc -> 0 <= decimalValueFrom acc s.
Proof.
  revert acc. induction s as [|c s IH]; cbn; intros acc H Hacc; [assumption |].
  apply andb_true_iff in H as [Hc Hs]. apply IH; [assumption |].
  destruct (isDigit_radixDigit c Hc) as [_ ?]. lia.
Qed.

Lemma BigInt_decimal_string s :
  isDecimal s = true -> Js.BigInt s = Some (decimalValue s) /\ 0 <= decimalValue s.
Proof.
  intros H. assert (Hs : allDigitChars s = true) by (destruct s; [discriminate | exact H]).
  split; [| now apply decimalValueFrom_nonneg].
  rewrite <- (allDigits_decimal s H). unfold Js.BigInt. rewrite (trim_decimal s Hs).
  destruct s as [|c r]; [discriminate |].
  cbn in Hs. apply andb_true_iff in Hs as [Hc Hr].
  destruct c as [[] [] [] [] [] [] [] []]; try discriminate Hc; try reflexivity.
  destruct r as [|c2 r]; [reflexivity |].
  cbn in Hr. apply andb_true_iff in Hr as [Hc2 _].
  destruct c2 as [[] [] [] [] [] [] [] []]; try discriminate Hc2; reflexivity.
Qed.

(** ** Rounding to binary64 *)

Section FloatFacts.
Local Open Scope Q_scope.

(** Rounding to an integer moves a number by at most one half. *)
Lemma nearestEven_error x :
  Qabs (inject_Z (Float.nearestEven x) - x) <= 1 # 2.
Proof.
  unfold Float.nearestEven.
  pose proof (Qfloor_le x) as Hlo. pose proof (Qlt_floor x) as Hhi.
  rewrite inject_Z_plus in Hhi. change (inject_Z 1) with 1 in Hhi.
  apply Qabs_Qle_condition.
  destruct (Qcompare_spec (x - inject_Z (Qfloor x)) (1 # 2)) as [He | Hl | Hg].
  - destruct (Z.even (Qfloor x)); rewrite ?inject_Z_plus; change (inject_Z 1) with 1; lra.
  - lra.
  - rewrite inject_Z_plus. change (inject_Z 1) with 1. lra.
Qed.

Lemma pow2_pos (k : Z) : 0 < 2 ^ k.
Proof. apply Qpower_0_lt. reflexivity. Qed.

Lemma pow2_inject (k : Z) : (0 <= k)%Z -> inject_Z (2 ^ k) == 2 ^ k.
Proof. intros H. now rewrite Zpower_Qpower. Qed.

(** [ilog2 x] is the integer part of the binary logarithm of [x]. *)
Lemma ilog2_le x : 0 < x -> 2 ^ Float.ilog2 x <= x.
Proof.
  intros Hx. unfold Float.ilog2.
  set (n := Qnum x). set (d := Z.pos (Qden x)).
  destruct (Qle_bool (2 ^ (Z.log2 n - Z.log2 d)) x) eqn:Hk.
  - now apply Qle_bool_iff.
  - assert (Hn : (0 < n)%Z).
    { unfold Qlt in Hx. cbn in Hx. subst n. lia. }
    assert (Hd : (0 < d)%Z) by (subst d; lia).
    pose proof (Z.log2_spec n Hn) as [Hn1 _]. pose proof (Z.log2_spec d Hd) as [_ Hd2].
    pose proof (Z.log2_nonneg n). pose proof (Z.log2_nonneg d).
    replace (Z.log2 n - Z.log2 d - 1)%Z with (Z.log2 n - Z.succ (Z.log2 d))%Z by lia.
    rewrite Qpower_minus by discriminate.
    rewrite <- !pow2_inject by lia.
    assert (Hxe : x == inject_Z n / inject_Z d).
    { subst n d. destruct x as [a b]. cbn [Qnum Qden]. apply Qmake_Qdiv. }
    rewrite Hxe.
    assert (0 < inject_Z d) by (rewrite <- (Zlt_Qlt 0); lia).
    assert (0 < inject_Z (2 ^ Z.succ (Z.log2 d))).
    { change 0 with (inject_Z 0). rewrite <- Zlt_Qlt. lia. }
    apply Qle_shift_div_l; [assumption |].
    unfold Qdiv. rewrite <- Qmult_assoc, (Qmult_comm (/ _)), Qmult_assoc.
    apply Qle_shift_div_r; [assumption |].
    rewrite <- !inject_Z_mult, <- Zle_Qle. nia.
Qed.

Lemma ilog2_lt x : 0 < x -> x < 2 ^ (Float.ilog2 x + 1).
Proof.
  intros Hx. unfold Float.ilog2.
  set (n := Qnum x). set (d := Z.pos (Qden x)).
  destruct (Qle_bool (2 ^ (Z.log2 n - Z.log2 d)) x) eqn:Hk.
  - assert (Hn : (0 < n)%Z).
    { unfold Qlt in Hx. cbn in Hx. subst n. lia. }
    assert (Hd : (0 < d)%Z) by (subst d; lia).
    pose proof (Z.log2_spec n Hn) as [_ Hn2]. pose proof (Z.log2_spec d Hd) as [Hd1 _].
    pose proof (Z.log2_nonneg n). pose proof (Z.log2_nonneg d).
    replace (Z.log2 n - Z.log2 d + 1)%Z with (Z.succ (Z.log2 n) - Z.log2 d)%Z by lia.
    rewrite Qpower_minus by discriminate.
    rewrite <- !pow2_inject by lia.
    assert (Hxe : x == inject_Z n / inject_Z d).
    { subst n d. destruct x as [a b]. cbn [Qnum Qden]. apply Qmake_Qdiv. }
    rewrite Hxe.
    assert (0 < inject_Z d) by (rewrite <- (Zlt_Qlt 0); lia).
    assert (0 < inject_Z (2 ^ Z.log2 d)).
    { change 0 with (inject_Z 0). rewrite <- Zlt_Qlt. lia. }
    apply Qlt_shift_div_l; [assumption |].
    unfold Qdiv. rewrite <- Qmult_assoc, (Qmult_comm (/ _)), Qmult_assoc.
    apply Qlt_shift_div_r; [assumption |].
    rewrite <- !inject_Z_mult, <- Zlt_Qlt. nia.
  - replace (Z.log2 n - Z.log2 d - 1 + 1)%Z with (Z.log2 n - Z.log2 d)%Z by lia.
    apply Qnot_le_lt. intros H. apply Qle_bool_iff in H. congruence.
Qed.

(** Rounding a positive rational in the range of the normal binary64
    numbers, below the overflow threshold: the result is finite, off by
    at most half a unit in the last place, and at most the largest
    binary64 value. *)
Lemma roundPositive_within x :
  2 ^ (-1022) <= x -> x < 2 ^ 1024 - 2 ^ 970 ->
  exists y, Float.roundPositive x = Float.Finite y
            /\ Qabs (y - x) <= 2 ^ (-53) * x
            /\ y <= 2 ^ 1024 - 2 ^ 971.
Proof.
  intros Hlo Hhi.
  assert (Hx : 0 < x) by (pose proof (pow2_pos (-1022)); lra).
  pose proof (ilog2_le x Hx) as HL. pose proof (ilog2_lt x Hx) as HU.
  unfold Float.roundPositive.
  set (L := Float.ilog2 x) in *.
  set (e := Z.max (L - 52) (-1074)).
  set (m := Float.nearestEven (x / 2 ^ e)).
  pose proof (nearestEven_error (x / 2 ^ e)) as Hm. fold m in Hm.
  pose proof (pow2_pos e) as HP.
  assert (HL' : (L < 1024)%Z).
  { apply (Qpower_lt_compat_l_inv 2); [| reflexivity].
    pose proof (pow2_pos 970). lra. }
  assert (He : 2 ^ (e + 52) <= x).
  { destruct (Z.max_spec (L - 52) (-1074)) as [[_ Hmax] | [_ Hmax]]; fold e in Hmax;
      rewrite Hmax; [assumption |].
    now replace (L - 52 + 52)%Z with L by lia. }
  assert (He' : x < 2 ^ (e + 53)).
  { apply (Qlt_le_trans _ _ _ HU). apply Qpower_le_compat_l; [subst e; lia | discriminate]. }
  assert (Hz : x == (x / 2 ^ e) * 2 ^ e) by (field; lra).
  assert (Hsplit : 2 ^ (e + 52) == 2 ^ 52 * 2 ^ e).
  { rewrite Qpower_plus by discriminate. ring. }
  assert (Hsplit' : 2 ^ (e + 53) == 2 ^ 53 * 2 ^ e).
  { rewrite Qpower_plus by discriminate. ring. }
  assert (Hz53 : x / 2 ^ e < 2 ^ 53) by (apply Qlt_shift_div_r; lra).
  apply Qabs_Qle_condition in Hm.
  set (z := x / 2 ^ e) in *. set (P := 2 ^ e) in *.
  assert (Hm53 : (m <= 2 ^ 53)%Z).
  { apply Z.lt_succ_r. rewrite Zlt_Qlt.
    change (inject_Z (Z.succ (2 ^ 53))) with (2 ^ 53 + 1). lra. }
  assert (Hoverflow : ((971 <? e)%Z || ((e =? 971)%Z && (2 ^ 53 <=? m)%Z))%bool = false
                      /\ inject_Z m * P <= 2 ^ 1024 - 2 ^ 971).
  { destruct (Z.eq_dec e 971%Z) as [E | E].
    - assert (Hm' : (m < 2 ^ 53)%Z).
      { rewrite Zlt_Qlt. subst P. rewrite E in *.
        change (inject_Z (2 ^ 53)) with (2 ^ 53).
        assert (z * 2 ^ 971 < 2 ^ 1024 - 2 ^ 970) by lra.
        lra. }
      split.
      + apply orb_false_iff. split; [apply Z.ltb_ge; lia |].
        apply andb_false_iff. right. now apply Z.leb_gt.
      + assert (inject_Z m <= 2 ^ 53 - 1).
        { change (2 ^ 53 - 1) with (inject_Z (2 ^ 53 - 1)). rewrite <- Zle_Qle. lia. }
        subst P. rewrite E. lra.
    - assert (HP970 : P <= 2 ^ 970).
      { subst P. apply Qpower_le_compat_l; [subst e; lia | discriminate]. }
      split.
      + apply orb_false_iff. split; [apply Z.ltb_ge; subst e; lia |].
        apply andb_false_iff. left. now apply Z.eqb_neq.
      + assert (H53 : inject_Z m <= 2 ^ 53).
        { change (2 ^ 53) with (inject_Z (2 ^ 53)). now rewrite <- Zle_Qle. }
        assert (inject_Z m * P <= 2 ^ 53 * P) by (apply Qmult_le_compat_r; lra).
        lra. }
  destruct Hoverflow as [-> Hmax].
  exists (inject_Z m * P). split; [reflexivity |]. split; [| exact Hmax].
  apply Qabs_Qle_condition.
  assert (H1 : (inject_Z m - z) * P <= (1 # 2) * P) by (apply Qmult_le_compat_r; lra).
  assert (H2 : (- (1 # 2)) * P <= (inject_Z m - z) * P) by (apply Qmult_le_compat_r; lra).
  lra.
Qed.

(** Half below an even integer, rounding goes up to it. *)
Lemma nearestEven_ge (n : Z) x :
  Z.even n = true -> inject_Z n - (1 # 2) <= x -> (n <= Float.nearestEven x)%Z.
Proof.
  intros Heven Hx. unfold Float.nearestEven.
  pose proof (Qfloor_le x) as Hlo. pose proof (Qlt_floor x) as Hhi.
  rewrite inject_Z_plus in Hhi. change (inject_Z 1) with 1 in Hhi.
  assert (Hf : (n - 1 <= Qfloor x)%Z).
  { apply Z.lt_succ_r. rewrite Zlt_Qlt.
    replace (Z.succ (Qfloor x)) with (Qfloor x + 1)%Z by lia.
    rewrite inject_Z_plus. unfold Zminus. rewrite inject_Z_plus, inject_Z_opp.
    change (inject_Z 1) with 1. lra. }
  destruct (Z.eq_dec (Qfloor x) (n - 1)%Z) as [E | E].
  - assert (Hodd : Z.even (Qfloor x) = false).
    { rewrite E. replace (n - 1)%Z with (Z.pred n) by lia.
      rewrite Z.even_pred. rewrite <- Z.negb_even, Heven. reflexivity. }
    rewrite Hodd.
    destruct (Qcompare_spec (x - inject_Z (Qfloor x)) (1 # 2)) as [_ | Hl | _]; try lia.
    exfalso. rewrite E in Hl. unfold Zminus in Hl.
    rewrite inject_Z_plus, inject_Z_opp in Hl. change (inject_Z 1) with 1 in Hl. lra.
  - destruct (Qcompare _ _); [destruct (Z.even (Qfloor x)) | |]; lia.
Qed.

(** At or above the overflow threshold rounding gives Infinity. *)
Lemma roundPositive_overflow x :
  2 ^ 1024 - 2 ^ 970 <= x -> Float.roundPositive x = Float.Infinity false.
Proof.
  intros Hx.
  assert (H0 : 0 < x).
  { assert (0 < 2 ^ 1024 - 2 ^ 970) by reflexivity. lra. }
  pose proof (ilog2_lt x H0) as HU.
  unfold Float.roundPositive. set (L := Float.ilog2 x) in *.
  assert (HL : (1023 <= L)%Z).
  { apply Z.lt_succ_r, Z.succ_lt_mono. replace (Z.succ (Z.succ L)) with (L + 1 + 1)%Z by lia.
    replace (Z.succ 1023) with (1023 + 1)%Z by lia.
    apply Z.add_lt_mono_r.
    apply (Qpower_lt_compat_l_inv 2); [| reflexivity].
    assert (2 ^ 1023 < 2 ^ 1024 - 2 ^ 970) by reflexivity. lra. }
  rewrite Z.max_l by lia.
  destruct (Z.eq_dec (L - 52)%Z 971%Z) as [E | E].
  - rewrite E. cbn [Z.ltb Z.compare Pos.compare Pos.compare_cont orb Z.eqb Pos.eqb andb].
    replace (971 <? 971)%Z with false by reflexivity.
    replace (971 =? 971)%Z with true by reflexivity. cbn [orb andb].
    replace (_ <=? _)%Z with true; [reflexivity |].
    symmetry. apply Z.leb_le. apply nearestEven_ge; [reflexivity |].
    apply Qle_shift_div_l; [reflexivity |].
    change (inject_Z (2 ^ 53)) with (2 ^ 53). lra.
  - replace (971 <? L - 52)%Z with true by (symmetry; apply Z.ltb_lt; lia). reflexivity.
Qed.

(** Rounding 0, or a rational in the range of the normal binary64
    numbers below the overflow threshold, changes it by a factor between
    [1 - 2^-53] and [1 + 2^-53]. *)
Lemma round_within x :
  0 <= x -> x == 0 \/ 2 ^ (-1022) <= x -> x < 2 ^ 1024 - 2 ^ 970 ->
  exists y, Float.round x = Float.Finite y
            /\ (1 - 2 ^ (-53)) * x <= y <= (1 + 2 ^ (-53)) * x
            /\ y <= 2 ^ 1024 - 2 ^ 971.
Proof.
  intros H0 Hrange Hhi. unfold Float.round.
  destruct (Qcompare_spec x 0) as [He | Hl | Hg].
  - exists 0. split; [reflexivity |]. rewrite He. split; [lra | discriminate].
  - lra.
  - destruct Hrange as [He | Hlo]; [lra |].
    destruct (roundPositive_within x Hlo Hhi) as (y & -> & Hy & Hmax).
    exists y. split; [reflexivity |]. apply Qabs_Qle_condition in Hy.
    split; [lra | exact Hmax].
Qed.

Lemma round_overflow x :
  2 ^ 1024 - 2 ^ 970 <= x -> Float.round x = Float.Infinity false.
Proof.
  intros Hx. unfold Float.round.
  assert (0 < 2 ^ 1024 - 2 ^ 970) by reflexivity.
  destruct (Qcompare_spec x 0) as [He | Hl | Hg]; [lra | lra |].
  now apply roundPositive_overflow.
Qed.

(** The powers of ten up to [10^22] are binary64 values: [10 ** d] and
    [Number(BigInt(10 ** d))] are exact. *)
Lemma pow10_exact d :
  (0 <= d <= 22)%Z ->
  Float.toBigInt (Float.pow10 d) = Some (10 ^ d)%Z
  /\ exists y, Float.ofBigInt (10 ^ d) = Float.Finite y /\ y == inject_Z (10 ^ d).
Proof.
  intros Hd.
  assert (H : In d (map Z.of_nat (seq 0 23))).
  { apply in_map_iff. exists (Z.to_nat d). split; [lia |]. apply in_seq. lia. }
  cbn in H.
  repeat (destruct H as [<- | H];
          [split; [vm_compute; reflexivity | eexists; split; vm_compute; reflexivity] |]).
  destruct H.
Qed.

End FloatFacts.

(** ** [parseTransactionValue] *)

Section Parse.
Local Open Scope Q_scope.

(** C4, amended: for every non-empty string of decimal digits [value],
    denoting the integer [v], and every integer [decimals] from 0 to 22,
    [parseTransactionValue] takes the arbitrary-precision quotient and
    remainder of [v] by [10^decimals] and returns
    [Number(quotient) + Number(remainder) / Number(10^decimals)].  When
    [v / 10^decimals] is below [2^1024 - 2^970], the least magnitude that
    binary64 rounds to Infinity, this Number is finite and differs from
    [v / 10^decimals] by at most [2 * Number.EPSILON] times that quotient,
    however large [v] is, in particular above [2^53]; from that magnitude
    on it is Infinity. *)
Theorem parseTransactionValue_within_tolerance (value : string) (decimals : Z) :
  isDecimal value = true ->
  (0 <= decimals <= 22)%Z ->
  let v := decimalValue value in
  let exact := inject_Z v / 10 ^ decimals in
  parseTransactionValue value decimals
  = Float.add (Float.ofBigInt (v / 10 ^ decimals))
      (Float.div (Float.ofBigInt (v mod 10 ^ decimals)) (Float.ofBigInt (10 ^ decimals)))
  /\ (exact < 2 ^ 1024 - 2 ^ 970 ->
      exists x, parseTransactionValue value decimals = Float.Finite x
                /\ Qabs (x - exact) <= 2 * Float.EPSILON * exact)
  /\ (2 ^ 1024 - 2 ^ 970 <= exact ->
      parseTransactionValue value decimals = Float.Infinity false).
Proof.
  intros Hdec Hd v exact.
  destruct (BigInt_decimal_string value Hdec) as [HB Hv0]. fold v in HB, Hv0.
  destruct (pow10_exact decimals Hd) as (HD & yD & HfD & HyD).
  set (D := (10 ^ decimals)%Z) in *.
  assert (HDpos : (0 < D)%Z) by (subst D; apply Z.pow_pos_nonneg; lia).
  assert (HDmax : (D <= 10 ^ 22)%Z) by (subst D; apply Z.pow_le_mono_r; lia).
  assert (Hrun : parseTransactionValue value decimals
                 = Float.add (Float.ofBigInt (v / D))
                     (Float.div (Float.ofBigInt (v mod D)) (Float.ofBigInt D))).
  { unfold parseTransactionValue, parseTransactionValue_body. rewrite HB, HD.
    replace (D =? 0)%Z with false by (symmetry; apply Z.eqb_neq; lia).
    rewrite Z.quot_div_nonneg, Z.rem_mod_nonneg by lia. reflexivity. }
  split; [exact Hrun |]. rewrite Hrun. clear Hrun HB HD.
  set (q := (v / D)%Z). set (r := (v mod D)%Z).
  assert (Hq0 : (0 <= q)%Z) by (subst q; apply Z.div_pos; lia).
  assert (Hr : (0 <= r < D)%Z) by (subst r; apply Z.mod_pos_bound; lia).
  assert (Hvqr : v = (D * q + r)%Z) by (subst q r; apply Z.div_mod; lia).
  (* the same facts over the rationals *)
  set (Qq := inject_Z q). set (Qr := inject_Z r). set (QD := inject_Z D) in *.
  assert (HQq0 : 0 <= Qq) by (subst Qq; now rewrite <- (Zle_Qle 0)).
  assert (HQr0 : 0 <= Qr) by (subst Qr; rewrite <- (Zle_Qle 0); lia).
  assert (HQrD : Qr < QD) by (subst Qr QD; rewrite <- Zlt_Qlt; lia).
  assert (HQDmax : QD <= 10 ^ 22).
  { subst QD. change (10 ^ 22) with (inject_Z (10 ^ 22)). now rewrite <- Zle_Qle. }
  assert (HQD0 : 0 < QD) by lra.
  assert (Hexact : exact == Qq + Qr / QD).
  { assert (Hpow : 10 ^ decimals == QD)
      by (subst QD D; rewrite Zpower_Qpower by lia; reflexivity).
    subst exact. rewrite Hpow. subst Qq Qr QD.
    rewrite Hvqr, inject_Z_plus, inject_Z_mult. field. lra. }
  set (R := Qr / QD) in *.
  assert (HR0 : 0 <= R) by (subst R; apply Qle_shift_div_l; lra).
  assert (HR1 : R < 1) by (subst R; apply Qlt_shift_div_r; lra).
  (* Number(remainder) *)
  destruct (round_within Qr HQr0) as (yr & Hfr & Hyr & _).
  { destruct (Z.eq_dec r 0%Z) as [E | E].
    - left. subst Qr. now rewrite E.
    - right. assert (1 <= Qr) by (subst Qr; rewrite <- (Zle_Qle 1); lia).
      assert (2 ^ (-1022) <= 1) by (apply Qlt_le_weak; reflexivity). lra. }
  { assert (10 ^ 22 <= 2 ^ 1024 - 2 ^ 970) by (apply Qlt_le_weak; reflexivity). lra. }
  unfold Float.ofBigInt in HfD |- *. fold Qq Qr QD in HfD |- *.
  rewrite Hfr, HfD. fold QD in HyD.
  (* Number(remainder) / Number(divisor) *)
  unfold Float.div.
  replace (Qeq_bool yD 0) with false
    by (symmetry; apply not_true_is_false; intros E; apply Qeq_bool_iff in E; lra).
  assert (Hxt : yr / yD == yr * / QD) by (unfold Qdiv; now rewrite HyD).
  assert (Hc : 0 <= / QD) by (apply Qlt_le_weak, Qinv_lt_0_compat, HQD0).
  assert (HRc : R == Qr * / QD) by reflexivity.
  assert (HYR1 : (1 - 2 ^ (-53)) * Qr * / QD <= yr * / QD)
    by (apply Qmult_le_compat_r; [apply Hyr | exact Hc]).
  assert (HYR2 : yr * / QD <= (1 + 2 ^ (-53)) * Qr * / QD)
    by (apply Qmult_le_compat_r; [apply Hyr | exact Hc]).
  assert (HRlow : (r <> 0)%Z -> 10 ^ (-22) <= R).
  { intros E. assert (1 <= Qr) by (subst Qr; rewrite <- (Zle_Qle 1); lia).
    subst R. apply Qle_shift_div_l; [exact HQD0 |]. lra. }
  set (YR := yr * / QD) in *.
  rewrite <- !Qmult_assoc in HYR1, HYR2. rewrite <- HRc in HYR1, HYR2.
  destruct (round_within (yr / yD)) as (yt & Hft & Hyt & _).
  { lra. }
  { destruct (Z.eq_dec r 0%Z) as [E | E].
    - left. assert (HQr : Qr == 0) by (subst Qr; now rewrite E).
      assert (R == 0) by (rewrite HRc, HQr; ring). lra.
    - right. specialize (HRlow E).
      assert (2 ^ (-1022) <= (1 - 2 ^ (-53)) * (10 ^ (-22)))
        by (apply Qlt_le_weak; reflexivity).
      lra. }
  { assert ((1 + 2 ^ (-53)) * 1 <= 2 ^ 1024 - 2 ^ 970) by (apply Qlt_le_weak; reflexivity).
    lra. }
  rewrite Hft. rewrite Hxt in Hyt.
  split.
  - (* below the overflow threshold *)
    intros Hbelow.
    destruct (round_within Qq HQq0) as (yq & Hfq & Hyq & Hqmax).
    { destruct (Z.eq_dec q 0%Z) as [E | E].
      - left. subst Qq. now rewrite E.
      - right. assert (1 <= Qq) by (subst Qq; rewrite <- (Zle_Qle 1); lia).
        assert (2 ^ (-1022) <= 1) by (apply Qlt_le_weak; reflexivity). lra. }
    { lra. }
    rewrite Hfq. unfold Float.add.
    destruct (round_within (yq + yt)) as (y & Hfy & Hy & _).
    { lra. }
    { destruct (Z.eq_dec q 0%Z) as [Eq0 | Eq0]; [destruct (Z.eq_dec r 0%Z) as [Er0 | Er0] |].
      - left. assert (Qq == 0) by (subst Qq; now rewrite Eq0).
        assert (HQr : Qr == 0) by (subst Qr; now rewrite Er0).
        assert (R == 0) by (rewrite HRc, HQr; ring). lra.
      - right. specialize (HRlow Er0).
        assert (2 ^ (-1022) <= (1 - 2 ^ (-53)) * ((1 - 2 ^ (-53)) * (10 ^ (-22))))
          by (apply Qlt_le_weak; reflexivity).
        lra.
      - right. assert (1 <= Qq) by (subst Qq; rewrite <- (Zle_Qle 1); lia).
        assert (2 ^ (-1022) <= (1 - 2 ^ (-53)) * 1) by (apply Qlt_le_weak; reflexivity).
        lra. }
    { assert (2 ^ 1024 - 2 ^ 971 + (1 + 2 ^ (-53)) * ((1 + 2 ^ (-53)) * 1)
              < 2 ^ 1024 - 2 ^ 970) by reflexivity.
      lra. }
    exists y. split; [exact Hfy |].
    apply Qabs_Qle_condition. unfold Float.EPSILON. rewrite Hexact. lra.
  - (* at or above it *)
    intros Habove.
    assert (HqT : (2 ^ 1024 - 2 ^ 970 <= q)%Z).
    { apply Z.lt_pred_le. rewrite Zlt_Qlt. fold Qq.
      change (inject_Z (Z.pred (2 ^ 1024 - 2 ^ 970))) with (2 ^ 1024 - 2 ^ 970 - 1). lra. }
    rewrite (round_overflow Qq).
    + reflexivity.
    + subst Qq. change (2 ^ 1024 - 2 ^ 970) with (inject_Z (2 ^ 1024 - 2 ^ 970)).
      now rewrite <- Zle_Qle.
Qed.

(** A value above [2^53]. *)
Lemma large_value_within_tolerance :
  exists x, parseTransactionValue "1234567890123456789012345" 18 = Float.Finite x
            /\ Qabs (x - inject_Z 1234567890123456789012345 / 10 ^ 18)
               <= 2 * Float.EPSILON * (inject_Z 1234567890123456789012345 / 10 ^ 18).
Proof.
  destruct (parseTransactionValue_within_tolerance "1234567890123456789012345" 18)
    as (_ & Hfinite & _).
  - reflexivity.
  - lia.
  - apply Hfinite. vm_compute. reflexivity.
Defined.

(** C4, as stated, fails for a negative [decimals]: [10 ** -1] is 0.1,
    [BigInt(0.1)] throws a RangeError, the [catch] returns 0, and 0 is
    not within tolerance of [5 / 10^-1 = 50]. *)
Lemma negative_decimals_give_zero :
  parseTransactionValue "5" (-1) = Float.Finite 0
  /\ inject_Z 5 / 10 ^ (-1) == 50
  /\ ~ Qabs (0 - inject_Z 5 / 10 ^ (-1)) <= 2 * Float.EPSILON * (inject_Z 5 / 10 ^ (-1)).
Proof.
  split; [vm_compute; reflexivity |]. split; [reflexivity |].
  intros H. vm_compute in H. apply H. reflexivity.
Qed.

(** The scenario of the specification: 1000000 units at 6 decimals. *)
Example parseTransactionValue_one_usdc :
  exists x, parseTransactionValue "1000000" 6 = Float.Finite x /\ x == 1.
Proof. eexists. split; vm_compute; reflexivity. Qed.

(** A string that is no number: the [catch] returns 0. *)
Example parseTransactionValue_malformed : parseTransactionValue "abc" 18 = Float.Finite 0.
Proof. reflexivity. Qed.

(** From 23 decimals on the divisor [BigInt(10 ** decimals)] is the
    binary64 value nearest to the power of ten, not the power of ten. *)
Example divisor_for_23_decimals :
  Float.toBigInt (Float.pow10 23) = Some 99999999999999991611392%Z.
Proof. vm_compute. reflexivity. Qed.

Example round_one_tenth :
  exists x, Float.round (1 # 10) = Float.Finite x
            /\ x == 3602879701896397 # 36028797018963968.
Proof. eexists. split; vm_compute; reflexivity. Qed.

Example round_ties_to_even :
  exists x, Float.ofBigInt (2 ^ 53 + 1) = Float.Finite x /\ x == 2 ^ 53.
Proof. eexists. split; vm_compute; reflexivity. Qed.

End Parse.

(** * Further properties *)

(** ** The cache *)

(** X1: what [setCachedData] stores under a URL, [getCachedData] returns
    for that URL as long as less than 30 minutes (1 800 000 ms) have
    passed, whatever the cache held before; from exactly 30 minutes on it
    returns [null].  Storing under one URL leaves what is read under any
    other URL as it was. *)
Theorem cache_round_trip (url : string) (results : list Raw.t) (w : World) :
  (forall ms : N,
      getCachedData url (elapse ms (snd (setCachedData url results w)))
      = if Z.of_N ms <? 1800000 then Some results else None)
  /\ (forall url', url' <> url ->
      getCachedData url' (snd (setCachedData url results w)) = getCachedData url' w).
Proof.
  split.
  - intros ms. unfold getCachedData, setCachedData, elapse. cbn.
    rewrite lookup_insert_eq. cbn.
    replace (now w + Z.of_N ms - now w) with (Z.of_N ms) by lia. reflexivity.
  - intros url' Hne. unfold getCachedData, setCachedData. cbn.
    rewrite lookup_insert_ne by congruence. reflexivity.
Qed.

(** ** [fetchWithRetry]: a good answer *)

(** An attempt that gets a good answer returns its records and stores
    them. *)
Lemma attempt_delivers upstream url w records :
  delivers (outcome (upstream (length (requests w)) url)) records ->
  attempt upstream url w = (Return records, stored upstream url records w).
Proof.
  intros (status & statusText & flag & message & result & Ho & Hok & Hflag & ->).
  unfold attempt, bind, fetch, stored, answered, ret, setCachedData. cbn.
  rewrite Ho, Hok. cbn [negb].
  replace (Js.strictEq flag (Some "0")) with false; [reflexivity |].
  symmetry. apply bool_decide_eq_false. exact Hflag.
Qed.

Lemma getCachedData_stored upstream url records w (ms : N) :
  getCachedData url (elapse ms (stored upstream url records w))
  = if Z.of_N ms <? CACHE_DURATION then Some records else None.
Proof.
  unfold getCachedData, stored, elapse. cbn. rewrite lookup_insert_eq. cbn.
  match goal with |- context [?a + ?b - ?a] => replace (a + b - a) with b by lia end.
  reflexivity.
Qed.

(** A good answer to the first attempt ends the call. *)
Lemma fetchWithRetry_first_answer upstream url retries w records :
  getCachedData url w = None ->
  delivers (outcome (upstream (length (requests w)) url)) records ->
  fetchWithRetry upstream url (S retries) w = (Return records, stored upstream url records w).
Proof.
  intros Hmiss Hgood. unfold fetchWithRetry. rewrite Hmiss. cbn [retryLoop]. unfold tryCatch.
  now rewrite (attempt_delivers _ _ _ _ Hgood).
Qed.

(** A call that finds the URL in the cache returns at once. *)
Lemma fetchWithRetry_hit upstream url retries w records :
  getCachedData url w = Some records ->
  fetchWithRetry upstream url retries w = (Return records, w).
Proof. intros H. unfold fetchWithRetry. now rewrite H. Qed.

(** X2: when the URL is not served from the cache and the first attempt
    gets a good answer (a 2xx response whose envelope does not have the
    status flag "0"), [fetchWithRetry] returns the records of the answer,
    the empty list when [result] is not an array, after one request and
    no delay, and stores them.  For the next 30 minutes every call for the
    same URL, with whatever retry budget and whatever the upstream would
    answer now, returns the same records and leaves the world as it is:
    no request is sent.  From 30 minutes on the entry is stale. *)
Theorem good_answer_is_reused_for_thirty_minutes
    (upstream : nat -> string -> Exchange) (url : string) (retries : nat) (w : World)
    (records : list Raw.t) :
  getCachedData url w = None ->
  delivers (outcome (upstream (length (requests w)) url)) records ->
  let w' := stored upstream url records w in
  fetchWithRetry upstream url (S retries) w = (Return records, w')
  /\ requests w' = (requests w ++ [url])%list
  /\ delays w' = delays w
  /\ (forall upstream' retries' (ms : N),
        Z.of_N ms < CACHE_DURATION ->
        fetchWithRetry upstream' url retries' (elapse ms w') = (Return records, elapse ms w'))
  /\ (forall ms : N, CACHE_DURATION <= Z.of_N ms -> getCachedData url (elapse ms w') = None).
Proof.
  intros Hmiss Hgood w'. subst w'.
  split; [| split; [reflexivity | split; [reflexivity | split]]].
  - now apply fetchWithRetry_first_answer.
  - intros upstream' retries' ms Hms. apply fetchWithRetry_hit.
    rewrite getCachedData_stored.
    replace (Z.of_N ms <? CACHE_DURATION) with true by (symmetry; apply Z.ltb_lt; lia).
    reflexivity.
  - intros ms Hms. rewrite getCachedData_stored.
    replace (Z.of_N ms <? CACHE_DURATION) with false by (symmetry; apply Z.ltb_ge; lia).
    reflexivity.
Qed.

(** One token transfer is served.  One millisecond before the 30 minutes
    are over a call is answered from the cache, although the upstream
    would now answer 429; at 30 minutes the entry is stale. *)
Lemma usdc_answer_is_reused :
  let upstream := serve (found [usdcTransfer]) nothingFound in
  let w' := stored upstream (tokenUrl sampleKey) [usdcTransfer] freshWorld in
  fetchWithRetry upstream (tokenUrl sampleKey) 3 freshWorld = (Return [usdcTransfer], w')
  /\ fetchWithRetry (serve tooManyRequests tooManyRequests) (tokenUrl sampleKey) 3
       (elapse 1799999 w')
     = (Return [usdcTransfer], elapse 1799999 w')
  /\ getCachedData (tokenUrl sampleKey) (elapse 1800000 w') = None.
Proof.
  cbv zeta.
  destruct (good_answer_is_reused_for_thirty_minutes
              (serve (found [usdcTransfer]) nothingFound) (tokenUrl sampleKey) 2 freshWorld
              [usdcTransfer]) as (Hrun & _ & _ & Hhit & Hstale).
  - reflexivity.
  - exists 200, "OK", (Some "1"), (Some "OK"), (ResultArray [usdcTransfer]).
    repeat split. discriminate.
  - split; [exact Hrun |]. split; [apply Hhit; reflexivity | apply Hstale; discriminate].
Defined.

(** ** [fetchWithRetry]: the loop in general *)

(** One iteration of the loop. *)
Lemma retryLoop_step upstream url retries i m w :
  retryLoop upstream url retries i (S m) w =
  match attempt upstream url w with
  | (Return records, w1) => (Return records, w1)
  | (Throw e, w1) =>
      if Nat.eqb i (retries - 1) then (Throw e, w1)
      else retryLoop upstream url retries (S i) m (snd (sleep (backoff i) w1))
  end.
Proof.
  cbn [retryLoop]. unfold tryCatch, bind, throw.
  destruct (attempt upstream url w) as [[records|e] w1]; [reflexivity |].
  destruct (Nat.eqb i (retries - 1)); reflexivity.
Qed.

(** What one attempt does to the world, whatever its answer. *)
Lemma attempt_world upstream url w :
  let w1 := snd (attempt upstream url w) in
  requests w1 = (requests w ++ [url])%list
  /\ delays w1 = delays w
  /\ now w <= now w1
  /\ (forall url', url' <> url -> API_CACHE w1 !! url' = API_CACHE w !! url')
  /\ (forall e, fst (attempt upstream url w) = Throw e -> API_CACHE w1 = API_CACHE w).
Proof.
  pose proof (N2Z.is_nonneg (latency (upstream (length (requests w)) url))) as Hlat.
  unfold attempt, bind, fetch, ret, throw, setCachedData. cbn.
  destruct (outcome _) as [reason | status statusText body]; cbn.
  - repeat split; auto; lia.
  - destruct (ok status); cbn [negb]; [| cbn; repeat split; auto; lia].
    destruct body as [| | flag message result]; cbn; try (repeat split; auto; lia).
    destruct (Js.strictEq flag _); cbn.
    + destruct (Js.strictEq message _); cbn; repeat split; auto; try lia; discriminate.
    + repeat split; auto; try lia; try discriminate.
      intros url' Hne. apply lookup_insert_ne. congruence.
Qed.

(** What the loop does to the world, whatever the upstream answers. *)
Lemma retryLoop_effort upstream url retries :
  forall m i w,
    (i + S m = retries)%nat ->
    exists n,
      (n <= m)%nat
      /\ let r := retryLoop upstream url retries i (S m) w in
         requests (snd r) = (requests w ++ repeat url (S n))%list
         /\ delays (snd r) = (delays w ++ map backoff (seq i n))%list
         /\ now w + sumZ (map backoff (seq i n)) <= now (snd r)
         /\ (forall url', url' <> url -> API_CACHE (snd r) !! url' = API_CACHE w !! url')
         /\ (forall e, fst r = Throw e -> n = m /\ API_CACHE (snd r) = API_CACHE w).
Proof.
  induction m as [|m IH]; intros i w Hi; cbv zeta; rewrite retryLoop_step;
    destruct (attempt_world upstream url w) as (Hreq & Hdel & Hnow & Hother & Hthrow);
    destruct (attempt upstream url w) as [[records|e] w1]; cbn [fst snd] in *.
  - exists 0%nat. cbn. rewrite app_nil_r. repeat split; auto; try lia; discriminate.
  - replace (Nat.eqb i (retries - 1)) with true by (symmetry; apply Nat.eqb_eq; lia).
    exists 0%nat. cbn. rewrite app_nil_r. repeat split; eauto; try lia.
  - exists 0%nat. cbn. rewrite app_nil_r. repeat split; auto; try lia; discriminate.
  - replace (Nat.eqb i (retries - 1)) with false by (symmetry; apply Nat.eqb_neq; lia).
    specialize (Hthrow e eq_refl).
    set (w2 := snd (sleep (backoff i) w1)).
    destruct (IH (S i) w2 ltac:(lia)) as (n & Hn & Hreq' & Hdel' & Hnow' & Hother' & Hthrow').
    assert (Hw2 : requests w2 = requests w1
                  /\ delays w2 = (delays w1 ++ [backoff i])%list
                  /\ now w2 = now w1 + backoff i
                  /\ API_CACHE w2 = API_CACHE w1) by (repeat split; reflexivity).
    destruct Hw2 as (R2 & D2 & N2 & C2). clearbody w2.
    exists (S n). split; [lia |]. cbn [seq map sumZ repeat].
    rewrite Hreq', Hdel', R2, D2, Hreq, Hdel, <- !app_assoc. cbn [app].
    split; [| split; [| split; [| split]]]; auto; try lia.
    + intros url' Hne. rewrite Hother', C2 by assumption. now apply Hother.
    + intros e' He'. destruct (Hthrow' e' He') as [-> HC].
      split; [reflexivity |]. rewrite HC, C2. exact Hthrow.
Qed.

Lemma backoff_bounds i : 1000 <= backoff i <= 5000.
Proof.
  unfold backoff. split; [| apply Z.le_min_l].
  apply Z.min_glb; [lia |].
  assert (0 < 2 ^ Z.of_nat i) by (apply Z.pow_pos_nonneg; lia). lia.
Qed.

(** What a call of [fetchWithRetry] does to the world, whatever the
    upstream answers. *)
Lemma fetchWithRetry_footprint upstream url retries w :
  exists n,
    (n <= retries)%nat
    /\ requests (snd (fetchWithRetry upstream url retries w)) = (requests w ++ repeat url n)%list
    /\ delays (snd (fetchWithRetry upstream url retries w))
       = (delays w ++ map backoff (seq 0 (n - 1)))%list
    /\ now w + sumZ (map backoff (seq 0 (n - 1)))
       <= now (snd (fetchWithRetry upstream url retries w))
    /\ (forall url', url' <> url ->
          API_CACHE (snd (fetchWithRetry upstream url retries w)) !! url' = API_CACHE w !! url')
    /\ (forall e, fst (fetchWithRetry upstream url retries w) = Throw e ->
          n = retries /\ API_CACHE (snd (fetchWithRetry upstream url retries w)) = API_CACHE w
          /\ getCachedData url w = None)
    /\ (getCachedData url w <> None -> n = 0%nat /\ snd (fetchWithRetry upstream url retries w) = w)
    /\ (getCachedData url w = None -> retries <> 0%nat -> n <> 0%nat).
Proof.
  unfold fetchWithRetry.
  destruct (getCachedData url w) as [cached|] eqn:Hc.
  - exists 0%nat. cbn. rewrite !app_nil_r.
    repeat split; auto; try lia; discriminate.
  - destruct retries as [|m].
    + exists 0%nat. cbn. rewrite !app_nil_r.
      repeat split; auto; try lia; try discriminate; congruence.
    + destruct (retryLoop_effort upstream url (S m) m 0%nat w eq_refl)
        as (n & Hn & Hreq & Hdel & Hnow & Hother & Hthrow).
      exists (S n). replace (S n - 1)%nat with n by lia.
      split; [lia |]. split; [exact Hreq |]. split; [exact Hdel |].
      split; [exact Hnow | split; [exact Hother | split; [| split]]].
      * intros e He. destruct (Hthrow e He) as [-> HC]. repeat split. exact HC.
      * congruence.
      * lia.
Qed.

Lemma sumZ_backoff_nonneg l : 0 <= sumZ (map backoff l).
Proof.
  induction l as [|x l IHl]; cbn; [lia |]. pose proof (backoff_bounds x). lia.
Qed.

(** X3: whatever the upstream answers, a call of [fetchWithRetry] sends
    at most [retries] requests, all of them for its own URL, and awaits
    one delay less than it sends requests: [backoff 0], [backoff 1] and
    so on, each between 1000 and 5000 ms.  The clock does not go back, the
    cache entries of the other URLs are left alone, a call that throws has
    used the whole budget and has not written the cache, and a call that
    is served from the cache does nothing at all. *)
Theorem fetchWithRetry_effort
    (upstream : nat -> string -> Exchange) (url : string) (retries : nat) (w : World) :
  let r := fetchWithRetry upstream url retries w in
  exists n,
    (n <= retries)%nat
    /\ requests (snd r) = (requests w ++ repeat url n)%list
    /\ delays (snd r) = (delays w ++ map backoff (seq 0 (n - 1)))%list
    /\ Forall (fun ms => 1000 <= ms <= 5000) (map backoff (seq 0 (n - 1)))
    /\ now w <= now (snd r)
    /\ (forall url', url' <> url -> API_CACHE (snd r) !! url' = API_CACHE w !! url')
    /\ (forall e, fst r = Throw e -> n = retries /\ API_CACHE (snd r) = API_CACHE w)
    /\ (getCachedData url w <> None -> n = 0%nat /\ snd r = w).
Proof.
  cbv zeta.
  destruct (fetchWithRetry_footprint upstream url retries w)
    as (n & Hn & Hreq & Hdel & Hnow & Hother & Hthrow & Hhit & _).
  exists n. pose proof (sumZ_backoff_nonneg (seq 0 (n - 1))).
  split; [exact Hn |]. split; [exact Hreq |]. split; [exact Hdel |].
  split; [| split; [lia | split; [exact Hother | split; [| exact Hhit]]]].
  - apply List.Forall_forall. intros ms Hin. apply in_map_iff in Hin as (j & <- & _).
    apply backoff_bounds.
  - intros e He. destruct (Hthrow e He) as (-> & HC & _). split; [reflexivity | exact HC].
Qed.

Lemma getCachedData_stored_now upstream url records w :
  getCachedData url (stored upstream url records w) = Some records.
Proof.
  unfold getCachedData, stored. cbn. rewrite lookup_insert_eq. cbn.
  rewrite Z.sub_diag. reflexivity.
Qed.

(** [k] failures, then a good answer. *)
Lemma retryLoop_recovers upstream url retries records :
  forall k m i w,
    (i + S m = retries)%nat -> (k <= m)%nat ->
    (forall n, (n < k)%nat ->
       failure (outcome (upstream (length (requests w) + n)%nat url)) <> None) ->
    delivers (outcome (upstream (length (requests w) + k)%nat url)) records ->
    exists w',
      retryLoop upstream url retries i (S m) w = (Return records, w')
      /\ requests w' = (requests w ++ repeat url (S k))%list
      /\ delays w' = (delays w ++ map backoff (seq i k))%list
      /\ getCachedData url w' = Some records.
Proof.
  induction k as [|k IH]; intros m i w Hi Hk Hfail Hgood; rewrite retryLoop_step.
  - rewrite Nat.add_0_r in Hgood. rewrite (attempt_delivers _ _ _ _ Hgood).
    eexists. split; [reflexivity |]. cbn. rewrite app_nil_r.
    repeat split. apply getCachedData_stored_now.
  - destruct (failure (outcome (upstream (length (requests w)) url))) as [e|] eqn:He.
    2:{ exfalso. apply (Hfail 0%nat); [lia |]. now rewrite Nat.add_0_r. }
    rewrite (attempt_failure _ _ _ _ He).
    replace (Nat.eqb i (retries - 1)) with false by (symmetry; apply Nat.eqb_neq; lia).
    destruct m as [|m]; [lia |].
    set (w2 := snd (sleep (backoff i) (answered upstream url w))).
    assert (Hw2 : requests w2 = (requests w ++ [url])%list
                  /\ delays w2 = (delays w ++ [backoff i])%list) by (split; reflexivity).
    destruct Hw2 as [R2 D2].
    assert (Hlen : forall n, (length (requests w2) + n = length (requests w) + S n)%nat).
    { intros n. rewrite R2, length_app. cbn. lia. }
    destruct (IH m (S i) w2) as (w' & Hrun & Hreq & Hdel & Hcache).
    + lia.
    + lia.
    + intros n Hn. rewrite Hlen. apply Hfail. lia.
    + now rewrite Hlen.
    + exists w'. split; [exact Hrun |]. cbn [seq map repeat].
      rewrite Hreq, Hdel, R2, D2, <- !app_assoc. repeat split. exact Hcache.
Qed.

(** X4: when the URL is not served from the cache, the first [k]
    attempts fail and the next one, still within the budget, gets a good
    answer, [fetchWithRetry] returns the records of that answer after
    [k + 1] requests and the delays [backoff 0], ..., [backoff (k - 1)],
    and the records are in the cache. *)
Theorem fetchWithRetry_recovers
    (upstream : nat -> string -> Exchange) (url : string) (retries k : nat) (w : World)
    (records : list Raw.t) :
  getCachedData url w = None ->
  (k < retries)%nat ->
  (forall n, (n < k)%nat ->
     failure (outcome (upstream (length (requests w) + n)%nat url)) <> None) ->
  delivers (outcome (upstream (length (requests w) + k)%nat url)) records ->
  exists w',
    fetchWithRetry upstream url retries w = (Return records, w')
    /\ requests w' = (requests w ++ repeat url (S k))%list
    /\ delays w' = (delays w ++ map backoff (seq 0 k))%list
    /\ getCachedData url w' = Some records.
Proof.
  intros Hmiss Hk Hfail Hgood. unfold fetchWithRetry. rewrite Hmiss.
  destruct retries as [|m]; [lia |].
  apply (retryLoop_recovers upstream url (S m) records k m 0%nat w); auto. lia.
Qed.

(** Two answers 429, then the records. *)
Lemma rate_limited_twice_then_served :
  exists w',
    fetchWithRetry
      recoveringSlowly
      (tokenUrl sampleKey) 3 freshWorld
    = (Return [usdcTransfer], w')
    /\ requests w' = [tokenUrl sampleKey; tokenUrl sampleKey; tokenUrl sampleKey]
    /\ delays w' = [1000; 2000]
    /\ getCachedData (tokenUrl sampleKey) w' = Some [usdcTransfer].
Proof.
  apply (fetchWithRetry_recovers _ (tokenUrl sampleKey) 3 2 freshWorld [usdcTransfer]).
  - reflexivity.
  - lia.
  - intros n Hn. destruct n as [|[|n]]; [discriminate | discriminate | lia].
  - exists 200, "OK", (Some "1"), (Some "OK"), (ResultArray [usdcTransfer]).
    repeat split. discriminate.
Defined.

(** X5: the retry loop for every budget.  When the URL is not served
    from the cache and every attempt fails, a call with the budget 0
    returns the empty list without a request; a call with the budget
    [m + 1] sends [m + 1] requests, awaits [backoff 0], ...,
    [backoff (m - 1)] between them, leaves the cache as it is and throws
    the error of the last attempt.  The delays double from 1000 ms and are
    capped at 5000 ms, which is reached after the fourth failure. *)
Theorem fetchWithRetry_exhausts_any_budget
    (upstream : nat -> string -> Exchange) (url : string) (retries : nat) (w : World) :
  getCachedData url w = None ->
  (forall n, (n < retries)%nat ->
     failure (outcome (upstream (length (requests w) + n)%nat url)) <> None) ->
  match retries with
  | O => fetchWithRetry upstream url retries w = (Return [], w)
  | S m =>
      exists e w',
        fetchWithRetry upstream url retries w = (Throw e, w')
        /\ failure (outcome (upstream (length (requests w) + m)%nat url)) = Some e
        /\ requests w' = (requests w ++ repeat url retries)%list
        /\ delays w' = (delays w ++ map backoff (seq 0 m))%list
        /\ API_CACHE w' = API_CACHE w
  end
  /\ map backoff (seq 0 5) = [1000; 2000; 4000; 5000; 5000]
  /\ (forall i, (3 <= i)%nat -> backoff i = 5000).
Proof.
  intros Hmiss Hfail. split; [| split; [reflexivity |]].
  - unfold fetchWithRetry. rewrite Hmiss. destruct retries as [|m]; [reflexivity |].
    destruct (retryLoop_all_fail upstream url (S m) m 0%nat w eq_refl)
      as (e & w' & Hrun & He & Hreq & Hdel & Hcache & _).
    { intros n Hn. apply Hfail. lia. }
    exists e, w'. repeat split; assumption.
  - intros i Hi. unfold backoff. apply Z.min_l.
    assert (2 ^ 3 <= 2 ^ Z.of_nat i) by (apply Z.pow_le_mono_r; lia). lia.
Qed.

(** A budget of 5 against an upstream that answers 429 every time. *)
Lemma five_attempts_wait_up_to_five_seconds :
  exists e w',
    fetchWithRetry (serve tooManyRequests tooManyRequests) (tokenUrl sampleKey) 5 freshWorld
    = (Throw e, w')
    /\ length (requests w') = 5%nat
    /\ delays w' = [1000; 2000; 4000; 5000].
Proof.
  destruct (fetchWithRetry_exhausts_any_budget
              (serve tooManyRequests tooManyRequests) (tokenUrl sampleKey) 5 freshWorld)
    as ((e & w' & Hrun & _ & Hreq & Hdel & _) & _).
  - reflexivity.
  - intros n _. vm_compute. discriminate.
  - exists e, w'. rewrite Hreq, Hdel. repeat split. exact Hrun.
Defined.

(** ** [parseInt] on strings of decimal digits *)

(** [parseInt] reads a string of decimal digits as the number it
    denotes. *)
Lemma parseInt_decimal_string s :
  isDecimal s = true -> Js.parseInt s = Js.Num (decimalValue s).
Proof.
  intros H. assert (Hs : allDigitChars s = true) by (destruct s; [discriminate | exact H]).
  destruct (spanDigits_decimal s Hs) as (ds & Hspan & Hval & Hne).
  assert (Hrun : Js.parseInt s
                 = match Js.spanDigits 10 s with
                   | ([], _) => Js.NaN
                   | (ds, _) => Js.Num (Js.digitsValue 10 ds)
                   end).
  { unfold Js.parseInt.
    destruct s as [|c r]; [discriminate |].
    cbn in Hs. apply andb_true_iff in Hs as [Hc Hr].
    cbn [Js.trimStart]. rewrite (isDigit_not_space c Hc).
    destruct c as [[] [] [] [] [] [] [] []]; try discriminate Hc; try reflexivity.
    destruct r as [|c2 r]; [reflexivity |].
    cbn in Hr. apply andb_true_iff in Hr as [Hc2 _].
    destruct c2 as [[] [] [] [] [] [] [] []]; try discriminate Hc2; reflexivity. }
  rewrite Hrun, Hspan.
  destruct ds as [|d ds].
  - exfalso. apply Hne; [| reflexivity]. destruct s; [discriminate | discriminate].
  - unfold Js.digitsValue, decimalValue. now rewrite Hval.
Qed.

(** ** The date check *)

(** X6: for a record whose [timeStamp] is a string of decimal digits the
    date check is exact and comes first.  Below 1761091200, which is
    2025-10-22T00:00:00Z in seconds, both category filters drop the record
    without looking at its other fields, so that a malformed value on it
    raises nothing; from 1761091200 on, that second included, the record
    passes the date check.  As long as the milliseconds, 1000 times the
    seconds, are at most 2^53, where a Number holds every integer, the
    transaction built from such a record carries exactly them as its
    timestamp, which is at least 1761091200000. *)
Theorem cutoff_is_inclusive_and_checked_first (tx : Raw.t) (s : string) :
  Raw.timeStamp tx = Some s ->
  isDecimal s = true ->
  (decimalValue s < 1761091200 ->
     tokenFilter tx = Return false /\ internalFilter tx = Return false)
  /\ (1761091200 <= decimalValue s ->
     Js.lt (Js.parseIntField (Raw.timeStamp tx)) (Js.Num START_TIMESTAMP) = false)
  /\ (1761091200 <= decimalValue s -> decimalValue s * 1000 <= 2 ^ 53 ->
     Transaction.timestamp (tokenMap tx) = Js.Num (decimalValue s * 1000)
     /\ Transaction.timestamp (internalMap tx) = Js.Num (decimalValue s * 1000)
     /\ 1761091200000 <= decimalValue s * 1000).
Proof.
  intros Hts Hs.
  assert (Hp : Js.parseIntField (Raw.timeStamp tx) = Js.Num (decimalValue s)).
  { rewrite Hts. cbn [Js.parseIntField]. now apply parseInt_decimal_string. }
  change START_TIMESTAMP with 1761091200.
  split.
  - intros Hlt. unfold tokenFilter, internalFilter. rewrite Hp.
    change START_TIMESTAMP with 1761091200. cbn [Js.lt].
    replace (decimalValue s <? 1761091200) with true by (symmetry; apply Z.ltb_lt; lia).
    split; reflexivity.
  - split.
    + intros Hge. rewrite Hp. cbn [Js.lt]. apply Z.ltb_ge. lia.
    + intros Hge _. unfold tokenMap, internalMap. cbn [Transaction.timestamp].
      rewrite Hp. cbn [Js.mul]. repeat split. lia.
Qed.

(** A record dated one second before the cutoff, whose value [BigInt]
    would reject, and a token transfer dated after the cutoff. *)
Lemma stale_record_is_dropped_before_its_value_is_read :
  (tokenFilter staleGarbled = Return false /\ internalFilter staleGarbled = Return false)
  /\ Transaction.timestamp (tokenMap usdcTransfer) = Js.Num 1761100000000.
Proof.
  split.
  - apply (cutoff_is_inclusive_and_checked_first staleGarbled "1761091199").
    + reflexivity.
    + reflexivity.
    + vm_compute. reflexivity.
  - destruct (cutoff_is_inclusive_and_checked_first usdcTransfer "1761100000")
      as (_ & _ & Hms).
    + reflexivity.
    + reflexivity.
    + destruct Hms as (Hms & _).
      * vm_compute. discriminate.
      * vm_compute. discriminate.
      * exact Hms.
Defined.

(** ** What a returned transaction looks like *)

Lemma tokenMap_symbol tx : Transaction.tokenSymbol (tokenMap tx) <> Some "WETHEREUM".
Proof.
  unfold tokenMap. cbn [Transaction.tokenSymbol].
  destruct (Js.strictEq (Raw.tokenSymbol tx) (Some "WETHEREUM")) eqn:H; [discriminate |].
  intros E. apply (proj2 (strictEq_true _ _)) in E. congruence.
Qed.

Lemma processTokens_origin records l t :
  processTokens records = Return l -> In t l ->
  exists raw, In raw records /\ tokenFilter raw = Return true /\ t = tokenMap raw.
Proof.
  unfold processTokens. destruct (filterThrowing _ _) as [kept|] eqn:Hk; [| discriminate].
  intros [= <-] Hin. apply in_map_iff in Hin as (tx & <- & Hin).
  destruct (filterThrowing_kept _ _ _ _ Hk Hin). eauto.
Qed.

Lemma processInternal_origin records l t :
  processInternal records = Return l -> In t l ->
  exists raw, In raw records /\ internalFilter raw = Return true /\ t = internalMap raw.
Proof.
  unfold processInternal. destruct (filterThrowing _ _) as [kept|] eqn:Hk; [| discriminate].
  intros [= <-] Hin. apply in_map_iff in Hin as (tx & <- & Hin).
  destruct (filterThrowing_kept _ _ _ _ Hk Hin). eauto.
Qed.

(** Where an assembled transaction comes from. *)
Lemma assemble_origin first second fallback l t :
  assemble first second fallback = Return l -> In t l ->
  (exists raw,
      tokenFilter raw = Return true /\ t = tokenMap raw
      /\ match first with
         | Return records => In raw records
         | Throw _ => exists records, fallback = Return records /\ In raw records
         end)
  \/ (exists raw records,
        second = Return records /\ In raw records
        /\ internalFilter raw = Return true /\ t = internalMap raw).
Proof.
  unfold assemble.
  destruct (match first with Return _ => _ | Throw _ => _ end) as [tokens|] eqn:Htok;
    [| discriminate].
  destruct (match second with Return _ => _ | Throw _ => _ end) as [eth|] eqn:Heth;
    [| discriminate].
  intros [= <-] Hin. apply dedup_In in Hin. apply in_app_iff in Hin as [Hin|Hin].
  - left. destruct first as [T|].
    + destruct (processTokens_origin _ _ _ Htok Hin) as (raw & ? & ? & ?). eauto.
    + destruct fallback as [T|]; injection Htok as <-; [| destruct Hin].
      unfold caught in Hin. destruct (processTokens T) eqn:HT; [| destruct Hin].
      destruct (processTokens_origin _ _ _ HT Hin) as (raw & ? & ? & ?). eauto 10.
  - right. destruct second as [R|]; [| injection Heth as <-; destruct Hin].
    destruct (processInternal_origin _ _ _ Heth Hin) as (raw & ? & ? & ?). eauto 10.
Qed.

(** X7: every transaction returned by [fetchEthereumTransactions] is
    built by [tokenMap] or by [internalMap] from a raw record that was
    fetched and that the filter of its category kept: a record of the
    list that the token-transfer query returned, or, when that query
    failed, its fallback retry, for [tokenMap]; a record of the list that
    the internal-transfer query returned for [internalMap].  It has the
    hash, value, sender and recipient of that record.  Its network is
    "ethereum"; its symbol is never "WETHEREUM", which [tokenMap] renames
    to "WETH"; built by [internalMap], its symbol is "ETH" with 18
    decimals.  It was sent to the tracked contract, carries a positive
    value, and its timestamp is NaN or at or after the cutoff. *)
Theorem returned_transactions_are_normalised
    (upstream : nat -> string -> Exchange) (key : option string) (w : World)
    (t : Transaction.t) :
  In t (caught (fst (fetchEthereumTransactions upstream key w))) ->
  Transaction.network t = "ethereum"
  /\ Transaction.tokenSymbol t <> Some "WETHEREUM"
  /\ retainedInvariant t
  /\ exists k raw records,
       key = Some k
       /\ In raw records
       /\ Transaction.hash t = Raw.hash raw
       /\ Transaction.value t = Raw.value raw
       /\ Transaction.from t = Raw.from raw
       /\ Transaction.to t = Raw.to raw
       /\ ((tokenFilter raw = Return true /\ t = tokenMap raw
            /\ (fst (fetchWithRetry upstream (tokenUrl k) 3 w) = Return records
                \/ (exists e, fst (fetchWithRetry upstream (tokenUrl k) 3 w) = Throw e)
                   /\ fst (fetchWithRetry upstream (tokenUrl k) 3 (beforeRetry upstream k w))
                      = Return records))
           \/ (internalFilter raw = Return true /\ t = internalMap raw
               /\ fst (fetchWithRetry upstream (internalUrl k) 3 (beforeInternal upstream k w))
                  = Return records
               /\ Transaction.tokenSymbol t = Some "ETH"
               /\ Transaction.tokenDecimal t = Js.Num 18)).
Proof.
  destruct key as [[|c s]|]; try (cbn; tauto).
  rewrite fetchEthereumTransactions_outcome by discriminate.
  cbn [caught]. destruct (assemble _ _ _) eqn:H; cbn [caught In]; [| tauto].
  intros Hin.
  destruct (assemble_origin _ _ _ _ _ H Hin)
    as [(raw & Hf & -> & Hfrom) | (raw & records & Hsecond & Hraw & Hf & ->)].
  - split; [reflexivity |]. split; [apply tokenMap_symbol |].
    split; [now apply tokenMap_invariant |].
    destruct (fst (fetchWithRetry upstream (tokenUrl (String c s)) 3 w))
      as [records | e] eqn:Hfirst.
    + exists (String c s), raw, records.
      repeat (split; [reflexivity || assumption |]). left. repeat split; auto.
    + destruct Hfrom as (records & Hfallback & Hraw).
      exists (String c s), raw, records.
      repeat (split; [reflexivity || assumption |]). left. repeat split; eauto.
  - split; [reflexivity |]. split; [discriminate |].
    split; [now apply internalMap_invariant |].
    exists (String c s), raw, records.
    repeat (split; [reflexivity || assumption |]). right. repeat split; assumption.
Qed.

(** A token transfer that the ledger labels "WETHEREUM". *)
Lemma wethereum_is_returned_as_weth :
  Transaction.network (tokenMap abcToken) = "ethereum"
  /\ Transaction.tokenSymbol (tokenMap abcToken) <> Some "WETHEREUM"
  /\ Transaction.tokenSymbol (tokenMap abcToken) = Some "WETH"
  /\ Raw.tokenSymbol abcToken = Some "WETHEREUM".
Proof.
  destruct (returned_transactions_are_normalised
              (serve (found [abcToken]) (found [abcInternal])) (Some sampleKey) freshWorld
              (tokenMap abcToken)) as (Hn & Hs & _).
  - vm_compute. left. reflexivity.
  - split; [exact Hn |]. split; [exact Hs |]. split; reflexivity.
Defined.

(** ** The defaults of the normalisation *)

Lemma parseIntField_falsy v : Js.truthy v = false -> Js.parseIntField v = Js.NaN.
Proof. destruct v as [[|c s]|]; [reflexivity | discriminate | reflexivity]. Qed.

(** X8: the defaults of the two [.map] callbacks.  A token transfer
    without [tokenDecimal] (absent, or empty) gets 18 decimals, one whose
    [tokenDecimal] is a string of decimal digits that denotes at most
    2^53 gets that number; an internal transfer always gets the symbol
    "ETH" and 18 decimals.  Without [blockNumber] an internal transfer
    gets the block number 0 and a token transfer gets NaN, since only the
    internal map has a default; a string of decimal digits that denotes
    at most 2^53 is read as that number by both. *)
Theorem field_defaults (tx : Raw.t) :
  (Js.truthy (Raw.tokenDecimal tx) = false ->
     Transaction.tokenDecimal (tokenMap tx) = Js.Num 18)
  /\ (forall s, Raw.tokenDecimal tx = Some s -> isDecimal s = true ->
        decimalValue s <= 2 ^ 53 ->
        Transaction.tokenDecimal (tokenMap tx) = Js.Num (decimalValue s))
  /\ Transaction.tokenDecimal (internalMap tx) = Js.Num 18
  /\ Transaction.tokenSymbol (internalMap tx) = Some "ETH"
  /\ (Js.truthy (Raw.blockNumber tx) = false ->
        Transaction.blockNumber (internalMap tx) = Js.Num 0
        /\ Transaction.blockNumber (tokenMap tx) = Js.NaN)
  /\ (forall s, Raw.blockNumber tx = Some s -> isDecimal s = true ->
        decimalValue s <= 2 ^ 53 ->
        Transaction.blockNumber (internalMap tx) = Js.Num (decimalValue s)
        /\ Transaction.blockNumber (tokenMap tx) = Js.Num (decimalValue s)).
Proof.
  assert (Htruthy : forall s, isDecimal s = true -> Js.truthy (Some s) = true)
    by (intros [|c s]; [discriminate | reflexivity]).
  unfold tokenMap, internalMap.
  cbn [Transaction.tokenDecimal Transaction.tokenSymbol Transaction.blockNumber].
  split; [| split; [| split; [| split; [| split]]]].
  - intros H. rewrite H. reflexivity.
  - intros s Hs Hd _. rewrite Hs, (Htruthy s Hd). cbn [Js.parseIntField].
    now apply parseInt_decimal_string.
  - reflexivity.
  - reflexivity.
  - intros H. rewrite H. split; [reflexivity | now apply parseIntField_falsy].
  - intros s Hs Hd _. rewrite Hs, (Htruthy s Hd). cbn [Js.parseIntField].
    split; now apply parseInt_decimal_string.
Qed.

(** A USDC transfer keeps its 6 decimals and its block number; a token
    transfer without [tokenDecimal] gets 18 decimals. *)
Lemma usdc_transfer_has_six_decimals :
  Transaction.tokenDecimal (tokenMap usdcTransfer) = Js.Num 6
  /\ Transaction.blockNumber (tokenMap usdcTransfer) = Js.Num 23630000
  /\ Transaction.tokenDecimal (tokenMap abcToken) = Js.Num 18.
Proof.
  destruct (field_defaults usdcTransfer) as (_ & Hdecimals & _ & _ & _ & Hblock).
  destruct (field_defaults abcToken) as (Hdefault & _).
  split; [| split].
  - apply (Hdecimals "6"); [reflexivity | reflexivity | vm_compute; discriminate].
  - apply (Hblock "23630000"); [reflexivity | reflexivity | vm_compute; discriminate].
  - apply Hdefault. reflexivity.
Defined.

(** ** The effects of [fetchEthereumTransactions] *)

Lemma tokenUrl_internalUrl k : tokenUrl k <> internalUrl k.
Proof. unfold tokenUrl, internalUrl, apiBase. cbn. intros [=]. Qed.

(** A miss stays a miss as long as the entry of the URL is not written. *)
Lemma getCachedData_miss_mono url w w' :
  getCachedData url w = None ->
  API_CACHE w' !! url = API_CACHE w !! url -> now w <= now w' ->
  getCachedData url w' = None.
Proof.
  unfold getCachedData. intros H -> Hnow.
  destruct (API_CACHE w !! url) as [cached|]; [| reflexivity].
  destruct (now w - timestamp cached <? CACHE_DURATION) eqn:Hfresh; [discriminate |].
  apply Z.ltb_ge in Hfresh.
  replace (now w' - timestamp cached <? CACHE_DURATION) with false; [reflexivity |].
  symmetry. apply Z.ltb_ge. lia.
Qed.

(** The world in which [fetchEthereumTransactions] ends: the one after
    the internal-transfer query, or after the fallback retry when the
    token-transfer query failed. *)
Lemma fetchEthereumTransactions_world upstream k w :
  k <> "" ->
  snd (fetchEthereumTransactions upstream (Some k) w) =
  match fst (fetchWithRetry upstream (tokenUrl k) 3 w) with
  | Return _ => beforeRetry upstream k w
  | Throw _ => snd (fetchWithRetry upstream (tokenUrl k) 3 (beforeRetry upstream k w))
  end.
Proof.
  intros Hk. destruct k as [|c s]; [congruence | clear Hk].
  unfold beforeRetry, beforeInternal.
  unfold fetchEthereumTransactions, fetchEthereumTransactions_body,
    bind, allSettled, tryCatch, lift, ret, sleep.
  destruct (fetchWithRetry upstream (tokenUrl (String c s)) 3 w) as [[T|e1] w1];
    cbn [fst snd];
    destruct (fetchWithRetry upstream (internalUrl (String c s)) 3 _) as [[R|e2] w3];
    cbn [fst snd].
  - destruct (processTokens T); [destruct (processInternal R) |]; reflexivity.
  - destruct (processTokens T); reflexivity.
  - destruct (fetchWithRetry upstream (tokenUrl (String c s)) 3 w3) as [[T'|?] w4];
      cbn [fst snd]; [destruct (processTokens T') |];
      destruct (processInternal R); reflexivity.
  - destruct (fetchWithRetry upstream (tokenUrl (String c s)) 3 w3) as [[T'|?] w4];
      cbn [fst snd]; [destruct (processTokens T') |]; reflexivity.
Qed.

(** X9: with a key, one call of [fetchEthereumTransactions] sends at
    most 3 requests for the token-transfer URL, awaits 1000 ms, sends at
    most 3 requests for the internal-transfer URL and, only when the
    token-transfer query failed, which took exactly 3 requests, between 1
    and 3 more requests for the token-transfer URL: at most 9 requests,
    none of them for another URL.  The delays are those of the calls of
    [fetchWithRetry], with the pause of 1000 ms after the first call; at
    least 1000 ms pass.  The two URLs differ. *)
Theorem fetchEthereumTransactions_effort
    (upstream : nat -> string -> Exchange) (k : string) (w : World) :
  k <> "" ->
  let w' := snd (fetchEthereumTransactions upstream (Some k) w) in
  exists a b c,
    (a <= 3)%nat /\ (b <= 3)%nat /\ (c <= 3)%nat
    /\ requests w'
       = (requests w ++ repeat (tokenUrl k) a ++ repeat (internalUrl k) b
            ++ repeat (tokenUrl k) c)%list
    /\ delays w' = (delays w ++ waits a ++ [1000] ++ waits b ++ waits c)%list
    /\ (forall T, fst (fetchWithRetry upstream (tokenUrl k) 3 w) = Return T -> c = 0%nat)
    /\ (forall e, fst (fetchWithRetry upstream (tokenUrl k) 3 w) = Throw e ->
          a = 3%nat /\ c <> 0%nat)
    /\ now w + 1000 <= now w'
    /\ tokenUrl k <> internalUrl k.
Proof.
  intros Hk w'. subst w'. rewrite (fetchEthereumTransactions_world upstream k w Hk).
  unfold beforeRetry, beforeInternal.
  destruct (fetchWithRetry_footprint upstream (tokenUrl k) 3 w)
    as (a & Ha & Hreq1 & Hdel1 & Hnow1 & Hother1 & Hthrow1 & _ & _).
  set (w1 := snd (fetchWithRetry upstream (tokenUrl k) 3 w)) in *.
  set (wb := snd (sleep 1000 w1)).
  assert (Hwb : requests wb = requests w1 /\ delays wb = (delays w1 ++ [1000])%list
                /\ now wb = now w1 + 1000 /\ API_CACHE wb = API_CACHE w1)
    by (repeat split; reflexivity).
  destruct Hwb as (Hreqb & Hdelb & Hnowb & Hcacheb). clearbody wb.
  destruct (fetchWithRetry_footprint upstream (internalUrl k) 3 wb)
    as (b & Hb & Hreq2 & Hdel2 & Hnow2 & Hother2 & _ & _ & _).
  set (w2 := snd (fetchWithRetry upstream (internalUrl k) 3 wb)) in *.
  pose proof (sumZ_backoff_nonneg (seq 0 (a - 1))) as Hsa.
  pose proof (sumZ_backoff_nonneg (seq 0 (b - 1))) as Hsb.
  pose proof (tokenUrl_internalUrl k) as Hne.
  destruct (fst (fetchWithRetry upstream (tokenUrl k) 3 w)) as [T|e] eqn:Hfirst.
  - exists a, b, 0%nat. cbn [repeat]. unfold waits at 3. cbn [seq map Nat.sub].
    rewrite !app_nil_r, Hreq2, Hdel2, Hreqb, Hdelb, Hreq1, Hdel1, <- !app_assoc.
    repeat split; auto; try lia; discriminate.
  - destruct (Hthrow1 e eq_refl) as (-> & Hcache1 & Hmiss).
    assert (Hmiss2 : getCachedData (tokenUrl k) w2 = None).
    { apply (getCachedData_miss_mono _ w); [exact Hmiss | | lia].
      rewrite Hother2, Hcacheb, Hcache1 by exact Hne. reflexivity. }
    destruct (fetchWithRetry_footprint upstream (tokenUrl k) 3 w2)
      as (c & Hc & Hreq3 & Hdel3 & Hnow3 & _ & _ & _ & Hsome).
    pose proof (sumZ_backoff_nonneg (seq 0 (c - 1))) as Hsc.
    exists 3%nat, b, c.
    rewrite Hreq3, Hdel3, Hreq2, Hdel2, Hreqb, Hdelb, Hreq1, Hdel1, <- !app_assoc.
    repeat split; auto; try lia; try discriminate.
Qed.

(** The token-transfer query is answered 429 every time: three requests
    for it, one for the internal transfers, and three more for it. *)
Lemma failing_token_query_is_retried_after_the_internal_one :
  let upstream := serve tooManyRequests (found [ethTransfer]) in
  let w' := snd (fetchEthereumTransactions upstream (Some sampleKey) freshWorld) in
  requests w'
  = (repeat (tokenUrl sampleKey) 3 ++ repeat (internalUrl sampleKey) 1
       ++ repeat (tokenUrl sampleKey) 3)%list
  /\ delays w' = [1000; 2000; 1000; 1000; 2000]
  /\ exists a b c,
       (a <= 3)%nat /\ (b <= 3)%nat /\ (c <= 3)%nat
       /\ requests w'
          = (requests freshWorld ++ repeat (tokenUrl sampleKey) a
               ++ repeat (internalUrl sampleKey) b ++ repeat (tokenUrl sampleKey) c)%list.
Proof.
  cbv zeta. split; [vm_compute; reflexivity |]. split; [vm_compute; reflexivity |].
  destruct (fetchEthereumTransactions_effort (serve tooManyRequests (found [ethTransfer]))
              sampleKey freshWorld ltac:(discriminate))
    as (a & b & c & Ha & Hb & Hc & Hreq & _).
  exists a, b, c. repeat split; assumption.
Defined.

(** ** A second call within the cache window *)

Lemma assemble_both T R fallback fallback' :
  assemble (Return T) (Return R) fallback = assemble (Return T) (Return R) fallback'.
Proof. reflexivity. Qed.

(** X10: when, with neither URL in the cache, both queries of a call of
    [fetchEthereumTransactions] get a good answer at the first attempt,
    the call sends two requests, and a later call, one that starts once
    the first has returned and less than 30 minutes after the first one
    started, returns the same list without sending anything, whatever
    the upstream would answer: its only effect is the pause of 1000 ms.
    Calls that overlap are not covered: the world of this file runs one
    call at a time. *)
Theorem second_call_is_served_from_the_cache
    (upstream : nat -> string -> Exchange) (k : string) (w : World) (T R : list Raw.t) :
  k <> "" ->
  getCachedData (tokenUrl k) w = None ->
  getCachedData (internalUrl k) w = None ->
  delivers (outcome (upstream (length (requests w)) (tokenUrl k))) T ->
  delivers (outcome (upstream (S (length (requests w))) (internalUrl k))) R ->
  let first := fetchEthereumTransactions upstream (Some k) w in
  requests (snd first) = (requests w ++ [tokenUrl k; internalUrl k])%list
  /\ forall (upstream' : nat -> string -> Exchange) (ms : N),
       now (snd first) + Z.of_N ms < now w + CACHE_DURATION ->
       fetchEthereumTransactions upstream' (Some k) (elapse ms (snd first))
       = (fst first, snd (sleep 1000 (elapse ms (snd first)))).
Proof.
  intros Hk HmissT HmissR HT HR first.
  pose proof (tokenUrl_internalUrl k) as Hne.
  (* the first call *)
  pose proof (fetchWithRetry_first_answer upstream (tokenUrl k) 2 w T HmissT HT) as H1.
  set (wa := stored upstream (tokenUrl k) T w) in *.
  set (wb := snd (sleep 1000 wa)).
  assert (Hlat : now w <= now wa).
  { subst wa. unfold stored, answered. cbn.
    pose proof (N2Z.is_nonneg (latency (upstream (length (requests w)) (tokenUrl k)))). lia. }
  assert (HmissR' : getCachedData (internalUrl k) wb = None).
  { apply (getCachedData_miss_mono _ w); [exact HmissR | | subst wb; cbn; lia].
    subst wb wa. unfold stored, answered. cbn. apply lookup_insert_ne. exact Hne. }
  assert (Hlen : length (requests wb) = S (length (requests w))).
  { subst wb wa. unfold stored, answered. cbn. rewrite length_app. cbn. lia. }
  rewrite <- Hlen in HR.
  pose proof (fetchWithRetry_first_answer upstream (internalUrl k) 2 wb R HmissR' HR) as H2.
  set (wc := stored upstream (internalUrl k) R wb) in *.
  assert (Hlat' : now wb <= now wc).
  { subst wc. unfold stored, answered. cbn.
    pose proof (N2Z.is_nonneg (latency (upstream (length (requests wb)) (internalUrl k)))).
    lia. }
  assert (Hbefore : beforeRetry upstream k w = wc).
  { unfold beforeRetry, beforeInternal. rewrite H1. cbn [snd]. fold wb. now rewrite H2. }
  assert (Hsnd : snd first = wc).
  { subst first. rewrite (fetchEthereumTransactions_world upstream k w Hk), H1. exact Hbefore. }
  assert (Hfst : fst first
                 = Return (caught (assemble (Return T) (Return R) (Return [])))).
  { subst first. rewrite (fetchEthereumTransactions_outcome upstream k w Hk), H1.
    cbn [fst]. unfold beforeInternal. rewrite H1. cbn [snd]. fold wb. rewrite H2. reflexivity. }
  rewrite Hsnd, Hfst. split.
  - subst wc wb wa. unfold stored, answered. cbn. now rewrite <- app_assoc.
  - intros upstream' ms Hms.
    (* the second call *)
    set (v := elapse ms wc).
    assert (HhitT : getCachedData (tokenUrl k) v = Some T).
    { subst v. unfold getCachedData, elapse. cbn [API_CACHE now].
      replace (API_CACHE wc !! tokenUrl k) with (Some (mkEntry T (now wa))).
      2:{ subst wc wb wa. unfold stored, answered. cbn.
          rewrite lookup_insert_ne by (intros E; apply Hne; now symmetry).
          now rewrite lookup_insert_eq. }
      cbn [timestamp data].
      replace (now wc + Z.of_N ms - now wa <? CACHE_DURATION) with true; [reflexivity |].
      symmetry. apply Z.ltb_lt. lia. }
    pose proof (fetchWithRetry_hit upstream' (tokenUrl k) 3 v T HhitT) as G1.
    set (vb := snd (sleep 1000 v)).
    assert (HhitR : getCachedData (internalUrl k) vb = Some R).
    { subst vb v. unfold getCachedData, elapse. cbn [sleep snd API_CACHE now].
      replace (API_CACHE wc !! internalUrl k) with (Some (mkEntry R (now wc))).
      2:{ subst wc. unfold stored. cbn. now rewrite lookup_insert_eq. }
      cbn [timestamp data].
      replace (now wc + Z.of_N ms + 1000 - now wc <? CACHE_DURATION) with true; [reflexivity |].
      symmetry. apply Z.ltb_lt. subst wb. cbn [sleep snd now] in Hlat'. lia. }
    pose proof (fetchWithRetry_hit upstream' (internalUrl k) 3 vb R HhitR) as G2.
    assert (Hbefore' : beforeRetry upstream' k v = vb).
    { unfold beforeRetry, beforeInternal. rewrite G1. cbn [snd]. fold vb. now rewrite G2. }
    rewrite (surjective_pairing (fetchEthereumTransactions upstream' (Some k) v)).
    rewrite (fetchEthereumTransactions_world upstream' k v Hk), G1, Hbefore'.
    rewrite (fetchEthereumTransactions_outcome upstream' k v Hk), G1.
    unfold beforeInternal. rewrite G1. cbn [snd fst]. fold vb. rewrite G2. reflexivity.
Qed.

(** Five minutes after a call that was served both lists, the upstream
    answers 429 to everything: the second call returns the same two
    transactions. *)
Lemma a_call_five_minutes_later_sends_nothing :
  let upstream := serve (found [usdcTransfer]) (found [ethTransfer]) in
  let first := fetchEthereumTransactions upstream (Some sampleKey) freshWorld in
  fst first = Return [tokenMap usdcTransfer; internalMap ethTransfer]
  /\ fetchEthereumTransactions (serve tooManyRequests tooManyRequests) (Some sampleKey)
       (elapse 300000 (snd first))
     = (fst first, snd (sleep 1000 (elapse 300000 (snd first)))).
Proof.
  cbv zeta. split; [vm_compute; reflexivity |].
  apply (second_call_is_served_from_the_cache
           (serve (found [usdcTransfer]) (found [ethTransfer])) sampleKey freshWorld
           [usdcTransfer] [ethTransfer]).
  - discriminate.
  - reflexivity.
  - reflexivity.
  - exists 200, "OK", (Some "1"), (Some "OK"), (ResultArray [usdcTransfer]).
    repeat split. discriminate.
  - exists 200, "OK", (Some "1"), (Some "OK"), (ResultArray [ethTransfer]).
    repeat split. discriminate.
  - vm_compute. reflexivity.
Defined.

(** ** [parseTransactionValue] outside the range of [decimals] *)

Section DecimalsRange.
Local Open Scope Q_scope.

Lemma Qfloor_unit y : 0 <= y -> y < 1 -> Qfloor y = 0%Z.
Proof.
  intros H0 H1. pose proof (Qfloor_le y) as Hlo. pose proof (Qlt_floor y) as Hhi.
  assert (Hlt : (Qfloor y < 1)%Z) by (rewrite Zlt_Qlt; change (inject_Z 1) with 1; lra).
  assert (Hgt : (0 < Qfloor y + 1)%Z) by (rewrite Zlt_Qlt; change (inject_Z 0) with 0; lra).
  lia.
Qed.

(** A Number between 0 and 1 is the BigInt 0 or is no BigInt. *)
Lemma toBigInt_unit y :
  0 <= y -> y < 1 ->
  Float.toBigInt (Float.Finite y) = None \/ Float.toBigInt (Float.Finite y) = Some 0%Z.
Proof.
  intros H0 H1. unfold Float.toBigInt. rewrite (Qfloor_unit y H0 H1).
  destruct (Qeq_bool _ _); auto.
Qed.

Lemma nearestEven_nonneg z : 0 <= z -> (0 <= Float.nearestEven z)%Z.
Proof.
  intros Hz. unfold Float.nearestEven.
  assert (H : (0 <= Qfloor z)%Z) by (change 0%Z with (Qfloor 0); now apply Qfloor_resp_le).
  destruct (Qcompare _ _); [destruct (Z.even _) | |]; lia.
Qed.

(** Rounding a positive rational that is at most one tenth gives a Number
    between 0 and one eighth. *)
Lemma roundPositive_small x :
  0 < x -> x <= 1 # 10 ->
  exists y, Float.roundPositive x = Float.Finite y /\ 0 <= y /\ y <= 1 # 8.
Proof.
  intros Hx Hsmall.
  pose proof (ilog2_le x Hx) as HL. pose proof (ilog2_lt x Hx) as HU.
  unfold Float.roundPositive.
  set (L := Float.ilog2 x) in *.
  assert (HL4 : (L <= -4)%Z).
  { destruct (Z_le_gt_dec L (-4)) as [H | H]; [exact H | exfalso].
    assert (2 ^ (-3) <= 2 ^ L) by (apply Qpower_le_compat_l; [lia | discriminate]).
    assert (1 # 10 < 2 ^ (-3)) by reflexivity. lra. }
  set (e := Z.max (L - 52) (-1074)).
  assert (He1 : (L - 52 <= e)%Z) by (subst e; lia).
  assert (He2 : (e <= -56)%Z) by (subst e; lia).
  pose proof (pow2_pos e) as HP.
  set (m := Float.nearestEven (x / 2 ^ e)).
  pose proof (nearestEven_error (x / 2 ^ e)) as Hm. fold m in Hm.
  apply Qabs_Qle_condition in Hm.
  assert (Hz0 : 0 <= x / 2 ^ e) by (apply Qle_shift_div_l; lra).
  assert (Hz53 : x / 2 ^ e < 2 ^ 53).
  { apply Qlt_shift_div_r; [exact HP |].
    assert (Hsplit : 2 ^ (e + 53) == 2 ^ 53 * 2 ^ e).
    { rewrite Qpower_plus by discriminate. ring. }
    assert (2 ^ (L + 1) <= 2 ^ (e + 53))
      by (apply Qpower_le_compat_l; [lia | discriminate]).
    lra. }
  assert (Hm0 : (0 <= m)%Z) by (subst m; now apply nearestEven_nonneg).
  assert (Hm53 : (m <= 2 ^ 53)%Z).
  { apply Z.lt_succ_r. rewrite Zlt_Qlt.
    change (inject_Z (Z.succ (2 ^ 53))) with (2 ^ 53 + 1). lra. }
  replace ((971 <? e)%Z || ((e =? 971)%Z && (2 ^ 53 <=? m)%Z))%bool with false.
  2:{ symmetry. apply orb_false_iff. split; [apply Z.ltb_ge; lia |].
      apply andb_false_iff. left. apply Z.eqb_neq. lia. }
  exists (inject_Z m * 2 ^ e). split; [reflexivity |].
  assert (HQm0 : 0 <= inject_Z m) by (rewrite <- (Zle_Qle 0); exact Hm0).
  assert (HQm53 : inject_Z m <= 2 ^ 53)
    by (change (2 ^ 53) with (inject_Z (2 ^ 53)); rewrite <- Zle_Qle; exact Hm53).
  assert (HP56 : 2 ^ e <= 2 ^ (-56)) by (apply Qpower_le_compat_l; [lia | discriminate]).
  split.
  - apply Qmult_le_0_compat; lra.
  - assert (inject_Z m * 2 ^ e <= 2 ^ 53 * 2 ^ e) by (apply Qmult_le_compat_r; lra).
    assert (2 ^ 53 * 2 ^ e <= 2 ^ 53 * 2 ^ (-56)).
    { rewrite !(Qmult_comm (2 ^ 53)). apply Qmult_le_compat_r; [exact HP56 | discriminate]. }
    assert (2 ^ 53 * 2 ^ (-56) == 1 # 8) by reflexivity.
    lra.
Qed.

(** [BigInt(10 ** decimals)] throws, or is [0n], for a negative
    [decimals], and throws from 309 on, where [10 ** decimals] is
    Infinity. *)
Lemma divisor_out_of_range decimals :
  (decimals < 0 \/ 308 < decimals)%Z ->
  Float.toBigInt (Float.pow10 decimals) = None
  \/ Float.toBigInt (Float.pow10 decimals) = Some 0%Z.
Proof.
  intros [Hneg | Hbig]; unfold Float.pow10.
  - assert (Hpos : 0 < 10 ^ decimals) by (apply Qpower_0_lt; reflexivity).
    assert (Hle : 10 ^ decimals <= 1 # 10).
    { assert (10 ^ decimals <= 10 ^ (-1))
        by (apply Qpower_le_compat_l; [lia | discriminate]).
      assert (10 ^ (-1) == 1 # 10) by reflexivity. lra. }
    unfold Float.round. apply Qlt_alt in Hpos as Hcmp. apply Qgt_alt in Hpos as Hgt.
    rewrite Hgt.
    destruct (roundPositive_small _ Hpos Hle) as (y & -> & Hy0 & Hy8).
    apply toBigInt_unit; lra.
  - left. rewrite round_overflow; [reflexivity |].
    assert (10 ^ 309 <= 10 ^ decimals)
      by (apply Qpower_le_compat_l; [lia | discriminate]).
    assert (2 ^ 1024 - 2 ^ 970 <= 10 ^ 309) by (apply Qlt_le_weak; reflexivity).
    lra.
Qed.

End DecimalsRange.

(** X11: for a negative [decimals], and for [decimals] above 308,
    [parseTransactionValue] returns 0 whatever the value: [10 ** decimals]
    is then a fraction, 0 or Infinity, so that [BigInt(10 ** decimals)]
    throws a RangeError, or the division by [0n] does, and the [catch]
    returns 0. *)
Theorem decimals_out_of_range_give_zero (value : string) (decimals : Z) :
  decimals < 0 \/ 308 < decimals ->
  parseTransactionValue value decimals = Float.Finite 0
  /\ (forall n, Js.BigInt value = Some n ->
        parseTransactionValue_body value decimals = Throw BigIntRangeError).
Proof.
  intros Hd. unfold parseTransactionValue, parseTransactionValue_body.
  destruct (Js.BigInt value) as [n|]; [| split; [reflexivity | discriminate]].
  destruct (divisor_out_of_range decimals Hd) as [-> | ->]; split; reflexivity || auto.
Qed.

(** One million units at -6 and at 309 decimals. *)
Lemma any_amount_at_minus_six_decimals_is_zero :
  parseTransactionValue "1000000" (-6) = Float.Finite 0
  /\ parseTransactionValue "1000000" 309 = Float.Finite 0.
Proof.
  split.
  - apply (decimals_out_of_range_give_zero "1000000" (-6)). left. lia.
  - apply (decimals_out_of_range_give_zero "1000000" 309). right. lia.
Defined.

(** ** [parseTransactionValue] on whole amounts *)

Section Exact.
Local Open Scope Q_scope.

Lemma nearestEven_integer z (k : Z) : z == inject_Z k -> Float.nearestEven z = k.
Proof.
  intros Hz. unfold Float.nearestEven.
  rewrite (Qfloor_comp _ _ Hz), Qfloor_Z.
  destruct (Qcompare_spec (z - inject_Z k) (1 # 2)) as [He | Hl | Hg];
    [exfalso; lra | reflexivity | exfalso; lra].
Qed.

Lemma nearestEven_floor z : (Qfloor z <= Float.nearestEven z)%Z.
Proof.
  unfold Float.nearestEven.
  destruct (Qcompare _ _); [destruct (Z.even _) | |]; lia.
Qed.

(** An integer of at most 53 bits is a binary64 value: rounding leaves it
    as it is. *)
Lemma round_integer x (n : Z) :
  x == inject_Z n -> (0 <= n <= 2 ^ 53)%Z ->
  exists y, Float.round x = Float.Finite y /\ y == x.
Proof.
  intros Hx Hn. unfold Float.round.
  destruct (Z.eq_dec n 0%Z) as [-> | Hn0].
  { change (inject_Z 0) with 0 in Hx. apply Qeq_alt in Hx as Hc. rewrite Hc.
    exists 0. split; [reflexivity | now rewrite Hx]. }
  assert (Hn1 : 1 <= inject_Z n) by (rewrite <- (Zle_Qle 1); lia).
  assert (Hn53 : inject_Z n <= 2 ^ 53).
  { change (2 ^ 53) with (inject_Z (2 ^ 53)). rewrite <- Zle_Qle. lia. }
  assert (Hpos : 0 < x) by lra.
  apply Qgt_alt in Hpos as Hc. rewrite Hc.
  pose proof (ilog2_le x Hpos) as HL. pose proof (ilog2_lt x Hpos) as HU.
  unfold Float.roundPositive. set (L := Float.ilog2 x) in *.
  assert (HL0 : (0 <= L)%Z).
  { apply Z.lt_succ_r. replace (Z.succ L) with (L + 1)%Z by lia.
    apply (Qpower_lt_compat_l_inv 2); [| reflexivity].
    change (2 ^ 0) with 1. lra. }
  assert (HL53 : (L <= 53)%Z).
  { apply (Qpower_le_compat_l_inv 2); [| reflexivity]. lra. }
  rewrite Z.max_l by lia.
  replace ((971 <? L - 52)%Z || ((L - 52 =? 971)%Z && _))%bool with false.
  2:{ symmetry. apply orb_false_iff. split; [apply Z.ltb_ge; lia |].
      apply andb_false_iff. left. apply Z.eqb_neq. lia. }
  eexists. split; [reflexivity |].
  pose proof (pow2_pos (L - 52)) as HP.
  destruct (Z.eq_dec L 53%Z) as [E | E].
  - (* n = 2^53 *)
    rewrite E in *. change (53 - 52)%Z with 1%Z. change (2 ^ 1) with 2 in *.
    assert (Hx53 : x == 2 ^ 53) by lra.
    rewrite (nearestEven_integer (x / 2) (2 ^ 52)).
    + rewrite Hx53. reflexivity.
    + rewrite Hx53. reflexivity.
  - set (s := (52 - L)%Z).
    assert (Hs : (0 <= s)%Z) by (subst s; lia).
    assert (Hpow : 2 ^ (L - 52) == / inject_Z (2 ^ s)).
    { replace (L - 52)%Z with (- s)%Z by (subst s; lia).
      rewrite Qpower_opp, pow2_inject by exact Hs. reflexivity. }
    assert (Hs0 : 0 < inject_Z (2 ^ s)).
    { rewrite pow2_inject by exact Hs. apply pow2_pos. }
    rewrite (nearestEven_integer (x / 2 ^ (L - 52)) (n * 2 ^ s)).
    + rewrite Hpow, inject_Z_mult, Hx. field. lra.
    + rewrite Hpow, inject_Z_mult, Hx. field. lra.
Qed.

(** Rounding an integer other than 0 does not give 0. *)
Lemma round_integer_nonzero (n : Z) :
  n <> 0%Z ->
  (exists s, Float.ofBigInt n = Float.Infinity s)
  \/ (exists y, Float.ofBigInt n = Float.Finite y /\ ~ y == 0).
Proof.
  assert (Hpos : forall x, 1 <= x ->
            Float.roundPositive x = Float.Infinity false
            \/ exists y, Float.roundPositive x = Float.Finite y /\ 0 < y).
  { intros x Hx1. assert (Hx0 : 0 < x) by lra.
    pose proof (ilog2_le x Hx0) as HL. pose proof (ilog2_lt x Hx0) as HU.
    unfold Float.roundPositive. set (L := Float.ilog2 x) in *.
    assert (HL0 : (0 <= L)%Z).
    { apply Z.lt_succ_r. replace (Z.succ L) with (L + 1)%Z by lia.
      apply (Qpower_lt_compat_l_inv 2); [| reflexivity].
      change (2 ^ 0) with 1. lra. }
    rewrite Z.max_l by lia.
    destruct (_ || _)%bool; [now left | right].
    eexists. split; [reflexivity |].
    pose proof (pow2_pos (L - 52)) as HP.
    assert (Hz : 1 <= x / 2 ^ (L - 52)).
    { apply Qle_shift_div_l; [exact HP |].
      assert (2 ^ (L - 52) <= 2 ^ L) by (apply Qpower_le_compat_l; [lia | discriminate]).
      lra. }
    assert (Hm : (1 <= Float.nearestEven (x / 2 ^ (L - 52)))%Z).
    { etransitivity; [| apply nearestEven_floor].
      change 1%Z with (Qfloor 1). now apply Qfloor_resp_le. }
    apply Qmult_lt_0_compat; [| exact HP].
    rewrite <- (Zlt_Qlt 0). lia. }
  intros Hn. unfold Float.ofBigInt, Float.round.
  destruct (Qcompare_spec (inject_Z n) 0) as [He | Hl | Hg].
  - exfalso. apply Hn. apply (proj1 (inject_Z_injective n 0)). exact He.
  - assert (H1 : 1 <= - inject_Z n).
    { assert (Hz : (n < 0)%Z) by (rewrite (Zlt_Qlt n 0); exact Hl).
      rewrite <- inject_Z_opp, <- (Zle_Qle 1). lia. }
    destruct (Hpos _ H1) as [-> | (y & -> & Hy)]; cbn [Float.neg].
    + left. eauto.
    + right. eexists. split; [reflexivity |]. lra.
  - assert (H1 : 1 <= inject_Z n).
    { assert (Hz : (0 < n)%Z) by (rewrite (Zlt_Qlt 0 n); exact Hg).
      rewrite <- (Zle_Qle 1). lia. }
    destruct (Hpos _ H1) as [-> | (y & -> & Hy)].
    + left. eauto.
    + right. eexists. split; [reflexivity |]. lra.
Qed.

(** [Number(0n) / Number(divisor)] is 0 for a divisor other than [0n]. *)
Lemma zero_remainder (divisor : Z) :
  divisor <> 0%Z ->
  Float.div (Float.ofBigInt 0) (Float.ofBigInt divisor) = Float.Finite 0.
Proof.
  intros Hd. change (Float.ofBigInt 0) with (Float.Finite 0).
  destruct (round_integer_nonzero divisor Hd) as [[s ->] | (y & -> & Hy)]; [reflexivity |].
  unfold Float.div.
  replace (Qeq_bool y 0) with false
    by (symmetry; apply not_true_is_false; intros E; apply Qeq_bool_iff in E; auto).
  unfold Float.round.
  assert (Hz : 0 / y == 0) by (unfold Qdiv; ring).
  apply Qeq_alt in Hz. now rewrite Hz.
Qed.

End Exact.

(** X12: a whole amount is converted exactly: when [value] is a string
    of decimal digits that denotes [q * 10^decimals], with [decimals] from
    0 to 22 and [q] at most [2^53], [parseTransactionValue] returns the
    Number [q]. *)
Theorem whole_amounts_are_exact (value : string) (decimals q : Z) :
  isDecimal value = true ->
  0 <= decimals <= 22 ->
  decimalValue value = q * 10 ^ decimals ->
  0 <= q <= 2 ^ 53 ->
  exists x, parseTransactionValue value decimals = Float.Finite x /\ (x == inject_Z q)%Q.
Proof.
  intros Hdec Hd Hv Hq.
  destruct (BigInt_decimal_string value Hdec) as [HB _].
  destruct (pow10_exact decimals Hd) as (HD & _).
  assert (HDpos : 0 < 10 ^ decimals) by (apply Z.pow_pos_nonneg; lia).
  unfold parseTransactionValue, parseTransactionValue_body. rewrite HB, HD, Hv.
  replace (10 ^ decimals =? 0) with false by (symmetry; apply Z.eqb_neq; lia).
  rewrite Z.quot_mul, Z.rem_mul by lia.
  rewrite zero_remainder by lia.
  destruct (round_integer (inject_Z q) q ltac:(reflexivity) Hq) as (yq & Hyq & Heq).
  unfold Float.ofBigInt. rewrite Hyq. unfold Float.add.
  destruct (round_integer (yq + 0)%Q q) as (y & Hy & Hey).
  - rewrite Heq. ring.
  - exact Hq.
  - exists y. split; [exact Hy |]. rewrite Hey, Heq. ring.
Qed.

(** 1000000 units at 6 decimals are exactly 1. *)
Lemma one_million_units_are_one_usdc :
  exists x, parseTransactionValue "1000000" 6 = Float.Finite x /\ (x == inject_Z 1)%Q.
Proof.
  apply (whole_amounts_are_exact "1000000" 6 1).
  - reflexivity.
  - lia.
  - reflexivity.
  - lia.
Defined.

(** X13: [parseTransactionValue] returns 0, for every [decimals], when
    [BigInt] rejects the value, through the [catch], and also when
    [BigInt] reads the value as [0n], which it does for the empty string
    and for a string of white space: a value that is missing or malformed
    cannot be told from an amount of 0. *)
Theorem value_without_amount_gives_zero (value : string) (decimals : Z) :
  Js.BigInt value = None \/ Js.BigInt value = Some 0 ->
  parseTransactionValue value decimals = Float.Finite 0.
Proof.
  intros [HB | HB]; unfold parseTransactionValue, parseTransactionValue_body; rewrite HB;
    [reflexivity |].
  destruct (Float.toBigInt (Float.pow10 decimals)) as [divisor|]; [| reflexivity].
  destruct (divisor =? 0) eqn:Hz; [reflexivity |]. apply Z.eqb_neq in Hz.
  rewrite Z.quot_0_l, Z.rem_0_l by exact Hz.
  rewrite zero_remainder by exact Hz. reflexivity.
Qed.

(** White space, the empty string and a fraction. *)
Lemma blank_value_is_read_as_zero :
  parseTransactionValue "  " 18 = Float.Finite 0
  /\ parseTransactionValue "" 6 = Float.Finite 0
  /\ parseTransactionValue "12.5" 6 = Float.Finite 0.
Proof.
  split; [| split].
  - apply (value_without_amount_gives_zero "  " 18). right. reflexivity.
  - apply (value_without_amount_gives_zero "" 6). right. reflexivity.
  - apply (value_without_amount_gives_zero "12.5" 6). left. reflexivity.
Defined.

(** ** [Array.prototype.sort] *)

Lemma insertSorted_Permutation {A} (compare : A -> A -> Js.number) x l :
  Permutation (Js.insertSorted compare x l) (x :: l).
Proof.
  induction l as [|y l IH]; cbn [Js.insertSorted]; [reflexivity |].
  destruct (Js.positive (compare x y)); [| reflexivity].
  rewrite IH. apply perm_swap.
Qed.

Lemma sort_Permutation {A} (compare : A -> A -> Js.number) l :
  Permutation (Js.sort compare l) l.
Proof.
  induction l as [|x l IH]; cbn; [reflexivity |].
  rewrite insertSorted_Permutation. now constructor.
Qed.

Lemma notOlder_trans a b c : notOlder a b -> notOlder b c -> notOlder a c.
Proof.
  unfold notOlder.
  destruct (Transaction.timestamp a), (Transaction.timestamp b), (Transaction.timestamp c);
    cbn; try discriminate.
  intros H1 H2. apply Z.leb_le in H1, H2. apply Z.leb_le. lia.
Qed.

(** Sorting by [newestFirst] puts the transactions in descending order of
    timestamp, provided every timestamp is a number. *)
Lemma insertSorted_newestFirst x l :
  dated x -> Forall dated l ->
  StronglySorted notOlder l ->
  StronglySorted notOlder (Js.insertSorted FeesRoute.newestFirst x l).
Proof.
  intros Hx Hl Hs. induction Hs as [|y l Hs IH Hy]; cbn.
  - repeat constructor.
  - apply Forall_cons_iff in Hl as [Hdy Hl].
    unfold FeesRoute.newestFirst, Js.positive, Js.sub, dated in *.
    destruct (Transaction.timestamp x) as [|tx] eqn:Ex; [congruence |].
    destruct (Transaction.timestamp y) as [|ty] eqn:Ey; [congruence |].
    cbn [Js.lt]. destruct (0 <? ty - tx) eqn:Hc.
    + apply Z.ltb_lt in Hc. constructor; [now apply IH |].
      rewrite insertSorted_Permutation.
      constructor; [| exact Hy]. unfold notOlder. rewrite Ex, Ey. cbn.
      apply Z.leb_le. lia.
    + apply Z.ltb_ge in Hc. constructor; [now constructor |].
      assert (Hxy : notOlder x y).
      { unfold notOlder. rewrite Ex, Ey. cbn. apply Z.leb_le. lia. }
      constructor; [exact Hxy |].
      eapply List.Forall_impl; [| exact Hy]. intros z Hz. now apply (notOlder_trans x y z).
Qed.

Lemma sort_newestFirst l :
  Forall dated l -> StronglySorted notOlder (Js.sort FeesRoute.newestFirst l).
Proof.
  induction l as [|x l IH]; cbn; intros Hl; [constructor |].
  apply Forall_cons_iff in Hl as [Hx Hl].
  apply insertSorted_newestFirst; auto.
  now rewrite sort_Permutation.
Qed.

(** The sort is stable: transactions with the same timestamp stay in the
    order they had. *)
Lemma insertSorted_stable ms x l :
  dated x -> Forall dated l ->
  List.filter (stampedAt ms) (Js.insertSorted FeesRoute.newestFirst x l)
  = List.filter (stampedAt ms) (x :: l).
Proof.
  intros Hx Hl. induction l as [|y l IH]; [reflexivity |].
  apply Forall_cons_iff in Hl as [Hy Hl]. specialize (IH Hl).
  cbn [Js.insertSorted].
  unfold FeesRoute.newestFirst, Js.positive, Js.sub, dated in *.
  destruct (Transaction.timestamp x) as [|tx] eqn:Ex; [congruence |].
  destruct (Transaction.timestamp y) as [|ty] eqn:Ey; [congruence |].
  cbn [Js.lt]. destruct (0 <? ty - tx) eqn:Hc; [| reflexivity].
  apply Z.ltb_lt in Hc. cbn [List.filter] in *. rewrite IH.
  unfold stampedAt. rewrite Ex, Ey.
  destruct (tx =? ms) eqn:Dx; [| reflexivity].
  apply Z.eqb_eq in Dx.
  replace (ty =? ms) with false; [reflexivity |].
  symmetry. apply Z.eqb_neq. lia.
Qed.

Lemma sort_stable ms l :
  Forall dated l ->
  List.filter (stampedAt ms) (Js.sort FeesRoute.newestFirst l)
  = List.filter (stampedAt ms) l.
Proof.
  induction l as [|x l IH]; intros Hl; [reflexivity |].
  apply Forall_cons_iff in Hl as [Hx Hl]. cbn [Js.sort].
  rewrite insertSorted_stable; [| exact Hx | now rewrite sort_Permutation].
  cbn [List.filter]. now rewrite (IH Hl).
Qed.

Lemma StronglySorted_lookup {A} (R : A -> A -> Prop) l i j a b :
  StronglySorted R l -> (i < j)%nat -> l !! i = Some a -> l !! j = Some b -> R a b.
Proof.
  intros Hs. revert i j. induction Hs as [|x l Hs IH Hx]; intros i j Hij Hi Hj.
  - destruct i; discriminate.
  - destruct j as [|j]; [lia |]. cbn in Hj. destruct i as [|i].
    + cbn in Hi. injection Hi as <-.
      rewrite List.Forall_forall in Hx. apply Hx.
      apply list_elem_of_In. eapply list_elem_of_lookup_2. exact Hj.
    + cbn in Hi. apply (IH i j); [lia | assumption | assumption].
Qed.

Lemma StronglySorted_split {A} (R : A -> A -> Prop) l1 l2 x y :
  StronglySorted R (l1 ++ l2) -> In x l1 -> In y l2 -> R x y.
Proof.
  induction l1 as [|z l1 IH]; cbn; intros Hs Hx Hy; [destruct Hx |].
  apply StronglySorted_inv in Hs as [Hs Hz].
  destruct Hx as [-> | Hx]; [| now apply IH].
  rewrite List.Forall_forall in Hz. apply Hz. apply in_or_app. now right.
Qed.

Lemma lookup_map_inv {A B} (f : A -> B) (l : list A) i b :
  map f l !! i = Some b -> exists a, l !! i = Some a /\ b = f a.
Proof.
  revert i. induction l as [|y l IH]; intros [|i]; cbn; try discriminate.
  - intros [= <-]. eauto.
  - apply IH.
Qed.

(** ** The fees endpoint *)

(** X14: [recentTransactions] holds the 20 most recent transactions,
    the most recent first.  For transactions whose timestamps are all
    numbers, its length is the lesser of 20 and the number of
    transactions, its entries are in descending order of timestamp, and
    it is built from a selection of the transactions such that no
    transaction left out is more recent than a selected one; transactions
    with the same timestamp keep the order in which the ingestion
    returned them. *)
Theorem recent_transactions_are_the_twenty_newest
    (toUpperCase : string -> string) (prices : gmap string Float.double)
    (transactions : list Transaction.t) :
  Forall dated transactions ->
  let recent := FeesRoute.recentTransactions toUpperCase prices transactions in
  length recent = Nat.min 20 (length transactions)
  /\ (forall i j a b,
        (i < j)%nat -> recent !! i = Some a -> recent !! j = Some b ->
        Js.ge (FeesRoute.Recent.timestamp a) (FeesRoute.Recent.timestamp b) = true)
  /\ exists shown hidden,
       Permutation transactions (shown ++ hidden)
       /\ recent = map (FeesRoute.entry toUpperCase prices) shown
       /\ (forall x y, In x shown -> In y hidden -> notOlder x y)
       /\ (forall ms,
             List.filter (stampedAt ms) (shown ++ hidden)
             = List.filter (stampedAt ms) transactions).
Proof.
  intros Hd recent. subst recent. unfold FeesRoute.recentTransactions, Js.slice0.
  set (sorted := Js.sort FeesRoute.newestFirst transactions).
  assert (Hperm : Permutation sorted transactions) by apply sort_Permutation.
  assert (Hs : StronglySorted notOlder sorted) by now apply sort_newestFirst.
  split; [| split].
  - rewrite length_map, length_firstn. now rewrite (Permutation_length Hperm).
  - intros i j a b Hij Ha Hb.
    apply lookup_map_inv in Ha as (x & Hx & ->), Hb as (y & Hy & ->).
    apply lookup_take_Some in Hx as [Hx _], Hy as [Hy _].
    apply (StronglySorted_lookup notOlder sorted i j x y Hs Hij Hx Hy).
  - exists (firstn 20 sorted), (skipn 20 sorted). split; [| split; [| split]].
    + rewrite firstn_skipn. now symmetry.
    + reflexivity.
    + intros x y Hx Hy.
      apply (StronglySorted_split notOlder (firstn 20 sorted) (skipn 20 sorted));
        [now rewrite firstn_skipn | exact Hx | exact Hy].
    + intros ms. rewrite firstn_skipn. now apply sort_stable.
Qed.

(** The internal transfer is the more recent of the two: it comes
    first. *)
Lemma newer_transfer_is_listed_first :
  let recent := FeesRoute.recentTransactions (fun s => s) ∅
                  [tokenMap usdcTransfer; internalMap ethTransfer] in
  length recent = 2%nat
  /\ map FeesRoute.Recent.hash recent = [Some "0xbbb"; Some "0xaaa"].
Proof.
  cbv zeta.
  destruct (recent_transactions_are_the_twenty_newest (fun s => s) ∅
              [tokenMap usdcTransfer; internalMap ethTransfer]) as (Hlen & _).
  - repeat constructor; discriminate.
  - split; [exact Hlen | reflexivity].
Defined.



(** X16: with the API key unset (absent, or empty) [GET] does not fail:
    [fetchEthereumTransactions] returns the empty list, [aggregateFees]
    is called on the empty list, the prices are asked for no currency,
    and when both return and the logged total can be computed from the
    aggregate, the response is a 200 with that aggregate and an empty
    [recentTransactions]. *)
Theorem fees_endpoint_with_missing_key
    (upstream : nat -> string -> Exchange) (key : option string) (FeeData : Type)
    (aggregateFees : list Transaction.t -> M FeeData)
    (logTotal : FeeData -> Outcome unit)
    (getMultipleTokenPrices : list string -> M (gmap string Float.double))
    (toUpperCase : string -> string) (w w2 w3 : World)
    (data : FeeData) (prices : gmap string Float.double) :
  key = None \/ key = Some "" ->
  aggregateFees [] w = (Return data, w2) ->
  logTotal data = Return tt ->
  getMultipleTokenPrices [] w2 = (Return prices, w3) ->
  FeesRoute.GET upstream key FeeData aggregateFees logTotal getMultipleTokenPrices
    toUpperCase w
  = (Return (FeesRoute.mkResponse 200 FeesRoute.noCache (FeesRoute.Fees data [])), w3).
Proof.
  intros Hkey Hagg Htotal Hprices.
  assert (Hin : fetchEthereumTransactions upstream key w = (Return [], w))
    by (destruct Hkey as [-> | ->]; reflexivity).
  unfold FeesRoute.GET, tryCatch, bind, ret, lift. rewrite Hin, Hagg, Htotal.
  cbn [FeesRoute.currencies fold_left].
  rewrite Hprices. reflexivity.
Qed.

(** No key: the aggregate of no transaction, and no request. *)
Lemma missing_key_is_answered_with_empty_fees :
  FeesRoute.GET quietUpstream None nat countingAggregate (fun _ => Return tt) noPrices
    (fun s => s) freshWorld
  = (Return (FeesRoute.mkResponse 200 FeesRoute.noCache (FeesRoute.Fees 0%nat [])), freshWorld).
Proof.
  apply (fees_endpoint_with_missing_key quietUpstream None nat countingAggregate
           (fun _ => Return tt) noPrices (fun s => s) freshWorld freshWorld freshWorld
           0%nat ∅).
  - left. reflexivity.
  - reflexivity.
  - reflexivity.
  - reflexivity.
Defined.

(** X17: the defaults of an entry of [recentTransactions].  The
    decimals shown are never 0 or NaN: for a transaction whose
    [tokenDecimal] is 0 or NaN the entry is the one of the same
    transaction with 18 decimals, its value divided by [10^18].  When the
    currency has no price, the USD value of a finite amount is 0. *)
Theorem entry_defaults
    (toUpperCase : string -> string) (prices : gmap string Float.double)
    (tx : Transaction.t) :
  (Transaction.tokenDecimal tx = Js.Num 0 \/ Transaction.tokenDecimal tx = Js.NaN ->
     FeesRoute.entry toUpperCase prices tx
     = FeesRoute.entry toUpperCase prices (withDecimals (Js.Num 18) tx))
  /\ FeesRoute.Recent.tokenDecimal (FeesRoute.entry toUpperCase prices tx) <> Js.Num 0
  /\ FeesRoute.Recent.tokenDecimal (FeesRoute.entry toUpperCase prices tx) <> Js.NaN
  /\ (forall v d x,
        prices !! toUpperCase (default "" (Transaction.tokenSymbol tx)) = None ->
        Transaction.value tx = Some v ->
        FeesRoute.Recent.tokenDecimal (FeesRoute.entry toUpperCase prices tx) = Js.Num d ->
        parseTransactionValue v d = Float.Finite x ->
        FeesRoute.Recent.usdValue (FeesRoute.entry toUpperCase prices tx) = Float.Finite 0).
Proof.
  split; [| split; [| split]].
  - intros [H | H]; unfold FeesRoute.entry, withDecimals; cbn [Transaction.tokenDecimal
      Transaction.value Transaction.tokenSymbol Transaction.hash Transaction.timestamp
      Transaction.from Transaction.to Transaction.network]; rewrite H; reflexivity.
  - unfold FeesRoute.entry. cbn [FeesRoute.Recent.tokenDecimal].
    destruct (Transaction.tokenDecimal tx) as [|[| |]]; discriminate.
  - unfold FeesRoute.entry. cbn [FeesRoute.Recent.tokenDecimal].
    destruct (Transaction.tokenDecimal tx) as [|[| |]]; discriminate.
  - intros v d x Hp Hv Hd Hx. unfold FeesRoute.entry in *.
    cbn [FeesRoute.Recent.tokenDecimal FeesRoute.Recent.usdValue] in *.
    rewrite Hv, Hd, Hx.
    replace (prices !! _) with (@None Float.double)
      by (symmetry; destruct (Transaction.tokenSymbol tx); exact Hp).
    cbn [Float.orZero Float.mul]. unfold Float.round.
    assert (Hz : (x * 0 == 0)%Q) by ring.
    apply Qeq_alt in Hz. now rewrite Hz.
Qed.

(** ** The currencies that are priced *)

Lemma setAdd_In set x c : In c (Js.setAdd set x) <-> In c set \/ c = x.
Proof.
  unfold Js.setAdd. destruct (existsb (String.eqb x) set) eqn:H.
  - split; [auto |]. intros [Hc | ->]; [exact Hc |].
    apply existsb_exists in H as (y & Hy & E). apply String.eqb_eq in E. now subst.
  - rewrite in_app_iff. cbn. intuition congruence.
Qed.

Lemma setAdd_NoDup set x : NoDup set -> NoDup (Js.setAdd set x).
Proof.
  intros Hnd. unfold Js.setAdd. destruct (existsb (String.eqb x) set) eqn:H; [exact Hnd |].
  apply NoDup_app. split; [exact Hnd |]. split; [| apply NoDup_singleton].
  intros y Hy Hx. apply list_elem_of_In in Hy, Hx. destruct Hx as [<- | []].
  assert (existsb (String.eqb x) set = true); [| congruence].
  apply existsb_exists. exists x. split; [exact Hy | apply String.eqb_refl].
Qed.

(** X18: the currencies whose prices are asked for are the upper-cased
    symbols of the transactions that have one, each of them once; a
    transaction without a symbol, or with the empty one, contributes
    nothing. *)
Theorem currencies_are_distinct
    (toUpperCase : string -> string) (transactions : list Transaction.t) :
  NoDup (FeesRoute.currencies toUpperCase transactions)
  /\ forall c,
       In c (FeesRoute.currencies toUpperCase transactions)
       <-> exists tx s,
             In tx transactions /\ Transaction.tokenSymbol tx = Some s /\ s <> ""
             /\ c = toUpperCase s.
Proof.
  unfold FeesRoute.currencies.
  assert (H : forall set,
            NoDup set ->
            NoDup (fold_left
                     (fun set tx =>
                        match Transaction.tokenSymbol tx with
                        | Some (String c s) => Js.setAdd set (toUpperCase (String c s))
                        | _ => set
                        end) transactions set)
            /\ forall c,
                 In c (fold_left
                         (fun set tx =>
                            match Transaction.tokenSymbol tx with
                            | Some (String c s) => Js.setAdd set (toUpperCase (String c s))
                            | _ => set
                            end) transactions set)
                 <-> In c set
                     \/ exists tx s,
                          In tx transactions /\ Transaction.tokenSymbol tx = Some s
                          /\ s <> "" /\ c = toUpperCase s).
  { induction transactions as [|tx l IH]; intros set Hnd; cbn [fold_left].
    - split; [exact Hnd |]. intros c. split; [auto |].
      intros [Hc | (tx & s & [] & _)]. exact Hc.
    - destruct (Transaction.tokenSymbol tx) as [[|a s]|] eqn:Hs.
      + destruct (IH set Hnd) as [Hn Hin]. split; [exact Hn |].
        intros c. rewrite Hin. split.
        * intros [Hc | (tx' & s' & Ht & Hrest)]; [now left |].
          right. exists tx', s'. split; [now right | exact Hrest].
        * intros [Hc | (tx' & s' & [<- | Ht] & Hs' & Hne & Hc)]; [now left | congruence |].
          right. eauto 10.
      + destruct (IH _ (setAdd_NoDup set (toUpperCase (String a s)) Hnd)) as [Hn Hin].
        split; [exact Hn |]. intros c. rewrite Hin, setAdd_In. split.
        * intros [[Hc | ->] | (tx' & s' & Ht & Hrest)]; [now left | |].
          -- right. exists tx, (String a s).
             split; [now left |]. split; [exact Hs |]. split; [discriminate | reflexivity].
          -- right. exists tx', s'. split; [now right | exact Hrest].
        * intros [Hc | (tx' & s' & [<- | Ht] & Hs' & Hne & Hc)]; [now left; left | |].
          -- left. right. congruence.
          -- right. eauto 10.
      + destruct (IH set Hnd) as [Hn Hin]. split; [exact Hn |].
        intros c. rewrite Hin. split.
        * intros [Hc | (tx' & s' & Ht & Hrest)]; [now left |].
          right. exists tx', s'. split; [now right | exact Hrest].
        * intros [Hc | (tx' & s' & [<- | Ht] & Hs' & Hne & Hc)]; [now left | congruence |].
          right. eauto 10. }
  destruct (H [] (NoDup_nil_2 (A := string))) as [Hn Hin]. split; [exact Hn |].
  intros c. rewrite Hin. cbn. tauto.
Qed.

(** ** A ledger without transactions *)

(** X19: a ledger without transactions is asked on every call.  When
    neither URL is served from the cache and both queries are answered
    "No transactions found", [fetchEthereumTransactions] returns the
    empty list after two requests and the pause of 1000 ms and leaves the
    cache as it is, so that neither URL is served from the cache at any
    later time either: the next call sends its requests again. *)
Theorem empty_ledger_is_asked_on_every_call
    (upstream : nat -> string -> Exchange) (k : string) (w : World)
    (status1 status2 : Z) (statusText1 statusText2 : string) (result1 result2 : ResultField) :
  k <> "" ->
  getCachedData (tokenUrl k) w = None ->
  getCachedData (internalUrl k) w = None ->
  outcome (upstream (length (requests w)) (tokenUrl k))
  = HttpResponse status1 statusText1
      (Envelope (Some "0") (Some "No transactions found") result1) ->
  ok status1 = true ->
  outcome (upstream (S (length (requests w))) (internalUrl k))
  = HttpResponse status2 statusText2
      (Envelope (Some "0") (Some "No transactions found") result2) ->
  ok status2 = true ->
  let w' := snd (fetchEthereumTransactions upstream (Some k) w) in
  fst (fetchEthereumTransactions upstream (Some k) w) = Return []
  /\ requests w' = (requests w ++ [tokenUrl k; internalUrl k])%list
  /\ delays w' = (delays w ++ [1000])%list
  /\ API_CACHE w' = API_CACHE w
  /\ forall ms : N,
       getCachedData (tokenUrl k) (elapse ms w') = None
       /\ getCachedData (internalUrl k) (elapse ms w') = None.
Proof.
  intros Hk Hm1 Hm2 Ho1 Hok1 Ho2 Hok2 w'.
  assert (H1 : fetchWithRetry upstream (tokenUrl k) 3 w
               = (Return [], answered upstream (tokenUrl k) w)).
  { unfold fetchWithRetry. rewrite Hm1. eauto using retryLoop_nothing_found. }
  set (wa := answered upstream (tokenUrl k) w) in *.
  set (wb := snd (sleep 1000 wa)).
  assert (Hwa : now w <= now wa).
  { subst wa. unfold answered. cbn.
    pose proof (N2Z.is_nonneg (latency (upstream (length (requests w)) (tokenUrl k)))). lia. }
  assert (Hlen : length (requests wb) = S (length (requests w))).
  { subst wb wa. unfold answered. cbn. rewrite length_app. cbn. lia. }
  assert (Hm2' : getCachedData (internalUrl k) wb = None).
  { apply (getCachedData_miss_later _ w); [exact Hm2 | reflexivity | subst wb; cbn; lia]. }
  rewrite <- Hlen in Ho2.
  assert (H2 : fetchWithRetry upstream (internalUrl k) 3 wb
               = (Return [], answered upstream (internalUrl k) wb)).
  { unfold fetchWithRetry. rewrite Hm2'. eauto using retryLoop_nothing_found. }
  set (wc := answered upstream (internalUrl k) wb) in *.
  assert (Hwc : now wb <= now wc).
  { subst wc. unfold answered. cbn.
    pose proof (N2Z.is_nonneg (latency (upstream (length (requests wb)) (internalUrl k)))).
    lia. }
  assert (Hbefore : beforeRetry upstream k w = wc).
  { unfold beforeRetry, beforeInternal. rewrite H1. cbn [snd]. fold wb. now rewrite H2. }
  assert (Hw' : w' = wc).
  { subst w'. rewrite (fetchEthereumTransactions_world upstream k w Hk), H1. exact Hbefore. }
  rewrite Hw'. split; [| split; [| split; [| split]]].
  - rewrite (fetchEthereumTransactions_outcome upstream k w Hk), H1.
    unfold beforeInternal. rewrite H1. cbn [fst snd]. fold wb. rewrite H2. reflexivity.
  - subst wc wb wa. unfold answered. cbn. now rewrite <- app_assoc.
  - reflexivity.
  - reflexivity.
  - intros ms. split.
    + apply (getCachedData_miss_later _ w); [exact Hm1 | reflexivity |].
      subst wb. cbn in *. lia.
    + apply (getCachedData_miss_later _ w); [exact Hm2 | reflexivity |].
      subst wb. cbn in *. lia.
Qed.

(** Two calls, one minute apart, to a ledger that has nothing to
    report. *)
Lemma quiet_ledger_costs_two_requests_per_call :
  let first := fetchEthereumTransactions quietUpstream (Some sampleKey) freshWorld in
  fst first = Return []
  /\ requests (snd first) = [tokenUrl sampleKey; internalUrl sampleKey]
  /\ requests (snd (fetchEthereumTransactions quietUpstream (Some sampleKey)
                      (elapse 60000 (snd first))))
     = [tokenUrl sampleKey; internalUrl sampleKey; tokenUrl sampleKey; internalUrl sampleKey].
Proof.
  cbv zeta.
  destruct (empty_ledger_is_asked_on_every_call quietUpstream sampleKey freshWorld
              200 200 "OK" "OK" (ResultOther None) (ResultOther None))
    as (Hres & Hreq & _); try reflexivity; [discriminate |].
  split; [exact Hres |]. split; [exact Hreq |]. vm_compute. reflexivity.
Defined.

(** ** [parseTransactionValue] on positive amounts *)

Section Positive.
Local Open Scope Q_scope.

(** Rounding a rational in or above the range of the normal binary64
    numbers gives Infinity or a Number that is not much smaller. *)
Lemma round_positive x :
  2 ^ (-1022) <= x ->
  Float.round x = Float.Infinity false
  \/ exists y, Float.round x = Float.Finite y /\ (1 - 2 ^ (-53)) * x <= y.
Proof.
  intros Hx. assert (H0 : 0 < 2 ^ (-1022)) by reflexivity.
  destruct (Qlt_le_dec x (2 ^ 1024 - 2 ^ 970)) as [Hlt | Hge].
  - right. destruct (round_within x) as (y & Hy & Hb & _); [lra | now right | exact Hlt |].
    exists y. split; [exact Hy | apply Hb].
  - left. now apply round_overflow.
Qed.

(** [Number(n)] for a positive BigInt. *)
Lemma ofBigInt_positive (n : Z) :
  (0 < n)%Z ->
  Float.ofBigInt n = Float.Infinity false
  \/ exists y, Float.ofBigInt n = Float.Finite y /\ 1 - 2 ^ (-53) <= y.
Proof.
  intros Hn. assert (H1 : 1 <= inject_Z n) by (rewrite <- (Zle_Qle 1); lia).
  destruct (round_positive (inject_Z n)) as [H | (y & Hy & Hb)].
  - assert (2 ^ (-1022) <= 1) by (apply Qlt_le_weak; reflexivity). lra.
  - now left.
  - right. exists y. split; [exact Hy |]. 
    assert (0 < 1 - 2 ^ (-53)) by reflexivity.
    assert ((1 - 2 ^ (-53)) * 1 <= (1 - 2 ^ (-53)) * inject_Z n).
    { rewrite !(Qmult_comm (1 - 2 ^ (-53))). apply Qmult_le_compat_r; lra. }
    lra.
Qed.

(** [Number(r) / Number(10^d)] for a positive remainder. *)
Lemma remainder_positive (r d : Z) :
  (0 <= d <= 22)%Z -> (0 < r < 10 ^ d)%Z ->
  exists y,
    Float.div (Float.ofBigInt r) (Float.ofBigInt (10 ^ d)) = Float.Finite y
    /\ (1 - 2 ^ (-53)) * ((1 - 2 ^ (-53)) * 10 ^ (-22)) <= y.
Proof.
  intros Hd Hr.
  destruct (pow10_exact d Hd) as (_ & yD & -> & HyD).
  assert (HDmax : (10 ^ d <= 10 ^ 22)%Z) by (apply Z.pow_le_mono_r; lia).
  set (D := (10 ^ d)%Z) in *.
  assert (HQr1 : 1 <= inject_Z r) by (rewrite <- (Zle_Qle 1); lia).
  assert (HQrD : inject_Z r < inject_Z D) by (rewrite <- Zlt_Qlt; lia).
  assert (HQDmax : inject_Z D <= 10 ^ 22).
  { change (10 ^ 22) with (inject_Z (10 ^ 22)). now rewrite <- Zle_Qle. }
  destruct (round_within (inject_Z r)) as (yr & Hfr & Hyr & _).
  { lra. }
  { right. assert (2 ^ (-1022) <= 1) by (apply Qlt_le_weak; reflexivity). lra. }
  { assert (10 ^ 22 <= 2 ^ 1024 - 2 ^ 970) by (apply Qlt_le_weak; reflexivity). lra. }
  unfold Float.ofBigInt at 1. rewrite Hfr. unfold Float.div.
  replace (Qeq_bool yD 0) with false
    by (symmetry; apply not_true_is_false; intros E; apply Qeq_bool_iff in E; lra).
  assert (HyD0 : 0 < yD) by lra.
  set (c := (1 - 2 ^ (-53)) * 10 ^ (-22)).
  assert (Hc0 : 0 <= c) by discriminate.
  assert (Hlow : c <= yr / yD).
  { apply Qle_shift_div_l; [exact HyD0 |].
    assert (c * yD <= c * 10 ^ 22).
    { rewrite !(Qmult_comm c). apply Qmult_le_compat_r; [lra | exact Hc0]. }
    assert (c * 10 ^ 22 == 1 - 2 ^ (-53)) by reflexivity.
    lra. }
  assert (Hhigh : yr / yD <= 1 + 2 ^ (-53)).
  { apply Qle_shift_div_r; [exact HyD0 |]. lra. }
  destruct (round_within (yr / yD)) as (yt & Hft & Hyt & _).
  { lra. }
  { right. assert (2 ^ (-1022) <= c) by (apply Qlt_le_weak; reflexivity). lra. }
  { assert (1 + 2 ^ (-53) < 2 ^ 1024 - 2 ^ 970) by reflexivity. lra. }
  exists yt. split; [exact Hft |].
  assert ((1 - 2 ^ (-53)) * c <= (1 - 2 ^ (-53)) * (yr / yD)).
  { rewrite !(Qmult_comm (1 - 2 ^ (-53))). apply Qmult_le_compat_r; [exact Hlow | discriminate]. }
  fold c. lra.
Qed.

End Positive.

(** X20: a positive amount is never read as 0: when [BigInt] reads the
    value as a positive integer, in whatever notation (decimal digits, a
    sign, white space around them, hexadecimal), and [decimals] is from 0
    to 22, [parseTransactionValue] returns a Number above 0, or
    Infinity. *)
Theorem positive_amount_is_not_read_as_zero (value : string) (n decimals : Z) :
  Js.BigInt value = Some n ->
  0 < n ->
  0 <= decimals <= 22 ->
  parseTransactionValue value decimals = Float.Infinity false
  \/ exists x, parseTransactionValue value decimals = Float.Finite x /\ (0 < x)%Q.
Proof.
  intros HB Hn Hd.
  destruct (pow10_exact decimals Hd) as (HD & _).
  assert (HDpos : 0 < 10 ^ decimals) by (apply Z.pow_pos_nonneg; lia).
  unfold parseTransactionValue, parseTransactionValue_body. rewrite HB, HD.
  replace (10 ^ decimals =? 0) with false by (symmetry; apply Z.eqb_neq; lia).
  rewrite Z.quot_div_nonneg, Z.rem_mod_nonneg by lia.
  set (D := 10 ^ decimals) in *.
  pose proof (Z.div_pos n D ltac:(lia) HDpos) as Hq.
  pose proof (Z.mod_pos_bound n D HDpos) as Hr.
  pose proof (Z.div_mod n D ltac:(lia)) as Hnqr.
  set (q := n / D) in *. set (r := n mod D) in *.
  assert (Hsmall : (2 ^ (-1022) <= (1 - 2 ^ (-53)) * ((1 - 2 ^ (-53)) * 10 ^ (-22)))%Q)
    by (apply Qlt_le_weak; reflexivity).
  assert (Hone : ((1 - 2 ^ (-53)) * ((1 - 2 ^ (-53)) * 10 ^ (-22)) <= 1 - 2 ^ (-53))%Q)
    by (apply Qlt_le_weak; reflexivity).
  assert (Hsum : forall a b : Q,
            (0 <= a)%Q -> (0 <= b)%Q ->
            ((1 - 2 ^ (-53)) * ((1 - 2 ^ (-53)) * 10 ^ (-22)) <= a + b)%Q ->
            Float.add (Float.Finite a) (Float.Finite b) = Float.Infinity false
            \/ exists x, Float.add (Float.Finite a) (Float.Finite b) = Float.Finite x
                         /\ (0 < x)%Q).
  { intros a b Ha Hb Hab. unfold Float.add.
    destruct (round_positive (a + b)%Q) as [H | (y & Hy & Hlow)]; [lra | now left |].
    right. exists y. split; [exact Hy |].
    assert (0 < (1 - 2 ^ (-53)) * (a + b))%Q; [| lra].
    apply Qmult_lt_0_compat; [reflexivity | lra]. }
  assert (Hrem : exists b,
            Float.div (Float.ofBigInt r) (Float.ofBigInt D) = Float.Finite b
            /\ (0 <= b)%Q
            /\ ((0 < r)%Z -> ((1 - 2 ^ (-53)) * ((1 - 2 ^ (-53)) * 10 ^ (-22)) <= b)%Q)).
  { destruct (Z.eq_dec r 0) as [E | E].
    - rewrite E, zero_remainder by lia. exists 0%Q. repeat split; [discriminate | lia].
    - destruct (remainder_positive r decimals Hd ltac:(fold D; lia)) as (b & Hb & Hlow).
      exists b. repeat split; [exact Hb | lra | intros _; exact Hlow]. }
  destruct Hrem as (b & -> & Hb0 & Hblow).
  destruct (Z.eq_dec q 0) as [E | E].
  - rewrite E. change (Float.ofBigInt 0) with (Float.Finite 0).
    apply Hsum; [discriminate | exact Hb0 |].
    assert (0 < r)%Z by lia. specialize (Hblow H). lra.
  - destruct (ofBigInt_positive q ltac:(lia)) as [-> | (a & -> & Ha)]; [now left |].
    assert (0 < 1 - 2 ^ (-53))%Q by reflexivity.
    apply Hsum; [lra | exact Hb0 | lra].
Qed.

(** One unit, written in hexadecimal between spaces, at 22 decimals. *)
Lemma smallest_unit_at_22_decimals_is_positive :
  exists x, parseTransactionValue " 0x1 " 22 = Float.Finite x /\ (0 < x)%Q.
Proof.
  destruct (positive_amount_is_not_read_as_zero " 0x1 " 1 22) as [H | H].
  - reflexivity.
  - lia.
  - lia.
  - vm_compute in H. discriminate H.
  - exact H.
Defined.
